(** * Remote keyless system: cipher, key schedule, frame codec, receiver
      and transmitter, embedded from the MikroC / C sources.

    Integer model.  The firmware is built with MikroC for PIC, where
    [short] is 8 bits, [int] is 16 bits and [long] is 32 bits, so that
    types.h makes [uint8_t = unsigned short], [uint16_t = unsigned int]
    and [uint32_t = unsigned long].  The key generator is a host program
    (stdint.h, 32-bit [int]).  Machine integers are values of [Z] and
    every wrap-around is written out with [mod]. *)

From Stdlib Require Import ZArith List Lia Bool Ascii.
Import ListNotations.
Local Open Scope Z_scope.

(** ** Machine integers and C arrays *)

Definition u8 (x : Z) : Z := x mod 2 ^ 8.
Definition u16 (x : Z) : Z := x mod 2 ^ 16.
Definition u32 (x : Z) : Z := x mod 2 ^ 32.

(** Reinterpretation of a 32-bit pattern as [int32_t]. *)
Definition s32 (x : Z) : Z :=
  let y := u32 x in if y <? 2 ^ 31 then y else y - 2 ^ 32.

Definition is_u8 (x : Z) : Prop := 0 <= x < 2 ^ 8.
Definition is_u16 (x : Z) : Prop := 0 <= x < 2 ^ 16.
Definition is_u32 (x : Z) : Prop := 0 <= x < 2 ^ 32.

(** [arr[i]] for an array held as a list. *)
Definition idx (arr : list Z) (i : Z) : Z := nth (Z.to_nat i) arr 0.

(** [arr[i] = v] on a region of memory held as a list.  Every region
    below is sized so that all stores of the sources fall inside it. *)
Fixpoint upd_nat (arr : list Z) (i : nat) (v : Z) : list Z :=
  match arr, i with
  | [], _ => []
  | _ :: t, O => v :: t
  | h :: t, S j => h :: upd_nat t j v
  end.
Definition upd (arr : list Z) (i : Z) (v : Z) : list Z :=
  upd_nat arr (Z.to_nat i) v.

(** The index values of [for (i = lo; i < lo + n; i++)]. *)
Definition upto (lo : Z) (n : nat) : list Z :=
  map (fun k => lo + Z.of_nat k) (seq 0 n).

(** Helper macros shared by blowfish.h and key_gen.c. *)
Definition SWAP (xy : Z * Z) : Z * Z :=
  let '(x, y) := xy in
  let x := Z.lxor x y in
  let y := Z.lxor y x in
  let x := Z.lxor x y in
  (x, y).
Definition BIT16_LO (x : Z) : Z := Z.land (Z.shiftr x 0) 0xFFFF.
Definition BIT16_HI (x : Z) : Z := Z.land (Z.shiftr x 16) 0xFFFF.

(** ** crypto/blowfish.h *)

Module Blowfish.

(** The five global table pointers. *)
Record engine : Type := mk_engine {
  _key_p : list Z;
  _key_s1 : list Z;
  _key_s2 : list Z;
  _key_s3 : list Z;
  _key_s4 : list Z
}.

Definition blowfish_setkeys (p s1 s2 s3 s4 : list Z) : engine :=
  mk_engine p s1 s2 s3 s4.

(** All arithmetic is on 16-bit [unsigned int]: each sum wraps. *)
Definition blowfish_feistel (e : engine) (data : Z) : Z :=
  let d1 := Z.land (Z.shiftr data 0) 0x0F in
  let d2 := Z.land (Z.shiftr data 4) 0x0F in
  let d3 := Z.land (Z.shiftr data 8) 0x0F in
  let d4 := Z.land (Z.shiftr data 12) 0x0F in
  u16 (Z.lxor (u16 (idx (_key_s1 e) d1 + idx (_key_s2 e) d2))
              (idx (_key_s3 e) d3)
       + idx (_key_s4 e) d4).

(** Body of the encryption loop at index [i]. *)
Definition encrypt_round (e : engine) (hl : Z * Z) (i : Z) : Z * Z :=
  let '(data_hi, data_lo) := hl in
  let data_hi := Z.lxor data_hi (idx (_key_p e) i) in
  let data_lo := Z.lxor data_lo (blowfish_feistel e data_hi) in
  SWAP (data_hi, data_lo).

Definition blowfish_encrypt (e : engine) (data : Z) : Z :=
  let data_hi := BIT16_HI data in
  let data_lo := BIT16_LO data in
  let hl := fold_left (encrypt_round e) (upto 0 16) (data_hi, data_lo) in
  let '(data_hi, data_lo) := SWAP hl in
  let data_hi := Z.lxor data_hi (idx (_key_p e) 16) in
  let data_lo := Z.lxor data_lo (idx (_key_p e) 17) in
  Z.lor (Z.shiftl data_hi 16) data_lo.

(** Body of the decryption loop at index [i]. *)
Definition decrypt_round (e : engine) (hl : Z * Z) (i : Z) : Z * Z :=
  let '(data_hi, data_lo) := SWAP hl in
  let data_lo := Z.lxor data_lo (blowfish_feistel e data_hi) in
  let data_hi := Z.lxor data_hi (idx (_key_p e) i) in
  (data_hi, data_lo).

(** [for (idx = 15; idx >= 0; idx--)] visits 15, 14, ..., 0. *)
Definition blowfish_decrypt (e : engine) (data : Z) : Z :=
  let data_hi := BIT16_HI data in
  let data_lo := BIT16_LO data in
  let data_hi := Z.lxor data_hi (idx (_key_p e) 16) in
  let data_lo := Z.lxor data_lo (idx (_key_p e) 17) in
  let hl := SWAP (data_hi, data_lo) in
  let '(data_hi, data_lo) :=
    fold_left (decrypt_round e) (rev (upto 0 16)) hl in
  Z.lor (Z.shiftl data_hi 16) data_lo.

(** A loaded key: the array sizes of key.h and 16-bit entries. *)
Definition table (n : nat) (t : list Z) : Prop :=
  length t = n /\ Forall is_u16 t.

Definition valid_key (e : engine) : Prop :=
  table 18 (_key_p e) /\ table 16 (_key_s1 e) /\ table 16 (_key_s2 e) /\
  table 16 (_key_s3 e) /\ table 16 (_key_s4 e).

End Blowfish.

(** ** key_gen/key_gen.c: the generator's globals and private cipher *)

Module KeyGen.

(** The global arrays of key_gen.c. *)
Record globals : Type := mk_globals {
  arr_key : list Z;
  arr_p : list Z;
  arr_s1 : list Z;
  arr_s2 : list Z;
  arr_s3 : list Z;
  arr_s4 : list Z
}.

(** The initial values, preloaded with the hex digits of pi. *)
Definition arr_p0 : list Z :=
  [0x243F; 0x6A88; 0x85A3; 0x08D3; 0x1319; 0x8A2E; 0x0370; 0x7344; 0xA409;
   0x3822; 0x299F; 0x31D0; 0x082E; 0xFA98; 0xEC4E; 0x6C89; 0x4528; 0x21E6].
Definition arr_s1_0 : list Z :=
  [0x38D0; 0x1377; 0xBE54; 0x66CF; 0x34E9; 0x0C6C; 0xC0AC; 0x29B7;
   0xC97C; 0x50DD; 0x3F84; 0xD5B5; 0xB547; 0x0917; 0x9216; 0xD5D9].
Definition arr_s2_0 : list Z :=
  [0x8979; 0xD131; 0x0BA6; 0x98DF; 0xB5AC; 0x2FFD; 0x72DB; 0xD01A;
   0xDFB7; 0xB8E1; 0xAFED; 0x6A26; 0x7E96; 0xBA7C; 0x9045; 0xF12C].
Definition arr_s3_0 : list Z :=
  [0x7F99; 0x24A1; 0x9947; 0xB391; 0x6CF7; 0x0801; 0xF2E2; 0x858E;
   0xFC16; 0x6369; 0x20D8; 0x7157; 0x4E69; 0xA458; 0xFEA3; 0xF493].
Definition arr_s4_0 : list Z :=
  [0x3D7E; 0x0D95; 0x748F; 0x728E; 0xB658; 0x718B; 0xCD58; 0x8215;
   0x4AEE; 0x7B54; 0xA41D; 0xC25A; 0x59B5; 0x9C30; 0xD539; 0x2AF2].

Definition globals0 (key : list Z) : globals :=
  mk_globals key arr_p0 arr_s1_0 arr_s2_0 arr_s3_0 arr_s4_0.

(** On the host the [uint16_t] operands are promoted to 32-bit [int]:
    the sums do not wrap, and only the returned value is cut to 16
    bits. *)
Definition blowfish_feistel (g : globals) (data : Z) : Z :=
  let d1 := Z.land (Z.shiftr data 0) 0x0F in
  let d2 := Z.land (Z.shiftr data 4) 0x0F in
  let d3 := Z.land (Z.shiftr data 8) 0x0F in
  let d4 := Z.land (Z.shiftr data 12) 0x0F in
  u16 (Z.lxor (idx (arr_s1 g) d1 + idx (arr_s2 g) d2) (idx (arr_s3 g) d3)
       + idx (arr_s4 g) d4).

Definition encrypt_round (g : globals) (hl : Z * Z) (i : Z) : Z * Z :=
  let '(data_hi, data_lo) := hl in
  let data_hi := Z.lxor data_hi (idx (arr_p g) i) in
  let data_lo := Z.lxor data_lo (blowfish_feistel g data_hi) in
  SWAP (data_hi, data_lo).

Definition blowfish_encrypt (g : globals) (data : Z) : Z :=
  let data_hi := BIT16_HI data in
  let data_lo := BIT16_LO data in
  let hl := fold_left (encrypt_round g) (upto 0 16) (data_hi, data_lo) in
  let '(data_hi, data_lo) := SWAP hl in
  let data_hi := Z.lxor data_hi (idx (arr_p g) 16) in
  let data_lo := Z.lxor data_lo (idx (arr_p g) 17) in
  Z.lor (Z.shiftl data_hi 16) data_lo.

(** *** [get_input] *)

(** <ctype.h> in the C locale, on character codes. *)
Definition isupper (x : Z) : bool := (65 <=? x) && (x <=? 90).
Definition islower (x : Z) : bool := (97 <=? x) && (x <=? 122).
Definition isdigit (x : Z) : bool := (48 <=? x) && (x <=? 57).
Definition isalpha (x : Z) : bool := isupper x || islower x.
Definition tolower (x : Z) : Z := if isupper x then x + 32 else x.
Definition isxdigit (x : Z) : bool :=
  isdigit x || ((65 <=? x) && (x <=? 70)) || ((97 <=? x) && (x <=? 102)).

Definition HEX2BIN (x : Z) : Z :=
  if isalpha x then 10 + tolower x - 97 else x - 48.
Definition MAX (x y : Z) : Z := if x >? y then x else y.

(** The code of [line[i]]; the byte after the last character is the
    terminating NUL. *)
Definition char_at (line : list ascii) (i : Z) : Z :=
  Z.of_N (N_of_ascii (nth (Z.to_nat i) line zero)).

(** [sizeof(arr_key)]: 18 words of two bytes. *)
Definition klen : Z := 36.

(** [_arr_key[(idx/2) % klen] ^= dig << shift] with
    [shift = (idx%2) ? 0 : 4]; the store cuts the result to a byte. *)
Definition xor_digit (dig : Z -> Z) (_arr_key : list Z) (i : Z) : list Z :=
  let shift := if i mod 2 =? 0 then 4 else 0 in
  let k := (i / 2) mod klen in
  upd _arr_key k (u8 (Z.lxor (idx _arr_key k) (Z.shiftl (dig i) shift))).

(** One turn of the prompt loop on a line already cut at its line
    end: [None] when the line is refused ([ok] stays false and the
    prompt is repeated), otherwise the bytes left in [arr_key]. *)
Definition get_input_line (line : list ascii) : option (list Z) :=
  let clen := Z.of_nat (length line) in
  let ok := (clen >? 0) in
  let ok :=
    fold_left (fun ok i => ok && isxdigit (char_at line i))
              (upto 0 (length line)) ok in
  let _arr_key := repeat 0 (Z.to_nat klen) in
  if ok then
    Some (fold_left (xor_digit (fun i => HEX2BIN (char_at line (i mod clen))))
                    (upto 0 (Z.to_nat (MAX clen (klen * 2)))) _arr_key)
  else None.

(** The loop over the lines of standard input; [None] is the return
    value -1 when no line can be read. *)
Fixpoint get_input (stdin : list (list ascii)) : option (list Z) :=
  match stdin with
  | [] => None
  | line :: rest =>
      match get_input_line line with
      | Some key => Some key
      | None => get_input rest
      end
  end.

(** [arr_key] read as 18 [uint16_t] on a little-endian host. *)
Definition key_words (_arr_key : list Z) : list Z :=
  map (fun k => idx _arr_key (2 * k) + 2 ^ 8 * idx _arr_key (2 * k + 1))
      (upto 0 18).

(** *** [blowfish_keygen] *)

(** The array a store goes to: [arr_p], or the [arr_sx] picked by
    the [switch] on [sidx]. *)
Inductive table_id : Type := TP | TS1 | TS2 | TS3 | TS4.

Definition arr_sx (sidx : Z) : table_id :=
  if sidx =? 0 then TS1
  else if sidx =? 1 then TS2
  else if sidx =? 2 then TS3
  else TS4.

Definition get_table (g : globals) (t : table_id) : list Z :=
  match t with
  | TP => arr_p g
  | TS1 => arr_s1 g
  | TS2 => arr_s2 g
  | TS3 => arr_s3 g
  | TS4 => arr_s4 g
  end.

Definition set_table (g : globals) (t : table_id) (v : list Z) : globals :=
  match t with
  | TP => mk_globals (arr_key g) v (arr_s1 g) (arr_s2 g) (arr_s3 g) (arr_s4 g)
  | TS1 => mk_globals (arr_key g) (arr_p g) v (arr_s2 g) (arr_s3 g) (arr_s4 g)
  | TS2 => mk_globals (arr_key g) (arr_p g) (arr_s1 g) v (arr_s3 g) (arr_s4 g)
  | TS3 => mk_globals (arr_key g) (arr_p g) (arr_s1 g) (arr_s2 g) v (arr_s4 g)
  | TS4 => mk_globals (arr_key g) (arr_p g) (arr_s1 g) (arr_s2 g) (arr_s3 g) v
  end.

(** A record of one call of [blowfish_encrypt]: the globals it ran
    on, its argument and its result. *)
Record call : Type := mk_call {
  call_tables : globals;
  call_in : Z;
  call_out : Z
}.

(** The globals, the local [int32_t block], and the calls made so far
    (oldest first); the list of calls is not program state, it is
    kept to count and relate the encryptions. *)
Record kstate : Type := mk_kstate {
  tables : globals;
  block : Z;
  calls : list call
}.

(** [arr_p[idx] = arr_p[idx] ^ arr_key[idx]] *)
Definition xor_key_at (g : globals) (i : Z) : globals :=
  set_table g TP (upd (arr_p g) i (Z.lxor (idx (arr_p g) i)
                                          (idx (arr_key g) i))).

Definition xor_key (g : globals) : globals :=
  fold_left xor_key_at (upto 0 18) g.

(** The body shared by the two filling loops:
    [block = blowfish_encrypt(block); arr[idx+0] = BIT16_HI(block);
     arr[idx+1] = BIT16_LO(block);].  The argument is converted to
    [uint32_t] and the result back to [int32_t]. *)
Definition fill_pair (t : table_id) (st : kstate) (i : Z) : kstate :=
  let g := tables st in
  let arg := u32 (block st) in
  let out := blowfish_encrypt g arg in
  let block := s32 out in
  let arr := get_table g t in
  let arr := upd arr (i + 0) (BIT16_HI block) in
  let arr := upd arr (i + 1) (BIT16_LO block) in
  mk_kstate (set_table g t arr) block (calls st ++ [mk_call g arg out]).

(** The index values of [for (idx = 0; idx < n; idx += 2)]. *)
Definition evens (n : nat) : list Z := map (fun k => 2 * k) (upto 0 (n / 2)).

Definition blowfish_keygen (g : globals) : kstate :=
  let block := 0x00000000 in
  let g := xor_key g in
  let st := mk_kstate g block [] in
  let st := fold_left (fill_pair TP) (evens 18) st in
  fold_left (fun st sidx => fold_left (fill_pair (arr_sx sidx)) (evens 16) st)
            (upto 0 4) st.

(** [main] up to the writing of key.h. *)
Definition main (stdin : list (list ascii)) : option kstate :=
  match get_input stdin with
  | None => None
  | Some key => Some (blowfish_keygen (globals0 (key_words key)))
  end.

(** The size and element type of the global arrays. *)
Definition table (n : nat) (t : list Z) : Prop :=
  length t = n /\ Forall is_u16 t.

Definition valid_globals (g : globals) : Prop :=
  table 18 (arr_key g) /\ table 18 (arr_p g) /\ table 16 (arr_s1 g) /\
  table 16 (arr_s2 g) /\ table 16 (arr_s3 g) /\ table 16 (arr_s4 g).

(** The 82 subkey words in the order P, S1, S2, S3, S4. *)
Definition flat (g : globals) : list Z :=
  arr_p g ++ arr_s1 g ++ arr_s2 g ++ arr_s3 g ++ arr_s4 g.

(** The two words an encryption result yields: high half, low half. *)
Definition words (o : Z) : list Z := [BIT16_HI o; BIT16_LO o].

(** A feedback chain from [x]: each call takes the previous result
    (first [x]) and returns its encryption under the globals of that
    moment. *)
Fixpoint chained (x : Z) (cs : list call) : Prop :=
  match cs with
  | [] => True
  | c :: rest =>
      call_in c = x /\
      call_out c = blowfish_encrypt (call_tables c) x /\
      chained (call_out c) rest
  end.

End KeyGen.

(** ** crypto/crc.h *)

(** A [uint8_t*] argument is the function that reads the byte at an
    offset from the pointer. *)
Definition ptr : Type := Z -> Z.

Definition of_array (arr : list Z) : ptr := idx arr.

Module Crc.

Definition poly : Z := 0x8D.

(** One turn of the inner loop on the pair [(crc, _dat)]. *)
Definition data_bit (cd : Z * Z) : Z * Z :=
  let '(crc, _dat) := cd in
  let _crc := crc in
  let crc := u8 (Z.shiftl crc 1) in
  let crc := if Z.land _dat 0x80 =? 0 then crc else u8 (crc + 1) in
  let _dat := u8 (Z.shiftl _dat 1) in
  let crc := if Z.land _crc 0x80 =? 0 then crc else Z.lxor crc poly in
  (crc, _dat).

Definition data_byte (data : ptr) (crc : Z) (byte_idx : Z) : Z :=
  fst (fold_left (fun cd _ => data_bit cd) (upto 0 8) (crc, data byte_idx)).

(** One turn of the augmentation loop. *)
Definition zero_bit (crc : Z) : Z :=
  let _crc := crc in
  let crc := u8 (Z.shiftl crc 1) in
  if Z.land _crc 0x80 =? 0 then crc else Z.lxor crc poly.

Definition crc_ccitt (data : ptr) (num : Z) : Z :=
  let crc := 0xFF in
  let crc := fold_left (data_byte data) (upto 0 (Z.to_nat num)) crc in
  fold_left (fun crc _ => zero_bit crc) (upto 0 8) crc.

End Crc.

(** ** Native byte order.  MikroC for PIC stores a [uint32_t] least
    significant byte first; [*((uint32_t* )data)] and the [_code[idx]]
    accesses of the EEPROM helpers read and write these four bytes. *)

Definition byte_of (code : Z) (i : Z) : Z := u8 (Z.shiftr code (8 * i)).

Definition load32 (data : ptr) : Z :=
  data 0 + 2 ^ 8 * data 1 + 2 ^ 16 * data 2 + 2 ^ 24 * data 3.

(** ** receiver/receiver.c *)

Module Receiver.

Inductive command : Type :=
  CMD_NORMAL | CMD_STORE_CHAN | CMD_RESET_CHAN | CMD_RESET_ALL.

Definition FRAME_MARK : Z := 0x96.
Definition ROLLING_WINDOW : Z := 0x0400.
Definition MAX_CHANS : Z := 16.
Definition ADDRESS_CODE : Z := 0x00.
Definition ADDRESS_STATE : Z := MAX_CHANS * 4.

(** The state the firmware acts on: the data EEPROM (address to
    byte) and the output latches of ports C and D.  The LCD calls and
    the delays touch none of these and are left out. *)
Record state : Type := mk_state {
  eeprom : Z -> Z;
  PORTC : Z;
  PORTD : Z
}.

Definition eeprom_read (st : state) (addr : Z) : Z := eeprom st addr.

Definition eeprom_write (addr data : Z) (st : state) : state :=
  mk_state (fun a => if a =? addr then data else eeprom st a)
           (PORTC st) (PORTD st).

Definition set_PORTC (v : Z) (st : state) : state :=
  mk_state (eeprom st) v (PORTD st).
Definition set_PORTD (v : Z) (st : state) : state :=
  mk_state (eeprom st) (PORTC st) v.

Definition read_channel_state (st : state) (chan : Z) : Z :=
  eeprom_read st (ADDRESS_STATE + chan).

Definition read_channel_code (st : state) (chan : Z) : Z :=
  let offset := u16 (ADDRESS_CODE + chan * 4) in
  load32 (fun i => eeprom_read st (offset + i)).

Definition write_channel_state (chan state_ : Z) (st : state) : state :=
  eeprom_write (ADDRESS_STATE + chan) state_ st.

Definition write_channel_code (chan code : Z) (st : state) : state :=
  let offset := u16 (ADDRESS_CODE + chan * 4) in
  fold_left (fun st i => eeprom_write (offset + i) (byte_of code i) st)
            (upto 0 4) st.

(** [bolt_unlock] drives the motors through PORTC and polls the
    latch input PORTD.F2 at most MAX_BOLT_RETRY times; every path
    ends with PORTC cleared and the LEDs showing the last latch
    sample ([latch_open = true] for F2 = 1). *)
Definition bolt_unlock (latch_open : bool) (st : state) : state :=
  let st := set_PORTC 0x00 st in
  set_PORTD (if latch_open then 0x90 else 0x30) st.

(** The local [invalid] of [process_load]. *)
Definition load_invalid (st : state) (code chan : Z) : bool :=
  let invalid := false in
  let invalid := invalid || negb (read_channel_state st chan =? 0xFF) in
  let invalid :=
    invalid || (u32 (code - read_channel_code st chan) >=? ROLLING_WINDOW) in
  invalid.

Definition process_load (code chan : Z) (latch_open : bool) (st : state)
  : state :=
  let invalid := load_invalid st code chan in
  let st := set_PORTD (if invalid then 0x30 else 0x50) st in
  if invalid then st
  else
    let st := write_channel_code chan (u32 (code + 1)) st in
    bolt_unlock latch_open st.

Definition process_store (code chan : Z) (st : state) : state :=
  let st := set_PORTD 0x90 st in
  let st := write_channel_code chan (u32 (code + 1)) st in
  write_channel_state chan 0xFF st.

(** The countdown [for (idx = 5; idx >= 0 && !abort; idx--)];
    [pins i] is the sample of (PORTD.F0, PORTD.F1) taken after the
    one-second delay at countdown value [i]. *)
Fixpoint countdown (idxs : list Z) (pins : Z -> bool * bool) (abort : bool)
  : bool :=
  match idxs with
  | [] => abort
  | i :: rest =>
      if abort then abort
      else
        let '(f0, f1) := pins i in
        countdown rest pins (negb f0 && negb f1)
  end.

Definition process_reset (chan : Z) (pins : Z -> bool * bool) (st : state)
  : state :=
  let st := set_PORTD 0x50 st in
  let abort := countdown (rev (upto 0 6)) pins false in
  let st :=
    if abort then
      if chan >=? 0 then write_channel_state chan 0x00 st
      else
        fold_left (fun st i => write_channel_state i 0x00 st)
                  (upto 0 (Z.to_nat MAX_CHANS)) st
    else st in
  set_PORTD (if abort then 0x30 else 0x90) st.

(** The command is read off the pins F0 and F1 when the message
    arrives. *)
Definition get_command (f0 f1 : bool) : command :=
  if negb f0 && f1 then CMD_STORE_CHAN
  else if f0 && negb f1 then CMD_RESET_CHAN
  else if f0 && f1 then CMD_RESET_ALL
  else CMD_NORMAL.

Definition process_code (e : Blowfish.engine) (data : list Z)
    (f0 f1 : bool) (pins : Z -> bool * bool) (latch_open : bool)
    (st : state) : state :=
  let code := load32 (of_array data) in
  let chan := idx data 4 mod MAX_CHANS in
  let code := Blowfish.blowfish_decrypt e code in
  let st :=
    match get_command f0 f1 with
    | CMD_NORMAL => process_load code chan latch_open st
    | CMD_STORE_CHAN => process_store code chan st
    | CMD_RESET_CHAN => process_reset chan pins st
    | CMD_RESET_ALL => process_reset (-1) pins st
    end in
  set_PORTD 0x00 st.

(** The acceptance test of [receive_code] on a collected frame. *)
Definition frame_ok (data : list Z) : bool :=
  Crc.crc_ccitt (of_array data) 5 =? idx data 5.

End Receiver.

(** ** The transmitter firmware (source part_001) *)

Module Transmitter.

Definition FRAME_MARK : Z := 0x96.

(** What the device does to the outside: the power pin of the radio
    module (GPIO.F4), the bytes handed to the Manchester encoder and
    the EEPROM writes.  Delays are left out. *)
Inductive event : Type :=
| EvPower (on : bool)
| EvSend (byte : Z)
| EvEepromWrite (addr data : Z).

Definition is_send (ev : event) : bool :=
  match ev with EvSend _ => true | _ => false end.
Definition is_write (ev : event) : bool :=
  match ev with EvEepromWrite _ _ => true | _ => false end.

(** [read_code] and [write_code]: the rolling code lives in the first
    four EEPROM bytes, in native byte order. *)
Definition read_code (eeprom : Z -> Z) : Z := load32 eeprom.

Definition write_code (code : Z) : list event :=
  map (fun i => EvEepromWrite i (byte_of code i)) (upto 0 4).

(** [for (; num > 0; num--, data++)] *)
Fixpoint valid_message_from (num : nat) (data : ptr) : Z :=
  match num with
  | O => 1
  | S n =>
      if data 0 =? FRAME_MARK then 0
      else valid_message_from n (fun i => data (i + 1))
  end.
Definition valid_message (data : ptr) (num : Z) : Z :=
  valid_message_from (Z.to_nat num) data.

(** The locals of [transmit_code] are a region of seven bytes: cells
    0..5 are [uint8_t data[6]], and cell 6 is the byte that follows
    the array in memory (the first byte of the unused local [block],
    which is declared next).  The region starts with whatever the
    memory held. *)
Definition DATA_LEN : Z := 6.

(** [*((uint32_t* )data) = v] *)
Definition store32 (v : Z) (mem : list Z) : list Z :=
  fold_left (fun m i => upd m i (byte_of v i)) (upto 0 4) mem.

(** One turn of the [do ... while] body. *)
Definition form_step (e : Blowfish.engine) (code : Z) (mem : list Z)
  : Z * list Z :=
  let code := u32 (code + 1) in
  let mem := store32 (Blowfish.blowfish_encrypt e code) mem in
  let mem := upd mem 6 (Crc.crc_ccitt (of_array mem) 5) in
  (code, mem).

(** The [do ... while (!valid_message(data, 6))] loop; [None] when
    the fuel runs out before a marker-free message is found. *)
Fixpoint form_message (fuel : nat) (e : Blowfish.engine) (code : Z)
    (mem : list Z) : option (Z * list Z) :=
  match fuel with
  | O => None
  | S f =>
      let '(code, mem) := form_step e code mem in
      if valid_message (of_array mem) 6 =? 0
      then form_message f e code mem
      else Some (code, mem)
  end.

(** One frame on the air: the marker and [data[0..5]]. *)
Definition send_frame (mem : list Z) : list event :=
  EvSend FRAME_MARK :: map (fun i => EvSend (idx mem i)) (upto 0 6).

(** [for (; cnt > 0; cnt--)] *)
Definition burst (mem : list Z) (cnt : Z) : list event :=
  flat_map (fun _ => send_frame mem) (upto 0 (Z.to_nat cnt)).

Definition transmit_code (fuel : nat) (e : Blowfish.engine) (CHAN_NUM : Z)
    (code cnt : Z) (mem : list Z) : option (Z * list Z * list event) :=
  let mem := upd mem 5 CHAN_NUM in
  match form_message fuel e code mem with
  | None => None
  | Some (code, mem) =>
      Some (code, mem, [EvPower true] ++ burst mem cnt ++ [EvPower false])
  end.

(** The body of the main loop once the trigger pin reads 1. *)
Definition on_trigger (fuel : nat) (e : Blowfish.engine) (CHAN_NUM : Z)
    (code : Z) (mem : list Z) : option (Z * list event) :=
  match transmit_code fuel e CHAN_NUM code 16 mem with
  | None => None
  | Some (code, _, tr) => Some (code, tr ++ write_code code)
  end.

(** The constant of the source. *)
Definition CHAN_NUM : Z := 0x00.

End Transmitter.

(** The tables of key.h are produced by the generator and are not part
    of the sources; the pi-digit tables of key_gen.c serve as a sample
    loaded key. *)
Definition sample_engine : Blowfish.engine :=
  Blowfish.blowfish_setkeys KeyGen.arr_p0 KeyGen.arr_s1_0 KeyGen.arr_s2_0
                            KeyGen.arr_s3_0 KeyGen.arr_s4_0.

(** ** Definitions used by the statements and proofs *)

(** Both halves of the cipher state are 16-bit values. *)
Definition halves (hl : Z * Z) : Prop := is_u16 (fst hl) /\ is_u16 (snd hl).

(** The library engine loaded with the generator's arrays. *)
Definition loaded (g : KeyGen.globals) : Blowfish.engine :=
  Blowfish.blowfish_setkeys (KeyGen.arr_p g) (KeyGen.arr_s1 g)
    (KeyGen.arr_s2 g) (KeyGen.arr_s3 g) (KeyGen.arr_s4 g).

(** A store in which every channel is enrolled with rolling code 100. *)
Definition enrolled_store : Receiver.state :=
  Receiver.mk_state
    (fun a => if a <? 64 then (if a mod 4 =? 0 then 100 else 0) else 0xFF)
    0 0.

(** Both command pins read 0: the abort test of the countdown. *)
Definition released (p : bool * bool) : bool := negb (fst p) && negb (snd p).

(** Every [P]-event of a trace comes before every [Q]-event. *)
Definition precedes {A : Type} (P Q : A -> bool) (tr : list A) : Prop :=
  forall i j a b,
    nth_error tr i = Some a -> P a = true ->
    nth_error tr j = Some b -> Q b = true -> (i < j)%nat.

(** The order the firmware is specified to have: the four EEPROM bytes
    of [code] are written, and every such write comes before every byte
    handed to the radio. *)
Definition persisted_before_sent (code : Z) (tr : list Transmitter.event)
  : Prop :=
  incl (Transmitter.write_code code) tr /\
  precedes Transmitter.is_write Transmitter.is_send tr.

(** The order the firmware has. *)
Definition sent_before_persisted (code : Z) (tr : list Transmitter.event)
  : Prop :=
  incl (Transmitter.write_code code) tr /\
  precedes Transmitter.is_send Transmitter.is_write tr.

(** The uninitialised contents used in the examples below. *)
Definition stale_locals : list Z := [0x11; 0x22; 0x33; 0x44; 0x55; 0x66; 0x77].

(** The position of an array inside the 82 words. *)
Definition offset (t : KeyGen.table_id) : Z :=
  match t with
  | KeyGen.TP => 0
  | KeyGen.TS1 => 18
  | KeyGen.TS2 => 34
  | KeyGen.TS3 => 50
  | KeyGen.TS4 => 66
  end.

(** The stores of the two filling loops, in program order. *)
Definition schedule : list (KeyGen.table_id * Z) :=
  map (pair KeyGen.TP) (KeyGen.evens 18) ++
  map (pair KeyGen.TS1) (KeyGen.evens 16) ++
  map (pair KeyGen.TS2) (KeyGen.evens 16) ++
  map (pair KeyGen.TS3) (KeyGen.evens 16) ++
  map (pair KeyGen.TS4) (KeyGen.evens 16).

(** From call number [n] on, each store of [l] goes to the next two of
    the 82 words. *)
Fixpoint aligned (n : nat) (l : list (KeyGen.table_id * Z)) : bool :=
  match l with
  | [] => true
  | (t, i) :: rest =>
      (offset t + i =? 2 * Z.of_nat n) && (0 <=? i) &&
      (i + 1 <? (match t with KeyGen.TP => 18 | _ => 16 end)) &&
      aligned (S n) rest
  end.

(** Turns a list of known length into its elements. *)
Ltac explode l :=
  repeat (destruct l as [| ? l]; [discriminate |]);
  destruct l; [| discriminate].

(** The declared sizes of the generator's arrays. *)
Definition sizes (g : KeyGen.globals) : Prop :=
  length (KeyGen.arr_key g) = 18%nat /\ length (KeyGen.arr_p g) = 18%nat /\
  length (KeyGen.arr_s1 g) = 16%nat /\ length (KeyGen.arr_s2 g) = 16%nat /\
  length (KeyGen.arr_s3 g) = 16%nat /\ length (KeyGen.arr_s4 g) = 16%nat.

(** What holds between two turns of the filling loops; [F] is the 82
    words as they stand when the filling starts. *)
Record Inv (F : list Z) (st : KeyGen.kstate) : Prop := mk_Inv {
  inv_valid : KeyGen.valid_globals (KeyGen.tables st);
  inv_chain : KeyGen.chained 0 (KeyGen.calls st);
  inv_block :
    u32 (KeyGen.block st) = last (map KeyGen.call_out (KeyGen.calls st)) 0;
  inv_flat :
    KeyGen.flat (KeyGen.tables st) =
      flat_map KeyGen.words (map KeyGen.call_out (KeyGen.calls st))
      ++ skipn (2 * length (KeyGen.calls st)) F;
  inv_snap :
    forall k c, nth_error (KeyGen.calls st) k = Some c ->
      KeyGen.flat (KeyGen.call_tables c) =
        flat_map KeyGen.words
          (map KeyGen.call_out (firstn k (KeyGen.calls st)))
        ++ skipn (2 * k) F
}.

(** The store of [xor_digit] with the byte operation left open. *)
Definition store_with (f : Z -> Z -> Z -> Z) (dig : Z -> Z) (buf : list Z)
    (i : Z) : list Z :=
  let shift := if i mod 2 =? 0 then 4 else 0 in
  let k := (i / 2) mod KeyGen.klen in
  upd buf k (f (idx buf k) (dig i) shift).

(** The byte operation of [xor_digit]. *)
Definition xor_byte (old d shift : Z) : Z := u8 (Z.lxor old (Z.shiftl d shift)).

(** The code of a character. *)
Definition code (c : ascii) : Z := Z.of_N (N_of_ascii c).

(** Case analysis on every [<=?] in sight. *)
Ltac split_leb :=
  repeat match goal with
    | |- context [?a <=? ?b] => destruct (Z.leb_spec a b)
    | H : context [?a <=? ?b] |- _ => destruct (Z.leb_spec a b)
    end.

(** A seed of 74 digits [0] followed by the digit [F], which is digit
    number 74. *)
Definition long_seed : list ascii := repeat "0"%char 74 ++ ["F"%char].

(** [crc_ccitt] with the register started at [init] instead of 0xFF. *)
Definition crc_from (init : Z) (data : ptr) (num : Z) : Z :=
  fold_left (fun crc _ => Crc.zero_bit crc) (upto 0 8)
    (fold_left (Crc.data_byte data) (upto 0 (Z.to_nat num)) init).

(** Two buffers XORed byte by byte. *)
Definition xor_ptr (d1 d2 : ptr) : ptr := fun i => Z.lxor (d1 i) (d2 i).

(** Componentwise XOR of two (register, data byte) pairs. *)
Definition pxor (p q : Z * Z) : Z * Z :=
  (Z.lxor (fst p) (fst q), Z.lxor (snd p) (snd q)).

Definition bytes2 (p : Z * Z) : Prop := is_u8 (fst p) /\ is_u8 (snd p).

(** The frame with bit [b] of byte [i] inverted. *)
Definition flip_bit (data : list Z) (i b : Z) : list Z :=
  upd data i (Z.lxor (idx data i) (2 ^ b)).

(** The error pattern of one inverted bit. *)
Definition one_bit (i b : Z) : ptr := fun j => if j =? i then 2 ^ b else 0.

(** *** The receive loop of receiver.c

    [man_receive(&err)] is read off a list of samples: the byte
    returned and the error flag it sets.  [None] stands for a loop still
    waiting when the samples end. *)

(** [while (man_receive(&err) != FRAME_MARK && !err) {}]: the samples
    left once the polling stops. *)
Fixpoint poll_marker (s : list (Z * bool)) : option (list (Z * bool)) :=
  match s with
  | [] => None
  | (b, err) :: rest =>
      if negb (b =? Receiver.FRAME_MARK) && negb err then poll_marker rest
      else Some rest
  end.

(** [for (idx = 0; idx < 6; idx++)] from index [i] with [n] turns to
    go: the flag [ok], the buffer and the samples left. *)
Fixpoint collect (n : nat) (i : Z) (data : list Z) (s : list (Z * bool))
  : option (bool * list Z * list (Z * bool)) :=
  match n with
  | O => Some (true, data, s)
  | S m =>
      match s with
      | [] => None
      | (b, err) :: rest =>
          let data := upd data i b in
          if err then Some (false, data, rest)
          else collect m (i + 1) data rest
      end
  end.

(** [receive_code]: the buffer handed back and the samples not yet
    read; [Receiver.frame_ok] is its test
    [crc_ccitt(data, 5) == data[5]].  Each turn of the outer loop takes
    one unit of fuel. *)
Fixpoint receive_code (fuel : nat) (data : list Z) (s : list (Z * bool))
  : option (list Z * list (Z * bool)) :=
  match fuel with
  | O => None
  | S f =>
      match poll_marker s with
      | None => None
      | Some s1 =>
          match collect 6 0 data s1 with
          | None => None
          | Some (ok, data, s2) =>
              if ok && Receiver.frame_ok data
              then Some (data, s2)
              else receive_code f data s2
          end
      end
  end.

(** Samples received without error. *)
Definition clean (bytes : list Z) : list (Z * bool) :=
  map (fun b => (b, false)) bytes.

(** *** [bolt_unlock] step by step

    [latch k] is the k-th sample of the latch input PORTD.F2 ([true]
    for 1); the result lists the values written to PORTC in order,
    gives the value left in PORTD and the number of samples taken. *)
Definition MAX_BOLT_RETRY : Z := 100.

(** [while (PORTD.F2 == 0) { PORTC = 0x80; if (num_retry >
    MAX_BOLT_RETRY) break; delay_ms(5); num_retry++; }] *)
Fixpoint unlatch (fuel : nat) (latch : nat -> bool) (k : nat) (num_retry : Z)
    (out : list Z) : option (nat * list Z) :=
  match fuel with
  | O => None
  | S f =>
      if latch k then Some (S k, out)
      else
        let out := out ++ [0x80] in
        if num_retry >? MAX_BOLT_RETRY then Some (S k, out)
        else unlatch f latch (S k) (num_retry + 1) out
  end.

Definition bolt_unlock_run (fuel : nat) (latch : nat -> bool)
  : option (list Z * Z * nat) :=
  let finish (k : nat) (out : list Z) :=
    let out := out ++ [0x40; 0x00] in
    (out, (if latch k then 0x90 else 0x30), S k) in
  if latch 0%nat then Some (finish 1%nat [])
  else
    match unlatch fuel latch 1%nat 0 [0x80; 0x00] with
    | None => None
    | Some (k, out) => Some (finish k (out ++ [0x00]))
    end.

(** *** The transmitter's EEPROM after a run

    The contents of the EEPROM once the events of a trace have
    happened. *)
Definition apply_event (ee : Z -> Z) (ev : Transmitter.event) : Z -> Z :=
  match ev with
  | Transmitter.EvEepromWrite a v => fun x => if x =? a then v else ee x
  | _ => ee
  end.

Definition eeprom_after (tr : list Transmitter.event) (ee : Z -> Z) : Z -> Z :=
  fold_left apply_event tr ee.

(** The six bytes [valid_message] inspects are the cipher block [blk]
    in native byte order, the byte that was in cell 4 and the byte
    stored in cell 5.  [marker_hit] tells whether one of them is the
    frame marker, [collides] does so for the block of rolling code
    [c]. *)
Definition marker_hit (blk m4 m5 : Z) : bool :=
  existsb (fun i => byte_of blk i =? Transmitter.FRAME_MARK) (upto 0 4)
  || (m4 =? Transmitter.FRAME_MARK) || (m5 =? Transmitter.FRAME_MARK).

Definition collides (e : Blowfish.engine) (c m4 m5 : Z) : bool :=
  marker_hit (Blowfish.blowfish_encrypt e c) m4 m5.

(** *** Seed lines

    A line the prompt loop of [get_input] refuses: it is empty or holds
    a character that is no hexadecimal digit. *)
Definition refused (line : list ascii) : Prop :=
  line = [] \/ exists c, In c line /\ KeyGen.isxdigit (code c) = false.

(** Two characters that differ at most in their case. *)
Definition same_digit (a b : ascii) : Prop :=
  KeyGen.tolower (code a) = KeyGen.tolower (code b).

(** Two key buffers XORed byte by byte. *)
Definition xor_bytes (b1 b2 : list Z) : list Z :=
  map (fun k => Z.lxor (idx b1 k) (idx b2 k)) (upto 0 36).

(** *** The main loop of receiver.c

    One turn of [while (1) { receive_code(data); process_code(data); }]:
    the buffer, the samples left and the state.  [f0] and [f1] are the
    command pins as they stand when the message has arrived. *)
Definition main_turn (fuel : nat) (e : Blowfish.engine) (data : list Z)
    (s : list (Z * bool)) (f0 f1 : bool) (pins : Z -> bool * bool)
    (latch_open : bool) (st : Receiver.state)
  : option (list Z * list (Z * bool) * Receiver.state) :=
  match receive_code fuel data s with
  | None => None
  | Some (data, rest) =>
      Some (data, rest, Receiver.process_code e data f0 f1 pins latch_open st)
  end.

(** *** [manchester_synchronize]

    [err_cnt] and [data] are locals that the function does not
    initialise; [synchro] counts the calls of [man_synchro()].  The
    result is the buffer, the samples left and that count. *)
Definition MAX_ERR_CNT : Z := 8.

Fixpoint manchester_synchronize (fuel : nat) (err_cnt : Z) (data : list Z)
    (s : list (Z * bool)) (synchro : nat)
  : option (list Z * list (Z * bool) * nat) :=
  match fuel with
  | O => None
  | S f =>
      match s with
      | [] => None
      | (b, err) :: s1 =>
          if (b =? Receiver.FRAME_MARK) && negb err then
            match collect 6 0 data s1 with
            | None => None
            | Some (ok, data, s2) =>
                let err_cnt := if ok then err_cnt else u8 (err_cnt + 1) in
                if ok && Receiver.frame_ok data then Some (data, s2, synchro)
                else manchester_synchronize f err_cnt data s2 synchro
            end
          else
            let err_cnt := u8 (err_cnt + 1) in
            if err_cnt >? MAX_ERR_CNT
            then manchester_synchronize f 0 data s1 (S synchro)
            else manchester_synchronize f err_cnt data s1 synchro
      end
  end.

(** A store in which every channel is enrolled with rolling code 0. *)
Definition fresh_store : Receiver.state :=
  Receiver.mk_state (fun a => if a <? 64 then 0 else 0xFF) 0 0.

(** *** Errors on the way

    The frame [data] with the error pattern [e] XORed onto it. *)
Definition xor_frame (data e : list Z) : list Z :=
  map (fun k => Z.lxor (idx data k) (idx e k)) (upto 0 6).

(** An error pattern that the checksum, started at zero, maps to the
    pattern's own last byte. *)
Definition codeword (e : list Z) : bool :=
  crc_from 0 (of_array e) 5 =? idx e 5.

Definition zeros6 : list Z := repeat 0 6%nat.

(** The error pattern with the bits of [m] (eight bits, the most
    significant first) placed from bit position [p] of the frame on,
    position 0 being the most significant bit of byte 0. *)
Definition burst_error (p m : Z) : list Z :=
  map (fun j => u8 (Z.shiftr (Z.shiftr (Z.shiftl m 40) p) (8 * (5 - j))))
      (upto 0 6).

(** [d'] is the six-byte frame [d] with the six-byte error pattern
    [e] XORed onto it. *)
Definition corrupted (d d' e : list Z) : Prop :=
  length d' = 6%nat /\ length e = 6%nat /\
  forall j, 0 <= j < 6 -> idx d' j = Z.lxor (idx d j) (idx e j).

(** *** The display helpers of receiver.c

    A call [lcd_chr(row, col, c)] is recorded as the triple it is
    given.  [row], [col] and [val] are [short], 8 bits with sign in
    MikroC; the character is cut to a byte. *)
Definition s8 (x : Z) : Z := (x + 2 ^ 7) mod 2 ^ 8 - 2 ^ 7.

Definition lcd_hex (row col val : Z) : Z * Z * Z :=
  (row, col, u8 (if val <? 10 then 48 + val else 65 + val - 10)).

(** One turn of the loop of [lcd_hexdump] on the pair of [col] and the
    characters written so far. *)
Definition lcd_hexdump_step (row : Z) (data : ptr)
    (st : Z * list (Z * Z * Z)) (i : Z) : Z * list (Z * Z * Z) :=
  let '(col, out) := st in
  let out := out ++ [lcd_hex row col (Z.land (Z.shiftr (data i) 0) 0x0F)] in
  let col := s8 (col + 1) in
  let out := out ++ [lcd_hex row col (Z.land (Z.shiftr (data i) 4) 0x0F)] in
  let col := s8 (col + 1) in
  (col, out).

Definition lcd_hexdump (row col : Z) (data : ptr) (num : Z)
  : list (Z * Z * Z) :=
  snd (fold_left (lcd_hexdump_step row data) (upto 0 (Z.to_nat num))
         (col, [])).

(** The two characters shown for the byte [v] at columns [c] and
    [c + 1]. *)
Definition shown (row c v : Z) : list (Z * Z * Z) :=
  [lcd_hex row c (Z.land (Z.shiftr v 0) 0x0F);
   lcd_hex row (c + 1) (Z.land (Z.shiftr v 4) 0x0F)].

(** * Properties *)

(** ** Bit-level facts *)

Lemma SWAP_pair (x y : Z) : SWAP (x, y) = (y, x).
Proof.
  unfold SWAP. f_equal; apply Z.bits_inj'; intros k _;
    rewrite !Z.lxor_spec; destruct (Z.testbit x k), (Z.testbit y k);
    reflexivity.
Qed.

Lemma lxor_cancel_r (a b : Z) : Z.lxor (Z.lxor a b) b = a.
Proof. now rewrite Z.lxor_assoc, Z.lxor_nilpotent, Z.lxor_0_r. Qed.

Lemma lxor_mod (n a b : Z) :
  0 <= n -> Z.lxor a b mod 2 ^ n = Z.lxor (a mod 2 ^ n) (b mod 2 ^ n).
Proof.
  intros Hn. rewrite <- !Z.land_ones by assumption.
  apply Z.bits_inj'. intros k Hk.
  rewrite Z.lxor_spec, !Z.land_spec, Z.lxor_spec.
  destruct (Z.testbit a k), (Z.testbit b k), (Z.testbit (Z.ones n) k);
    reflexivity.
Qed.

Lemma is_u16_mod (x : Z) : is_u16 x <-> x mod 2 ^ 16 = x.
Proof.
  unfold is_u16. split; intros H.
  - now apply Z.mod_small.
  - rewrite <- H. apply Z.mod_pos_bound. lia.
Qed.

Lemma is_u16_u16 (x : Z) : is_u16 (u16 x).
Proof. unfold is_u16, u16. apply Z.mod_pos_bound. lia. Qed.

Lemma is_u16_lxor (a b : Z) : is_u16 a -> is_u16 b -> is_u16 (Z.lxor a b).
Proof.
  rewrite !is_u16_mod. intros Ha Hb.
  rewrite lxor_mod by lia. now rewrite Ha, Hb.
Qed.

Lemma is_u16_idx (t : list Z) (i : Z) : Forall is_u16 t -> is_u16 (idx t i).
Proof.
  intros H. unfold idx.
  destruct (nth_in_or_default (Z.to_nat i) t 0) as [Hin | ->].
  - rewrite Forall_forall in H. now apply H.
  - unfold is_u16. lia.
Qed.

Lemma BIT16_HI_join (h l : Z) :
  is_u16 h -> is_u16 l -> BIT16_HI (Z.lor (Z.shiftl h 16) l) = h.
Proof.
  intros Hh Hl. unfold BIT16_HI.
  change 0xFFFF with (Z.ones 16). rewrite Z.land_ones by lia.
  rewrite Z.shiftr_lor, Z.shiftr_shiftl_l by lia.
  rewrite Z.sub_diag, Z.shiftl_0_r.
  rewrite (Z.shiftr_div_pow2 l) by lia.
  unfold is_u16 in *. rewrite (Z.div_small l) by lia.
  rewrite Z.lor_0_r. apply Z.mod_small. lia.
Qed.

Lemma BIT16_LO_join (h l : Z) :
  is_u16 h -> is_u16 l -> BIT16_LO (Z.lor (Z.shiftl h 16) l) = l.
Proof.
  intros Hh Hl. unfold BIT16_LO. rewrite Z.shiftr_0_r.
  change 0xFFFF with (Z.ones 16). rewrite Z.land_ones by lia.
  change (2 ^ 16) with (2 ^ 16). apply is_u16_mod in Hl.
  rewrite <- Z.land_ones by lia. rewrite Z.land_lor_distr_l.
  rewrite !Z.land_ones by lia. rewrite Z.shiftl_mul_pow2 by lia.
  rewrite Z.mod_mul by lia. rewrite Hl. apply Z.lor_0_l.
Qed.

Lemma BIT16_split (x : Z) :
  is_u32 x -> Z.lor (Z.shiftl (BIT16_HI x) 16) (BIT16_LO x) = x.
Proof.
  intros Hx. unfold BIT16_HI, BIT16_LO. rewrite Z.shiftr_0_r.
  change 0xFFFF with (Z.ones 16).
  apply Z.bits_inj'. intros k Hk.
  rewrite Z.lor_spec, !Z.land_spec.
  destruct (Z.lt_ge_cases k 16) as [Hlt | Hge].
  - rewrite Z.shiftl_spec_low by assumption.
    rewrite Z.ones_spec_low by lia. simpl. now rewrite andb_true_r.
  - rewrite Z.shiftl_spec by lia. rewrite Z.land_spec, Z.shiftr_spec by lia.
    replace (k - 16 + 16) with k by lia.
    rewrite (Z.ones_spec_high 16 k) by lia. rewrite andb_false_r, orb_false_r.
    destruct (Z.lt_ge_cases k 32) as [H32 | H32].
    + rewrite Z.ones_spec_low by lia. apply andb_true_r.
    + rewrite Z.ones_spec_high by lia. rewrite andb_false_r.
      symmetry. unfold is_u32 in Hx.
      destruct (Z.eq_dec x 0) as [-> | Hnz]; [apply Z.bits_0 |].
      apply Z.bits_above_log2; [lia |].
      assert (Z.log2 x < 32) by (apply Z.log2_lt_pow2; lia). lia.
Qed.

Lemma is_u16_BIT16_HI (x : Z) : is_u16 (BIT16_HI x).
Proof.
  unfold BIT16_HI. change 0xFFFF with (Z.ones 16).
  rewrite Z.land_ones by lia. apply is_u16_u16.
Qed.

Lemma is_u16_BIT16_LO (x : Z) : is_u16 (BIT16_LO x).
Proof.
  unfold BIT16_LO. change 0xFFFF with (Z.ones 16).
  rewrite Z.land_ones by lia. apply is_u16_u16.
Qed.

(** ** The cipher round trip *)

Section RoundTrip.
Import Blowfish.
Variable e : engine.

Lemma decrypt_encrypt_round (hl : Z * Z) (i : Z) :
  decrypt_round e (encrypt_round e hl i) i = hl.
Proof.
  destruct hl as [h l]. unfold encrypt_round, decrypt_round.
  rewrite !SWAP_pair. now rewrite !lxor_cancel_r.
Qed.

Lemma decrypt_encrypt_rounds (ks : list Z) (hl : Z * Z) :
  fold_left (decrypt_round e) (rev ks) (fold_left (encrypt_round e) ks hl)
  = hl.
Proof.
  revert hl. induction ks as [| k ks IH]; intros hl; simpl.
  - reflexivity.
  - rewrite fold_left_app, IH. simpl. apply decrypt_encrypt_round.
Qed.

Lemma is_u16_feistel (d : Z) : is_u16 (blowfish_feistel e d).
Proof. unfold blowfish_feistel. apply is_u16_u16. Qed.

Hypothesis key_ok : valid_key e.

Lemma is_u16_key_p (i : Z) : is_u16 (idx (_key_p e) i).
Proof. apply is_u16_idx. destruct key_ok as [[_ H] _]. exact H. Qed.

Lemma halves_encrypt_round (hl : Z * Z) (i : Z) :
  halves hl -> halves (encrypt_round e hl i).
Proof.
  destruct hl as [h l]. intros [Hh Hl]. simpl in Hh, Hl.
  unfold encrypt_round. rewrite SWAP_pair. split; simpl.
  - apply is_u16_lxor; [assumption | apply is_u16_feistel].
  - apply is_u16_lxor; [assumption | apply is_u16_key_p].
Qed.

Lemma halves_encrypt_rounds (ks : list Z) (hl : Z * Z) :
  halves hl -> halves (fold_left (encrypt_round e) ks hl).
Proof.
  revert hl. induction ks as [| k ks IH]; intros hl H; simpl.
  - assumption.
  - apply IH. now apply halves_encrypt_round.
Qed.

Lemma decrypt_encrypt (x : Z) :
  is_u32 x -> blowfish_decrypt e (blowfish_encrypt e x) = x.
Proof.
  intros Hx. unfold blowfish_encrypt, blowfish_decrypt.
  pose proof (halves_encrypt_rounds (upto 0 16) (BIT16_HI x, BIT16_LO x))
    as Hr.
  pose proof (decrypt_encrypt_rounds (upto 0 16) (BIT16_HI x, BIT16_LO x))
    as Hd.
  destruct (fold_left (encrypt_round e) (upto 0 16)
              (BIT16_HI x, BIT16_LO x)) as [a b].
  destruct Hr as [Ha Hb];
    [split; [apply is_u16_BIT16_HI | apply is_u16_BIT16_LO] |].
  simpl in Ha, Hb. rewrite (SWAP_pair a b). cbv beta iota zeta.
  assert (H16 : is_u16 (Z.lxor b (idx (_key_p e) 16)))
    by (apply is_u16_lxor; [assumption | apply is_u16_key_p]).
  assert (H17 : is_u16 (Z.lxor a (idx (_key_p e) 17)))
    by (apply is_u16_lxor; [assumption | apply is_u16_key_p]).
  rewrite BIT16_HI_join, BIT16_LO_join by assumption.
  rewrite !lxor_cancel_r, SWAP_pair, Hd.
  now apply BIT16_split.
Qed.

End RoundTrip.

Lemma valid_sample_engine : Blowfish.valid_key sample_engine.
Proof.
  unfold Blowfish.valid_key, Blowfish.table, sample_engine. simpl.
  repeat split; try reflexivity;
    repeat (apply Forall_cons; [unfold is_u16; lia |]); apply Forall_nil.
Qed.

(** C5.  For every 32-bit block [x] and every loaded key ([P] of 18
    words, [S1..S4] of 16 words each, all 16-bit),
    [blowfish_decrypt (blowfish_encrypt x) = x]. *)
Theorem C5_decrypt_encrypt (e : Blowfish.engine) (x : Z) :
  Blowfish.valid_key e -> is_u32 x ->
  Blowfish.blowfish_decrypt e (Blowfish.blowfish_encrypt e x) = x.
Proof. intros He Hx. now apply decrypt_encrypt. Qed.

Lemma C5_decrypt_encrypt_witness :
  Blowfish.valid_key sample_engine /\ is_u32 0x573BE15A /\
  Blowfish.blowfish_encrypt sample_engine 0x573BE15A <> 0x573BE15A /\
  Blowfish.blowfish_decrypt sample_engine
    (Blowfish.blowfish_encrypt sample_engine 0x573BE15A) = 0x573BE15A.
Proof.
  split; [exact valid_sample_engine |].
  split; [unfold is_u32; lia |].
  split; [vm_compute; discriminate |].
  apply (C5_decrypt_encrypt sample_engine 0x573BE15A).
  - exact valid_sample_engine.
  - unfold is_u32; lia.
Defined.

(** ** The generator's private cipher against the library's *)

(** Cutting the inner sum to 16 bits does not change the low 16 bits of
    the result. *)
Lemma u16_lxor_add_wrap (a c b : Z) :
  u16 (Z.lxor a c + b) = u16 (Z.lxor (u16 a) c + b).
Proof.
  unfold u16.
  rewrite (Z.add_mod (Z.lxor a c)) by lia.
  rewrite (Z.add_mod (Z.lxor (a mod 2 ^ 16) c)) by lia.
  rewrite !(lxor_mod 16) by lia. now rewrite Z.mod_mod by lia.
Qed.

Section PrivateCopy.
Variable g : KeyGen.globals.

Lemma feistel_private_copy (d : Z) :
  KeyGen.blowfish_feistel g d = Blowfish.blowfish_feistel (loaded g) d.
Proof.
  unfold KeyGen.blowfish_feistel, Blowfish.blowfish_feistel.
  cbv zeta. exact (u16_lxor_add_wrap _ _ _).
Qed.

Lemma encrypt_round_private_copy (hl : Z * Z) (i : Z) :
  KeyGen.encrypt_round g hl i = Blowfish.encrypt_round (loaded g) hl i.
Proof.
  destruct hl as [h l]. unfold KeyGen.encrypt_round, Blowfish.encrypt_round.
  now rewrite feistel_private_copy.
Qed.

Lemma encrypt_rounds_private_copy (ks : list Z) (hl : Z * Z) :
  fold_left (KeyGen.encrypt_round g) ks hl
  = fold_left (Blowfish.encrypt_round (loaded g)) ks hl.
Proof.
  revert hl. induction ks as [| k ks IH]; intros hl; simpl.
  - reflexivity.
  - now rewrite encrypt_round_private_copy, IH.
Qed.

Lemma encrypt_private_copy (x : Z) :
  KeyGen.blowfish_encrypt g x = Blowfish.blowfish_encrypt (loaded g) x.
Proof.
  unfold KeyGen.blowfish_encrypt, Blowfish.blowfish_encrypt.
  now rewrite encrypt_rounds_private_copy.
Qed.

End PrivateCopy.

(** C9.  The generator's private [blowfish_feistel] and
    [blowfish_encrypt] (on [arr_p], [arr_s1..arr_s4], with host integer
    promotion) compute the same function as the library's (16-bit
    arithmetic) once the library is loaded with the generator's arrays,
    for every input. *)
Theorem C9_private_cipher_refines (g : KeyGen.globals) (x : Z) :
  KeyGen.blowfish_feistel g x = Blowfish.blowfish_feistel (loaded g) x /\
  KeyGen.blowfish_encrypt g x = Blowfish.blowfish_encrypt (loaded g) x.
Proof.
  split; [apply feistel_private_copy | apply encrypt_private_copy].
Qed.

(** ** The channel store *)

Section ChannelStore.
Import Receiver.

Lemma load32_byte_of (v : Z) :
  is_u32 v -> load32 (byte_of v) = v.
Proof.
  unfold is_u32, load32, byte_of, u8. intros Hv.
  rewrite !Z.shiftr_div_pow2 by lia.
  change (8 * 0) with 0. change (8 * 1) with 8.
  change (8 * 2) with 16. change (8 * 3) with 24.
  change (2 ^ 0) with 1. rewrite Z.div_1_r.
  change (2 ^ 8) with 256 in *. change (2 ^ 16) with 65536 in *.
  change (2 ^ 24) with 16777216 in *. change (2 ^ 32) with 4294967296 in *.
  Z.div_mod_to_equations. lia.
Qed.

Lemma eeprom_set_PORTD (v : Z) (st : state) :
  eeprom (set_PORTD v st) = eeprom st.
Proof. reflexivity. Qed.

Lemma eeprom_set_PORTC (v : Z) (st : state) :
  eeprom (set_PORTC v st) = eeprom st.
Proof. reflexivity. Qed.

Lemma eeprom_bolt_unlock (b : bool) (st : state) :
  eeprom (bolt_unlock b st) = eeprom st.
Proof. reflexivity. Qed.

Lemma eeprom_write_same (a v : Z) (st : state) :
  eeprom (eeprom_write a v st) a = v.
Proof. simpl. now rewrite Z.eqb_refl. Qed.

Lemma eeprom_write_other (a b v : Z) (st : state) :
  b <> a -> eeprom (eeprom_write a v st) b = eeprom st b.
Proof. intros H. simpl. now apply Z.eqb_neq in H as ->. Qed.

(** The four bytes of a channel's code lie below the flags. *)
Lemma code_offset (chan : Z) :
  0 <= chan < MAX_CHANS -> u16 (ADDRESS_CODE + chan * 4) = 4 * chan.
Proof.
  unfold MAX_CHANS, ADDRESS_CODE, u16. intros H.
  rewrite Z.mod_small; lia.
Qed.

Lemma eeprom_write_channel_code (chan code : Z) (st : state) (a : Z) :
  0 <= chan < MAX_CHANS ->
  eeprom (write_channel_code chan code st) a =
    if (4 * chan <=? a) && (a <? 4 * chan + 4)
    then byte_of code (a - 4 * chan) else eeprom st a.
Proof.
  intros Hc. unfold write_channel_code. rewrite code_offset by assumption.
  change (upto 0 4) with [0; 1; 2; 3].
  cbn [fold_left]. unfold eeprom_write. cbn [eeprom].
  destruct (Z.leb_spec (4 * chan) a), (Z.ltb_spec a (4 * chan + 4));
    cbn [andb];
    repeat match goal with
      | |- context [?x =? ?y] => destruct (Z.eqb_spec x y); try lia
      end;
    try reflexivity; f_equal; lia.
Qed.

Lemma read_write_channel_code (chan code : Z) (st : state) :
  0 <= chan < MAX_CHANS -> is_u32 code ->
  read_channel_code (write_channel_code chan code st) chan = code.
Proof.
  intros Hc Hv. unfold read_channel_code, eeprom_read.
  rewrite code_offset by assumption.
  transitivity (load32 (byte_of code)); [| now apply load32_byte_of].
  unfold load32. rewrite !eeprom_write_channel_code by assumption.
  repeat match goal with
    | |- context [(?x <=? ?y) && (?u <? ?v)] =>
        destruct (Z.leb_spec x y), (Z.ltb_spec u v); try lia; cbn [andb]
    end.
  repeat f_equal; lia.
Qed.

Lemma read_other_channel_code (chan code c : Z) (st : state) :
  0 <= chan < MAX_CHANS -> 0 <= c < MAX_CHANS -> c <> chan ->
  read_channel_code (write_channel_code chan code st) c
  = read_channel_code st c.
Proof.
  intros Hc Hc' Hne. unfold read_channel_code, eeprom_read, load32.
  rewrite (code_offset c) by assumption.
  rewrite !eeprom_write_channel_code by assumption.
  repeat match goal with
    | |- context [(?x <=? ?y) && (?u <? ?v)] =>
        destruct (Z.leb_spec x y), (Z.ltb_spec u v); try lia; cbn [andb]
    end; reflexivity.
Qed.

Lemma read_state_write_channel_code (chan code c : Z) (st : state) :
  0 <= chan < MAX_CHANS -> 0 <= c < MAX_CHANS ->
  read_channel_state (write_channel_code chan code st) c
  = read_channel_state st c.
Proof.
  intros Hc Hc'. unfold read_channel_state, eeprom_read.
  rewrite eeprom_write_channel_code by assumption.
  unfold ADDRESS_STATE, MAX_CHANS in *.
  destruct (Z.leb_spec (4 * chan) (16 * 4 + c)),
    (Z.ltb_spec (16 * 4 + c) (4 * chan + 4)); try lia; reflexivity.
Qed.

End ChannelStore.

(** ** The rolling-code window *)

Section RollingWindow.
Import Receiver.

Lemma load_invalid_false (st : state) (code chan : Z) :
  load_invalid st code chan = false <->
  read_channel_state st chan = 0xFF /\
  (code - read_channel_code st chan) mod 2 ^ 32 < 1024.
Proof.
  unfold load_invalid, ROLLING_WINDOW, u32. cbn [orb].
  rewrite orb_false_iff, negb_false_iff, Z.eqb_eq.
  rewrite Z.geb_leb, Z.leb_gt. reflexivity.
Qed.

Lemma process_load_invalid (st : state) (code chan : Z) (b : bool) :
  load_invalid st code chan = true ->
  process_load code chan b st = set_PORTD 0x30 st.
Proof. intros H. unfold process_load. now rewrite H. Qed.

Lemma process_load_valid (st : state) (code chan : Z) (b : bool) :
  load_invalid st code chan = false ->
  process_load code chan b st =
    bolt_unlock b
      (write_channel_code chan (u32 (code + 1)) (set_PORTD 0x50 st)).
Proof. intros H. unfold process_load. now rewrite H. Qed.

End RollingWindow.

(** C4.  A Normal command with decrypted [code] is rejected unless the
    channel's stored flag byte is 0xFF and
    [(code - last_code) mod 2^32 < 1024]; on acceptance the stored
    last code becomes [code + 1] (as a 32-bit value) and nothing else in
    the channel store changes; on rejection the store is not written. *)
Theorem C4_normal_command (st : Receiver.state) (code chan : Z) (b : bool) :
  0 <= chan < Receiver.MAX_CHANS ->
  let st' := Receiver.process_load code chan b st in
  (Receiver.load_invalid st code chan = false <->
     Receiver.read_channel_state st chan = 0xFF /\
     (code - Receiver.read_channel_code st chan) mod 2 ^ 32 < 1024) /\
  (Receiver.load_invalid st code chan = false ->
     Receiver.read_channel_code st' chan = (code + 1) mod 2 ^ 32 /\
     (forall c, 0 <= c < Receiver.MAX_CHANS -> c <> chan ->
        Receiver.read_channel_code st' c = Receiver.read_channel_code st c) /\
     (forall c, 0 <= c < Receiver.MAX_CHANS ->
        Receiver.read_channel_state st' c = Receiver.read_channel_state st c))
  /\
  (Receiver.load_invalid st code chan = true ->
     Receiver.eeprom st' = Receiver.eeprom st /\
     Receiver.PORTC st' = Receiver.PORTC st).
Proof.
  intros Hc st'. split; [apply load_invalid_false |]. split.
  - intros Hv. subst st'. rewrite process_load_valid by assumption.
    split; [| split].
    + unfold Receiver.bolt_unlock, Receiver.read_channel_code.
      cbn [Receiver.eeprom_read Receiver.eeprom Receiver.set_PORTD
           Receiver.set_PORTC].
      apply (read_write_channel_code chan (u32 (code + 1))); [assumption |].
      unfold is_u32, u32. apply Z.mod_pos_bound. lia.
    + intros c Hc' Hne.
      apply (read_other_channel_code chan (u32 (code + 1)) c
               (Receiver.set_PORTD 0x50 st)); assumption.
    + intros c Hc'.
      apply (read_state_write_channel_code chan (u32 (code + 1)) c
               (Receiver.set_PORTD 0x50 st)); assumption.
  - intros Hi. subst st'. rewrite process_load_invalid by assumption.
    split; reflexivity.
Qed.

Lemma C4_normal_command_witness :
  0 <= 3 < Receiver.MAX_CHANS /\
  Receiver.load_invalid enrolled_store 1123 3 = false /\
  Receiver.load_invalid enrolled_store 1124 3 = true /\
  Receiver.load_invalid enrolled_store 99 3 = true /\
  Receiver.read_channel_code
    (Receiver.process_load 1123 3 true enrolled_store) 3 = 1124.
Proof.
  split; [unfold Receiver.MAX_CHANS; lia |].
  split; [reflexivity |]. split; [reflexivity |]. split; [reflexivity |].
  assert (H3 : 0 <= 3 < Receiver.MAX_CHANS) by (unfold Receiver.MAX_CHANS; lia).
  destruct (C4_normal_command enrolled_store 1123 3 true H3) as [_ [Hacc _]].
  destruct (Hacc eq_refl) as [Hcode _].
  exact Hcode.
Defined.

(** ** Reset commands *)

Section Reset.
Import Receiver.

Lemma countdown_abort (idxs : list Z) (pins : Z -> bool * bool) :
  countdown idxs pins true = true.
Proof. destruct idxs; reflexivity. Qed.

(** The countdown ends with [abort] set exactly when some sample
    finds both pins released. *)
Lemma countdown_existsb (idxs : list Z) (pins : Z -> bool * bool) :
  countdown idxs pins false = existsb (fun i => released (pins i)) idxs.
Proof.
  induction idxs as [| i rest IH]; cbn [countdown existsb].
  - reflexivity.
  - unfold released at 1. destruct (pins i) as [f0 f1]. cbn [fst snd].
    destruct (negb f0 && negb f1); cbn [orb].
    + apply countdown_abort.
    + exact IH.
Qed.

Lemma countdown_never (pins : Z -> bool * bool) :
  (forall i, 0 <= i <= 5 -> released (pins i) = false) ->
  countdown (rev (upto 0 6)) pins false = false.
Proof.
  intros H. rewrite countdown_existsb.
  change (rev (upto 0 6)) with [5; 4; 3; 2; 1; 0]. cbn [existsb].
  rewrite !H by lia. reflexivity.
Qed.

Lemma eeprom_reset_all (l : list Z) (st : state) (a : Z) :
  eeprom (fold_left (fun st i => write_channel_state i 0x00 st) l st) a =
    if existsb (fun i => a =? ADDRESS_STATE + i) l then 0x00
    else eeprom st a.
Proof.
  revert st. induction l as [| i l IH]; intros st; cbn [fold_left existsb].
  - reflexivity.
  - rewrite IH. unfold write_channel_state, eeprom_write. cbn [eeprom].
    destruct (a =? ADDRESS_STATE + i); cbn [orb];
      destruct (existsb _ l); reflexivity.
Qed.

Lemma existsb_flag_range (n : nat) (a : Z) :
  existsb (fun i => a =? ADDRESS_STATE + i) (upto 0 n) = true ->
  ADDRESS_STATE <= a < ADDRESS_STATE + Z.of_nat n.
Proof.
  rewrite existsb_exists. intros [i [Hin Ha]].
  apply Z.eqb_eq in Ha. unfold upto in Hin. apply in_map_iff in Hin.
  destruct Hin as [k [Hk Hin]]. apply in_seq in Hin. lia.
Qed.

(** Every byte of the store is either untouched or a flag byte of a
    channel in range that now holds 0x00. *)
Lemma process_reset_eeprom (chan : Z) (pins : Z -> bool * bool)
    (st : state) (a : Z) :
  chan < MAX_CHANS ->
  eeprom (process_reset chan pins st) a = eeprom st a \/
  (ADDRESS_STATE <= a < ADDRESS_STATE + MAX_CHANS /\
   eeprom (process_reset chan pins st) a = 0x00).
Proof.
  intros Hc. unfold process_reset. cbn zeta.
  destruct (countdown (rev (upto 0 6)) pins false).
  - rewrite eeprom_set_PORTD. destruct (Z.geb_spec chan 0) as [Hge | Hlt].
    + unfold write_channel_state, eeprom_write. cbn [eeprom set_PORTD].
      destruct (Z.eqb_spec a (ADDRESS_STATE + chan)) as [-> | Hne].
      * right. split; [| reflexivity].
        unfold ADDRESS_STATE, MAX_CHANS in *. lia.
      * now left.
    + rewrite eeprom_reset_all. rewrite eeprom_set_PORTD.
      destruct (existsb _ _) eqn:E.
      * right. split; [| reflexivity].
        apply existsb_flag_range in E.
        unfold ADDRESS_STATE, MAX_CHANS in *. simpl in E. lia.
      * now left.
  - now left.
Qed.

(** The write phase runs exactly when the countdown ended with [abort]
    set, that is when some sample found both pins released. *)
Lemma process_reset_gate (chan : Z) (pins : Z -> bool * bool) (st : state) :
  0 <= chan ->
  read_channel_state (process_reset chan pins st) chan =
    if existsb (fun i => released (pins i)) (rev (upto 0 6))
    then 0x00 else read_channel_state st chan.
Proof.
  intros Hc. unfold process_reset. cbv zeta. rewrite countdown_existsb.
  destruct (existsb _ _).
  - destruct (Z.geb_spec chan 0) as [_ | Hlt]; [| lia].
    unfold read_channel_state, eeprom_read. rewrite eeprom_set_PORTD.
    unfold write_channel_state. apply eeprom_write_same.
  - reflexivity.
Qed.

End Reset.

(** C3 (inverted in the code).  With channel 3 enrolled: when both pins
    are found released at the first sample the countdown stops, the
    LEDs show the cancel pattern and yet the flag byte of channel 3 is
    cleared; when the operator holds the pin through all six samples
    the LEDs show the completed pattern and the flag byte still reads
    0xFF. *)
Theorem C3_reset_gate_inverted :
  let early := Receiver.process_reset 3 (fun _ => (false, false))
                 enrolled_store in
  let held := Receiver.process_reset 3 (fun _ => (true, false))
                enrolled_store in
  Receiver.read_channel_state enrolled_store 3 = 0xFF /\
  (Receiver.read_channel_state early 3 = 0x00 /\ Receiver.PORTD early = 0x30)
  /\
  (Receiver.read_channel_state held 3 = 0xFF /\ Receiver.PORTD held = 0x90).
Proof. repeat split; reflexivity. Qed.

(** C8.  If at no sample point of the countdown both command pins are
    found released, a reset invocation (one channel or all) leaves the
    whole store, flags and rolling codes, as it was. *)
Theorem C8_reset_without_abort_sample (chan : Z) (pins : Z -> bool * bool)
    (st : Receiver.state) :
  (forall i, 0 <= i <= 5 -> released (pins i) = false) ->
  let st' := Receiver.process_reset chan pins st in
  Receiver.eeprom st' = Receiver.eeprom st /\
  (forall c, Receiver.read_channel_state st' c
             = Receiver.read_channel_state st c) /\
  (forall c, Receiver.read_channel_code st' c
             = Receiver.read_channel_code st c).
Proof.
  intros H st'. subst st'. unfold Receiver.process_reset. cbn zeta.
  rewrite countdown_never by assumption.
  repeat split; reflexivity.
Qed.

Lemma C8_reset_without_abort_sample_witness :
  (forall i, 0 <= i <= 5 -> released ((fun _ : Z => (true, true)) i) = false)
  /\ Receiver.eeprom
       (Receiver.process_reset (-1) (fun _ => (true, true)) enrolled_store)
     = Receiver.eeprom enrolled_store.
Proof.
  split; [intros i _; reflexivity |].
  apply (C8_reset_without_abort_sample (-1) (fun _ => (true, true))
           enrolled_store).
  intros i _. reflexivity.
Defined.

(** C10.  Whatever the pins do, a reset of one channel or of all
    channels writes nothing but the value 0x00 into flag bytes
    (addresses 64..79), and the four-byte rolling code of every channel
    reads the same afterwards. *)
Theorem C10_reset_keeps_codes (chan : Z) (pins : Z -> bool * bool)
    (st : Receiver.state) :
  -1 <= chan < Receiver.MAX_CHANS ->
  let st' := Receiver.process_reset chan pins st in
  (forall a, Receiver.eeprom st' a = Receiver.eeprom st a \/
     (Receiver.ADDRESS_STATE <= a
        < Receiver.ADDRESS_STATE + Receiver.MAX_CHANS /\
      Receiver.eeprom st' a = 0x00)) /\
  (forall c, 0 <= c < Receiver.MAX_CHANS ->
     Receiver.read_channel_code st' c = Receiver.read_channel_code st c).
Proof.
  intros Hc st'. subst st'. split.
  - intros a. apply process_reset_eeprom. lia.
  - intros c Hr. unfold Receiver.read_channel_code, Receiver.eeprom_read.
    rewrite code_offset by assumption. unfold load32.
    assert (Hlow : forall i, 0 <= i < 4 ->
              Receiver.eeprom (Receiver.process_reset chan pins st) (4 * c + i)
              = Receiver.eeprom st (4 * c + i)).
    { intros i Hi.
      destruct (process_reset_eeprom chan pins st (4 * c + i)) as [E | [R _]];
        [lia | exact E |].
      unfold Receiver.ADDRESS_STATE, Receiver.MAX_CHANS in *. lia. }
    rewrite !Hlow by lia. reflexivity.
Qed.

Lemma C10_reset_keeps_codes_witness :
  -1 <= -1 < Receiver.MAX_CHANS /\
  Receiver.read_channel_state
    (Receiver.process_reset (-1) (fun _ => (false, false)) enrolled_store) 7
  = 0x00 /\
  Receiver.read_channel_code
    (Receiver.process_reset (-1) (fun _ => (false, false)) enrolled_store) 7
  = Receiver.read_channel_code enrolled_store 7.
Proof.
  assert (H : -1 <= -1 < Receiver.MAX_CHANS)
    by (unfold Receiver.MAX_CHANS; lia).
  split; [exact H |]. split; [reflexivity |].
  apply (C10_reset_keeps_codes (-1) (fun _ => (false, false)) enrolled_store H).
  unfold Receiver.MAX_CHANS; lia.
Defined.

(** ** Array stores *)

Lemma length_upd_nat (m : list Z) (i : nat) (v : Z) :
  length (upd_nat m i v) = length m.
Proof.
  revert i. induction m as [| h t IH]; intros [| i]; simpl; auto.
Qed.

Lemma nth_upd_nat_same (m : list Z) (i : nat) (v d : Z) :
  (i < length m)%nat -> nth i (upd_nat m i v) d = v.
Proof.
  revert i. induction m as [| h t IH]; intros [| i] H; simpl in *;
    try lia; auto. apply IH. lia.
Qed.

Lemma nth_upd_nat_other (m : list Z) (i j : nat) (v d : Z) :
  i <> j -> nth j (upd_nat m i v) d = nth j m d.
Proof.
  revert i j. induction m as [| h t IH]; intros [| i] [| j] H; simpl;
    try congruence; auto.
Qed.

Lemma length_upd (m : list Z) (i v : Z) : length (upd m i v) = length m.
Proof. apply length_upd_nat. Qed.

Lemma idx_upd_same (m : list Z) (i v : Z) :
  0 <= i < Z.of_nat (length m) -> idx (upd m i v) i = v.
Proof. intros H. unfold idx, upd. apply nth_upd_nat_same. lia. Qed.

Lemma idx_upd_other (m : list Z) (i j v : Z) :
  0 <= i -> 0 <= j -> i <> j -> idx (upd m i v) j = idx m j.
Proof. intros Hi Hj H. unfold idx, upd. apply nth_upd_nat_other. lia. Qed.

(** ** The transmitter's message and its order of effects *)

Section TransmitterFacts.
Import Transmitter.
Variable e : Blowfish.engine.

Lemma length_store32 (v : Z) (mem : list Z) :
  length (store32 v mem) = length mem.
Proof.
  unfold store32. change (upto 0 4) with [0; 1; 2; 3]. cbn [fold_left].
  now rewrite !length_upd.
Qed.

Lemma idx_store32_high (v : Z) (mem : list Z) (j : Z) :
  4 <= j -> idx (store32 v mem) j = idx mem j.
Proof.
  intros H. unfold store32. change (upto 0 4) with [0; 1; 2; 3].
  cbn [fold_left]. now rewrite !idx_upd_other by lia.
Qed.

Lemma idx_store32_low (v : Z) (mem : list Z) (j : Z) :
  (4 <= length mem)%nat -> 0 <= j < 4 ->
  idx (store32 v mem) j = byte_of v j.
Proof.
  intros Hl H. unfold store32. change (upto 0 4) with [0; 1; 2; 3].
  cbn [fold_left].
  assert (C : j = 0 \/ j = 1 \/ j = 2 \/ j = 3) by lia.
  destruct C as [-> | [-> | [-> | ->]]];
    rewrite ?(idx_upd_other _ 3) by lia;
    rewrite ?(idx_upd_other _ 2) by lia;
    rewrite ?(idx_upd_other _ 1) by lia;
    apply idx_upd_same; rewrite ?length_upd; lia.
Qed.

(** What the loop leaves in the seven cells: the cipher block in
    cells 0..3, cells 4 and 5 as they were before the loop, and the
    checksum in cell 6. *)
Lemma form_message_cells (fuel : nat) (code : Z) (mem : list Z)
    (code' : Z) (mem' : list Z) :
  length mem = 7%nat ->
  form_message fuel e code mem = Some (code', mem') ->
  length mem' = 7%nat /\
  (forall j, 0 <= j < 4 ->
     idx mem' j = byte_of (Blowfish.blowfish_encrypt e code') j) /\
  idx mem' 4 = idx mem 4 /\ idx mem' 5 = idx mem 5 /\
  valid_message (of_array mem') 6 <> 0 /\
  exists k, 1 <= k <= Z.of_nat fuel /\ code' = u32 (code + k).
Proof.
  revert code mem. induction fuel as [| f IH]; intros code mem Hl H.
  - discriminate.
  - cbn [form_message] in H. unfold form_step in H. cbv zeta in H.
    set (c1 := u32 (code + 1)) in *.
    set (m1 := store32 (Blowfish.blowfish_encrypt e c1) mem) in *.
    set (m2 := upd m1 6 (Crc.crc_ccitt (of_array m1) 5)) in *.
    assert (Hl1 : length m1 = 7%nat)
      by (subst m1; now rewrite length_store32).
    assert (Hl2 : length m2 = 7%nat) by (subst m2; now rewrite length_upd).
    assert (H4 : idx m2 4 = idx mem 4).
    { subst m2 m1. rewrite idx_upd_other by lia.
      apply idx_store32_high. lia. }
    assert (H5 : idx m2 5 = idx mem 5).
    { subst m2 m1. rewrite idx_upd_other by lia.
      apply idx_store32_high. lia. }
    destruct (Z.eqb_spec (valid_message (of_array m2) 6) 0) as [E | E].
    + destruct (IH c1 m2 Hl2 H) as (L & B & C4 & C5 & V & k & Hk & Hc).
      repeat split; try congruence.
      * exact B.
      * exists (k + 1). split; [lia |]. rewrite Hc. subst c1. unfold u32.
        rewrite Z.add_mod_idemp_l by lia. f_equal. lia.
    + injection H as <- <-. repeat split; try assumption.
      * intros j Hj. subst m2. rewrite idx_upd_other by lia.
        subst m1. apply idx_store32_low; lia.
      * exists 1. split; [lia | reflexivity].
Qed.

End TransmitterFacts.

Lemma precedes_app {A : Type} (P Q : A -> bool) (l r : list A) :
  forallb (fun a => negb (Q a)) l = true ->
  forallb (fun b => negb (P b)) r = true ->
  precedes P Q (l ++ r).
Proof.
  intros Hl Hr i j a b Hi Pa Hj Qb.
  rewrite forallb_forall in Hl, Hr.
  assert (Li : (i < length l)%nat).
  { destruct (Nat.lt_ge_cases i (length l)) as [L | L]; [exact L |].
    rewrite nth_error_app2 in Hi by exact L.
    apply nth_error_In, Hr in Hi. rewrite Pa in Hi. discriminate. }
  assert (Lj : (length l <= j)%nat).
  { destruct (Nat.lt_ge_cases j (length l)) as [L | L]; [| exact L].
    rewrite nth_error_app1 in Hj by exact L.
    apply nth_error_In, Hl in Hj. rewrite Qb in Hj. discriminate. }
  lia.
Qed.

Section TriggerOrder.
Import Transmitter.

Lemma burst_sends (mem : list Z) (cnt : Z) :
  forallb is_send (burst mem cnt) = true.
Proof.
  unfold burst. induction (upto 0 (Z.to_nat cnt)) as [| x l IH].
  - reflexivity.
  - cbn [flat_map]. rewrite forallb_app, IH, andb_true_r.
    unfold send_frame. cbn [forallb is_send andb].
    rewrite forallb_forall. intros ev Hin. apply in_map_iff in Hin.
    destruct Hin as [i [<- _]]. reflexivity.
Qed.

Lemma length_frames (mem : list Z) (l : list Z) :
  length (flat_map (fun _ => send_frame mem) l) = (7 * length l)%nat.
Proof.
  induction l as [| x l IH]; cbn [flat_map length].
  - reflexivity.
  - rewrite length_app, IH. unfold send_frame, upto.
    cbn [length]. rewrite !length_map, length_seq. lia.
Qed.

Lemma length_burst (mem : list Z) (cnt : Z) :
  length (burst mem cnt) = (7 * Z.to_nat cnt)%nat.
Proof.
  unfold burst. rewrite length_frames. unfold upto.
  now rewrite length_map, length_seq.
Qed.

Lemma filter_none {A : Type} (P Q : A -> bool) (l : list A) :
  (forall a, P a = true -> Q a = false) ->
  forallb P l = true -> filter Q l = [].
Proof.
  intros HPQ. induction l as [| a l IH]; cbn [forallb filter]; intros H.
  - reflexivity.
  - apply andb_true_iff in H as [Ha Hl]. rewrite (HPQ a Ha). now apply IH.
Qed.

Lemma filter_all {A : Type} (P : A -> bool) (l : list A) :
  forallb P l = true -> filter P l = l.
Proof.
  induction l as [| a l IH]; cbn [forallb filter]; intros H.
  - reflexivity.
  - apply andb_true_iff in H as [Ha Hl]. rewrite Ha. f_equal. now apply IH.
Qed.

Lemma valid_message_from_spec (n : nat) (data : ptr) :
  valid_message_from n data <> 0 ->
  forall j, 0 <= j < Z.of_nat n -> data j <> FRAME_MARK.
Proof.
  revert data. induction n as [| n IH]; intros data H j Hj.
  - lia.
  - cbn [valid_message_from] in H.
    destruct (Z.eqb_spec (data 0) FRAME_MARK) as [E | E]; [congruence |].
    destruct (Z.eq_dec j 0) as [-> | Hnz]; [exact E |].
    specialize (IH (fun i => data (i + 1)) H (j - 1)).
    cbv beta in IH. replace (j - 1 + 1) with j in IH by lia.
    apply IH. lia.
Qed.

Lemma on_trigger_trace (fuel : nat) (e : Blowfish.engine) (chan : Z)
    (code : Z) (mem : list Z) (code' : Z) (tr : list event) :
  on_trigger fuel e chan code mem = Some (code', tr) ->
  exists mem',
    form_message fuel e code (upd mem 5 chan) = Some (code', mem') /\
    tr = ([EvPower true] ++ burst mem' 16 ++ [EvPower false])
         ++ write_code code'.
Proof.
  unfold on_trigger, transmit_code. intros H.
  destruct (form_message fuel e code (upd mem 5 chan)) as [[c m] |];
    [| discriminate].
  injection H as <- <-. now exists m.
Qed.

End TriggerOrder.

(** C1 (not met by the code).  With rolling code 0, the sample key and
    the channel constant of the source, the transmitter stores the
    channel number in cell 5 and the checksum in cell 6, one past the
    end of [data[6]]; cell 4 is never written.  The six bytes sent are
    the cipher block, the stale byte and the channel number; the
    receiver's checksum test fails on them and its channel field reads
    the stale byte. *)
Theorem C1_transmitter_layout_off_by_one :
  exists code mem tr,
    Transmitter.transmit_code 4 sample_engine Transmitter.CHAN_NUM 0 1
      stale_locals = Some (code, mem, tr) /\
    code = 1 /\
    tr = [Transmitter.EvPower true; Transmitter.EvSend Transmitter.FRAME_MARK]
         ++ map Transmitter.EvSend (firstn 6 mem)
         ++ [Transmitter.EvPower false] /\
    firstn 4 mem
      = map (byte_of (Blowfish.blowfish_encrypt sample_engine code))
            (upto 0 4) /\
    idx mem 4 = idx stale_locals 4 /\
    idx mem 4 <> Transmitter.CHAN_NUM /\
    idx mem 5 = Transmitter.CHAN_NUM /\
    idx mem 5 <> Crc.crc_ccitt (of_array mem) 5 /\
    idx mem 6 = Crc.crc_ccitt (of_array mem) 5 /\
    idx mem 6 <> idx stale_locals 6 /\
    Transmitter.DATA_LEN <= 6 /\
    Receiver.frame_ok (firstn 6 mem) = false /\
    idx (firstn 6 mem) 4 mod Receiver.MAX_CHANS = 5.
Proof.
  eexists _, _, _. split; [vm_compute; reflexivity |].
  repeat split; try (vm_compute; congruence).
Qed.

(** The same layout for every key, code and channel: whenever
    [transmit_code] returns, cell 4 still holds what it held on entry
    and cell 5 holds the channel number. *)
Lemma transmit_code_layout (fuel : nat) (e : Blowfish.engine)
    (chan code cnt : Z) (mem : list Z) (code' : Z) (mem' : list Z)
    (tr : list Transmitter.event) :
  length mem = 7%nat ->
  Transmitter.transmit_code fuel e chan code cnt mem = Some (code', mem', tr)
  -> idx mem' 4 = idx mem 4 /\ idx mem' 5 = chan.
Proof.
  intros Hl H. unfold Transmitter.transmit_code in H.
  destruct (Transmitter.form_message fuel e code (upd mem 5 chan))
    as [[c m] |] eqn:E; [| discriminate].
  injection H as <- <- <-.
  apply form_message_cells in E; [| now rewrite length_upd].
  destruct E as (_ & _ & H4 & H5 & _).
  rewrite H4, H5. split.
  - apply idx_upd_other; lia.
  - apply idx_upd_same. rewrite Hl. simpl. lia.
Qed.

(** C2 as stated fails: in the run from rolling code 0 the bytes are on
    the air before the EEPROM is written. *)
Lemma C2_persist_first_counterexample :
  exists code tr,
    Transmitter.on_trigger 4 sample_engine Transmitter.CHAN_NUM 0 stale_locals
      = Some (code, tr) /\
    ~ persisted_before_sent code tr.
Proof.
  eexists _, _. split; [vm_compute; reflexivity |].
  intros [_ H].
  specialize (H 114%nat 1%nat (Transmitter.EvEepromWrite 0 1)
                (Transmitter.EvSend Transmitter.FRAME_MARK)
                eq_refl eq_refl eq_refl eq_refl).
  lia.
Qed.

(** The effects of a completed trigger, spelt out from the six cells
    that are sent. *)
Lemma trigger_trace_shape (mem' : list Z) (code' b0 b1 b2 b3 b4 b5 : Z) :
  idx mem' 0 = b0 -> idx mem' 1 = b1 -> idx mem' 2 = b2 ->
  idx mem' 3 = b3 -> idx mem' 4 = b4 -> idx mem' 5 = b5 ->
  ([Transmitter.EvPower true] ++ Transmitter.burst mem' 16
     ++ [Transmitter.EvPower false]) ++ Transmitter.write_code code' =
  [Transmitter.EvPower true]
  ++ concat (repeat (map Transmitter.EvSend
                       [Transmitter.FRAME_MARK; b0; b1; b2; b3; b4; b5])
               16)
  ++ [Transmitter.EvPower false]
  ++ [Transmitter.EvEepromWrite 0 (byte_of code' 0);
      Transmitter.EvEepromWrite 1 (byte_of code' 1);
      Transmitter.EvEepromWrite 2 (byte_of code' 2);
      Transmitter.EvEepromWrite 3 (byte_of code' 3)].
Proof. intros <- <- <- <- <- <-. reflexivity. Qed.

(** C2 (amended).  Whenever the trigger handler completes, its external
    effects are, in this order: the radio is powered, the frame marker
    followed by the six frame bytes is handed to the radio, 16 times
    over, the radio is switched off, and only then the four bytes of the
    new code are written to the EEPROM.  The six frame bytes are the
    cipher block of the new code in native byte order, the byte cell 4
    held on entry and the channel constant, and none of them is the
    marker.  So all 112 bytes of the burst have been handed to the
    radio before the first of the four EEPROM writes of the new code;
    the new code is the old one advanced by at least one. *)
Theorem C2_sent_before_persisted (fuel : nat) (e : Blowfish.engine)
    (chan code : Z) (mem : list Z) (code' : Z)
    (tr : list Transmitter.event) :
  length mem = 7%nat ->
  Transmitter.on_trigger fuel e chan code mem = Some (code', tr) ->
  sent_before_persisted code' tr /\
  tr = [Transmitter.EvPower true]
       ++ concat
            (repeat
               (map Transmitter.EvSend
                  [Transmitter.FRAME_MARK;
                   byte_of (Blowfish.blowfish_encrypt e code') 0;
                   byte_of (Blowfish.blowfish_encrypt e code') 1;
                   byte_of (Blowfish.blowfish_encrypt e code') 2;
                   byte_of (Blowfish.blowfish_encrypt e code') 3;
                   idx mem 4; chan])
               16)
       ++ [Transmitter.EvPower false]
       ++ [Transmitter.EvEepromWrite 0 (byte_of code' 0);
           Transmitter.EvEepromWrite 1 (byte_of code' 1);
           Transmitter.EvEepromWrite 2 (byte_of code' 2);
           Transmitter.EvEepromWrite 3 (byte_of code' 3)] /\
  ~ In Transmitter.FRAME_MARK
       [byte_of (Blowfish.blowfish_encrypt e code') 0;
        byte_of (Blowfish.blowfish_encrypt e code') 1;
        byte_of (Blowfish.blowfish_encrypt e code') 2;
        byte_of (Blowfish.blowfish_encrypt e code') 3;
        idx mem 4; chan] /\
  filter Transmitter.is_write tr = Transmitter.write_code code' /\
  length (filter Transmitter.is_send tr) = 112%nat /\
  (forall j, 0 <= j < 4 ->
     In (Transmitter.EvSend
           (byte_of (Blowfish.blowfish_encrypt e code') j)) tr) /\
  ~ In (Transmitter.EvSend Transmitter.FRAME_MARK)
       (skipn 2 (firstn 8 tr)) /\
  exists k, 1 <= k <= Z.of_nat fuel /\ code' = u32 (code + k).
Proof.
  intros Hl H. apply on_trigger_trace in H as (mem' & Hf & ->).
  apply form_message_cells in Hf; [| now rewrite length_upd].
  destruct Hf as (Hl' & Hblock & H4 & H5 & Hvalid & Hk).
  rewrite idx_upd_other in H4 by lia.
  rewrite idx_upd_same in H5 by (rewrite Hl; simpl; lia).
  pose proof (burst_sends mem' 16) as Hb.
  pose proof (valid_message_from_spec 6 (of_array mem') Hvalid) as Hm.
  unfold of_array in Hm.
  assert (Hw : forallb Transmitter.is_write (Transmitter.write_code code')
               = true) by reflexivity.
  assert (NI : ~ In Transmitter.FRAME_MARK
                    [idx mem' 0; idx mem' 1; idx mem' 2; idx mem' 3;
                     idx mem' 4; idx mem' 5]).
  { cbn [In]. intros [C | [C | [C | [C | [C | [C | []]]]]]];
      revert C; apply Hm; simpl; lia. }
  split; [| split; [| split; [| split; [| split; [| split; [| split]]]]]].
  - split.
    + apply incl_appr, incl_refl.
    + apply precedes_app.
      * cbn [app forallb Transmitter.is_write negb andb].
        rewrite forallb_app. cbn [forallb Transmitter.is_write negb andb].
        rewrite andb_true_r. rewrite forallb_forall in Hb |- *.
        intros ev Hin. apply Hb in Hin. now destruct ev.
      * reflexivity.
  - apply trigger_trace_shape.
    + apply Hblock. lia.
    + apply Hblock. lia.
    + apply Hblock. lia.
    + apply Hblock. lia.
    + exact H4.
    + exact H5.
  - rewrite (Hblock 0), (Hblock 1), (Hblock 2), (Hblock 3), H4, H5 in NI
      by lia.
    exact NI.
  - rewrite !filter_app. cbn [filter Transmitter.is_write app].
    rewrite (filter_none Transmitter.is_send) by
      (assumption || (intros []; simpl; congruence)).
    cbn [app]. now apply filter_all.
  - rewrite !filter_app. cbn [filter Transmitter.is_send app].
    rewrite (filter_all _ _ Hb).
    rewrite (filter_none Transmitter.is_write) by
      (assumption || (intros []; simpl; congruence)).
    rewrite app_nil_r, app_nil_r. apply length_burst.
  - intros j Hj. apply in_or_app. left. cbn [app]. right.
    apply in_or_app. left. rewrite <- (Hblock j Hj).
    unfold Transmitter.burst. change (upto 0 (Z.to_nat 16)) with
      (0 :: upto 1 15). cbn [flat_map]. apply in_or_app. left.
    unfold Transmitter.send_frame. right.
    apply in_map_iff. exists j. split; [reflexivity |].
    unfold upto. apply in_map_iff. exists (Z.to_nat j). split; [lia |].
    apply in_seq. lia.
  - unfold Transmitter.burst. change (upto 0 (Z.to_nat 16)) with
      (0 :: upto 1 15). cbn [flat_map app Transmitter.send_frame].
    change (upto 0 6) with [0; 1; 2; 3; 4; 5].
    cbn [map app firstn skipn]. cbn [In].
    intros [C | [C | [C | [C | [C | [C | []]]]]]]; injection C as C;
      revert C; apply Hm; simpl; lia.
  - exact Hk.
Qed.

Lemma C2_sent_before_persisted_witness :
  length stale_locals = 7%nat /\
  exists tr,
    Transmitter.on_trigger 4 sample_engine Transmitter.CHAN_NUM 0 stale_locals
      = Some (1, tr) /\
    sent_before_persisted 1 tr /\
    firstn 8 tr =
      [Transmitter.EvPower true] ++
      map Transmitter.EvSend [0x96; 0x15; 0x52; 0x1B; 0xB1; 0x55; 0x00] /\
    skipn 114 tr =
      [Transmitter.EvEepromWrite 0 1; Transmitter.EvEepromWrite 1 0;
       Transmitter.EvEepromWrite 2 0; Transmitter.EvEepromWrite 3 0].
Proof.
  split; [reflexivity |].
  eexists. split; [vm_compute; reflexivity |].
  split; [| split; vm_compute; reflexivity].
  refine (proj1 (C2_sent_before_persisted 4 sample_engine Transmitter.CHAN_NUM
                   0 stale_locals 1 _ eq_refl _)).
  vm_compute. reflexivity.
Defined.

(** ** The key schedule *)

Lemma join_add (h l : Z) :
  is_u16 h -> is_u16 l -> Z.lor (Z.shiftl h 16) l = h * 2 ^ 16 + l.
Proof.
  intros Hh Hl. rewrite <- Z.shiftl_mul_pow2 by lia.
  rewrite <- Z.lxor_lor, <- Z.add_nocarry_lxor; try reflexivity.
  all: apply Z.bits_inj'; intros k Hk; rewrite Z.land_spec, Z.bits_0;
    destruct (Z.lt_ge_cases k 16) as [L | L].
  all: try (rewrite Z.shiftl_spec_low by assumption; reflexivity).
  all: rewrite andb_comm; replace (Z.testbit l k) with false;
    [reflexivity |]; symmetry; unfold is_u16 in Hl;
    destruct (Z.eq_dec l 0) as [-> | Hnz]; [apply Z.bits_0 |];
    apply Z.bits_above_log2; [lia |];
    assert (Z.log2 l < 16) by (apply Z.log2_lt_pow2; lia); lia.
Qed.

Lemma is_u32_encrypt (e : Blowfish.engine) (x : Z) :
  Blowfish.valid_key e -> is_u32 (Blowfish.blowfish_encrypt e x).
Proof.
  intros He. unfold Blowfish.blowfish_encrypt.
  pose proof (halves_encrypt_rounds e He (upto 0 16)
                (BIT16_HI x, BIT16_LO x)) as Hr.
  destruct (fold_left (Blowfish.encrypt_round e) (upto 0 16)
              (BIT16_HI x, BIT16_LO x)) as [a b].
  destruct Hr as [Ha Hb];
    [split; [apply is_u16_BIT16_HI | apply is_u16_BIT16_LO] |].
  simpl in Ha, Hb. rewrite SWAP_pair. cbv beta iota zeta.
  assert (H16 : is_u16 (Z.lxor b (idx (Blowfish._key_p e) 16)))
    by (apply is_u16_lxor; [assumption | now apply is_u16_key_p]).
  assert (H17 : is_u16 (Z.lxor a (idx (Blowfish._key_p e) 17)))
    by (apply is_u16_lxor; [assumption | now apply is_u16_key_p]).
  rewrite join_add by assumption. unfold is_u16, is_u32 in *.
  change (2 ^ 32) with (2 ^ 16 * 2 ^ 16). nia.
Qed.

Lemma u32_s32 (x : Z) : u32 (s32 x) = u32 x.
Proof.
  unfold s32, u32. destruct (x mod 2 ^ 32 <? 2 ^ 31).
  - apply Z.mod_mod. lia.
  - rewrite <- Zminus_mod_idemp_r, Z.mod_same, Z.sub_0_r by lia.
    apply Z.mod_mod. lia.
Qed.

Lemma BIT16_HI_u32 (x : Z) : BIT16_HI x = u32 x / 2 ^ 16.
Proof.
  unfold BIT16_HI, u32. change 0xFFFF with (Z.ones 16).
  rewrite Z.land_ones, Z.shiftr_div_pow2 by lia.
  change (2 ^ 32) with (2 ^ 16 * 2 ^ 16).
  rewrite Z.rem_mul_r by lia.
  rewrite Z.mul_comm, Z.div_add by lia.
  rewrite (Z.div_small (x mod 2 ^ 16)) by (apply Z.mod_pos_bound; lia).
  reflexivity.
Qed.

Lemma BIT16_LO_u32 (x : Z) : BIT16_LO x = u32 x mod 2 ^ 16.
Proof.
  unfold BIT16_LO, u32. change 0xFFFF with (Z.ones 16).
  rewrite Z.land_ones, Z.shiftr_0_r by lia.
  change (2 ^ 32) with (2 ^ 16 * 2 ^ 16).
  rewrite Z.rem_mul_r by lia.
  rewrite Z.mul_comm, Z.mod_add by lia. now rewrite Z.mod_mod by lia.
Qed.

Lemma words_s32 (x : Z) :
  [BIT16_HI (s32 x); BIT16_LO (s32 x)] = KeyGen.words x.
Proof.
  unfold KeyGen.words.
  now rewrite (BIT16_HI_u32 (s32 x)), (BIT16_LO_u32 (s32 x)), u32_s32,
    <- BIT16_HI_u32, <- BIT16_LO_u32.
Qed.

Lemma Forall_upd (P : Z -> Prop) (m : list Z) (i v : Z) :
  P v -> Forall P m -> Forall P (upd m i v).
Proof.
  intros Hv. unfold upd. generalize (Z.to_nat i) as n.
  induction m as [| h t IH]; intros [| n] H; simpl; auto;
    inversion H; subst; constructor; auto.
Qed.

(** Storing two words right behind a prefix. *)
Lemma upd_pair_app (W R' : list Z) (r0 r1 a b : Z) (k : Z) :
  k = Z.of_nat (length W) ->
  upd (upd (W ++ r0 :: r1 :: R') k a) (k + 1) b = W ++ a :: b :: R'.
Proof.
  intros ->. unfold upd.
  replace (Z.to_nat (Z.of_nat (length W) + 1)) with (S (length W)) by lia.
  rewrite Nat2Z.id. induction W as [| w W IH]; simpl.
  - reflexivity.
  - now rewrite IH.
Qed.

Lemma skipn_two (F : list Z) (k : nat) :
  (k + 2 <= length F)%nat ->
  exists r0 r1, skipn k F = r0 :: r1 :: skipn (k + 2) F.
Proof.
  intros H. rewrite Nat.add_comm, <- skipn_skipn.
  pose proof (length_skipn k F) as L.
  destruct (skipn k F) as [| r0 [| r1 R]]; simpl in L; try lia.
  now exists r0, r1.
Qed.

Section Schedule.
Import KeyGen.

Lemma valid_sizes (g : globals) : valid_globals g -> sizes g.
Proof.
  intros (K & P & S1 & S2 & S3 & S4). unfold sizes, table in *. tauto.
Qed.

Lemma fold_left_table (t : table_id) (l : list Z) (st : kstate) :
  fold_left (fun st ti => fill_pair (fst ti) st (snd ti)) (map (pair t) l) st
  = fold_left (fill_pair t) l st.
Proof.
  revert st. induction l as [| i l IH]; intros st; cbn [map fold_left].
  - reflexivity.
  - apply IH.
Qed.

Lemma fold_left_four {A B : Type} (f : A -> B -> A) (a b c d : B) (x : A) :
  fold_left f [a; b; c; d] x = f (f (f (f x a) b) c) d.
Proof. reflexivity. Qed.

Lemma keygen_as_schedule (g : globals) :
  blowfish_keygen g =
    fold_left (fun st ti => fill_pair (fst ti) st (snd ti)) schedule
              (mk_kstate (xor_key g) 0 []).
Proof.
  unfold blowfish_keygen, schedule. cbv zeta.
  rewrite !fold_left_app, !fold_left_table.
  change (upto 0 4) with [0; 1; 2; 3]. rewrite fold_left_four.
  change (arr_sx 0) with TS1. change (arr_sx 1) with TS2.
  change (arr_sx 2) with TS3. change (arr_sx 3) with TS4.
  reflexivity.
Qed.

Lemma xor_key_spec (g : globals) :
  sizes g ->
  xor_key g =
    mk_globals (arr_key g)
      (map (fun i => Z.lxor (idx (arr_p g) i) (idx (arr_key g) i))
           (upto 0 18))
      (arr_s1 g) (arr_s2 g) (arr_s3 g) (arr_s4 g).
Proof.
  destruct g as [k p s1 s2 s3 s4]. unfold sizes. cbn [arr_key arr_p].
  intros (K & P & _). explode k. explode p. reflexivity.
Qed.

Lemma valid_xor_key (g : globals) :
  valid_globals g -> valid_globals (xor_key g).
Proof.
  intros V. rewrite xor_key_spec by now apply valid_sizes.
  destruct V as (K & P & S). unfold valid_globals.
  cbn [arr_key arr_p arr_s1 arr_s2 arr_s3 arr_s4].
  split; [exact K |]. split; [| exact S].
  split.
  - unfold upto. now rewrite !length_map, length_seq.
  - apply Forall_forall. intros x Hin. apply in_map_iff in Hin.
    destruct Hin as [i [<- _]].
    apply is_u16_lxor; apply is_u16_idx; [apply P | apply K].
Qed.

Lemma length_flat (g : globals) : sizes g -> length (flat g) = 82%nat.
Proof.
  intros (_ & P & S1 & S2 & S3 & S4). unfold flat.
  rewrite !length_app. lia.
Qed.

Lemma flat_fill (g : globals) (t : table_id) (i a b : Z) :
  sizes g -> 0 <= i ->
  i + 1 < (match t with TP => 18 | _ => 16 end) ->
  flat (set_table g t (upd (upd (get_table g t) (i + 0) a) (i + 1) b)) =
    upd (upd (flat g) (offset t + i) a) (offset t + i + 1) b.
Proof.
  destruct g as [k p s1 s2 s3 s4]. unfold sizes.
  cbn [arr_key arr_p arr_s1 arr_s2 arr_s3 arr_s4].
  intros (_ & P & S1 & S2 & S3 & S4) Hi Hb.
  explode p. explode s1. explode s2. explode s3. explode s4.
  assert (C : i = 0 \/ i = 1 \/ i = 2 \/ i = 3 \/ i = 4 \/ i = 5 \/ i = 6 \/
              i = 7 \/ i = 8 \/ i = 9 \/ i = 10 \/ i = 11 \/ i = 12 \/
              i = 13 \/ i = 14 \/ i = 15 \/ i = 16) by (destruct t; lia).
  destruct t;
    repeat (destruct C as [-> | C]; [try lia; reflexivity |]);
    subst i; try lia; reflexivity.
Qed.

Lemma valid_fill (g : globals) (t : table_id) (i a b : Z) :
  valid_globals g -> is_u16 a -> is_u16 b ->
  valid_globals
    (set_table g t (upd (upd (get_table g t) (i + 0) a) (i + 1) b)).
Proof.
  intros (K & P & S1 & S2 & S3 & S4) Ha Hb.
  assert (T : forall n tb, table n tb ->
                table n (upd (upd tb (i + 0) a) (i + 1) b)).
  { intros n tb [L F]. split.
    - now rewrite !length_upd.
    - now repeat apply Forall_upd. }
  destruct t; unfold valid_globals;
    cbn [set_table get_table arr_key arr_p arr_s1 arr_s2 arr_s3 arr_s4];
    (split; [| split; [| split; [| split; [| split]]]]);
    first [assumption | apply T; assumption].
Qed.

Lemma valid_loaded (g : globals) :
  valid_globals g -> Blowfish.valid_key (loaded g).
Proof.
  intros (_ & P & S1 & S2 & S3 & S4). unfold Blowfish.valid_key, loaded.
  cbn [Blowfish.blowfish_setkeys Blowfish._key_p Blowfish._key_s1
       Blowfish._key_s2 Blowfish._key_s3 Blowfish._key_s4].
  repeat split; try apply P; try apply S1; try apply S2;
    try apply S3; try apply S4.
Qed.

Lemma is_u32_private_encrypt (g : globals) (x : Z) :
  valid_globals g -> is_u32 (blowfish_encrypt g x).
Proof.
  intros V. rewrite encrypt_private_copy.
  apply is_u32_encrypt. now apply valid_loaded.
Qed.

Lemma last_nonempty {A : Type} (a : A) (l : list A) (d1 d2 : A) :
  last (a :: l) d1 = last (a :: l) d2.
Proof.
  revert a. induction l as [| b l IH]; intros a; [reflexivity |].
  change (last (b :: l) d1 = last (b :: l) d2). apply IH.
Qed.

Lemma chained_snoc (x : Z) (cs : list call) (c : call) :
  chained x cs ->
  call_in c = last (map call_out cs) x ->
  call_out c = blowfish_encrypt (call_tables c) (call_in c) ->
  chained x (cs ++ [c]).
Proof.
  revert x. induction cs as [| d cs IH]; intros x H Hin Hout.
  - cbn [app chained map last] in *. rewrite <- Hin.
    split; [reflexivity |]. split; [exact Hout | exact I].
  - destruct H as (Hd & Ho & Hc). cbn [app chained].
    split; [exact Hd |]. split; [exact Ho |].
    apply IH; [exact Hc | | exact Hout].
    rewrite Hin. cbn [map].
    destruct (map call_out cs) as [| z l]; [reflexivity |].
    change (last (z :: l) x = last (z :: l) (call_out d)).
    apply last_nonempty.
Qed.

Lemma length_words (os : list Z) :
  length (flat_map words os) = (2 * length os)%nat.
Proof. induction os as [| o os IH]; simpl; lia. Qed.

End Schedule.

Section ScheduleInvariant.
Import KeyGen.

(** The 82 words as they stand when the filling starts. *)
Variable F : list Z.
Hypothesis F_len : length F = 82%nat.

Lemma Inv_fill (t : table_id) (i : Z) (st : kstate) :
  Inv F st ->
  offset t + i = 2 * Z.of_nat (length (calls st)) ->
  0 <= i -> i + 1 < (match t with TP => 18 | _ => 16 end) ->
  Inv F (fill_pair t st i).
Proof.
  intros [V C B Fl S] Hoff Hi Hb. unfold fill_pair. cbv zeta.
  set (g := tables st) in *. set (arg := u32 (block st)) in *.
  set (out := blowfish_encrypt g arg).
  assert (Ho : is_u32 out) by (apply is_u32_private_encrypt; exact V).
  assert (Hn : (2 * length (calls st) + 2 <= length F)%nat).
  { rewrite F_len. destruct t; unfold offset in Hoff;
      cbv beta iota in Hoff, Hb; lia. }
  constructor; cbn [tables block calls].
  - apply valid_fill; [exact V | apply is_u16_BIT16_HI | apply is_u16_BIT16_LO].
  - apply chained_snoc; [exact C | exact B |].
    cbn [call_out call_tables call_in]. reflexivity.
  - rewrite u32_s32, map_app. cbn [map]. rewrite last_last.
    cbn [call_out]. unfold u32. apply Z.mod_small. exact Ho.
  - rewrite flat_fill by (try apply valid_sizes; assumption).
    rewrite Fl. destruct (skipn_two F _ Hn) as (r0 & r1 & ->).
    rewrite upd_pair_app by (rewrite length_words, length_map; lia).
    rewrite map_app, flat_map_app, <- app_assoc. f_equal.
    cbn [map flat_map call_out app]. rewrite <- words_s32.
    cbn [app]. do 2 f_equal. f_equal. rewrite length_app. simpl. lia.
  - intros k c Hk.
    destruct (Nat.lt_ge_cases k (length (calls st))) as [L | L].
    + rewrite nth_error_app1 in Hk by exact L.
      rewrite firstn_app.
      replace (k - length (calls st))%nat with 0%nat by lia.
      cbn [firstn]. rewrite app_nil_r. now apply S.
    + rewrite nth_error_app2 in Hk by exact L.
      destruct (k - length (calls st))%nat as [| m] eqn:E.
      * cbn [nth_error] in Hk. injection Hk as <-. cbn [call_tables].
        assert (k = length (calls st)) as -> by lia.
        rewrite firstn_app, Nat.sub_diag, firstn_all. cbn [firstn].
        rewrite app_nil_r. exact Fl.
      * cbn [nth_error] in Hk. destruct m; discriminate.
Qed.

Lemma Inv_schedule (l : list (table_id * Z)) (st : kstate) :
  aligned (length (calls st)) l = true -> Inv F st ->
  let st' := fold_left (fun st ti => fill_pair (fst ti) st (snd ti)) l st in
  Inv F st' /\ length (calls st') = (length (calls st) + length l)%nat.
Proof.
  revert st. induction l as [| [t i] l IH]; intros st A I.
  - cbn [fold_left length]. split; [exact I | lia].
  - cbn [aligned] in A. apply andb_true_iff in A as [A Ar].
    apply andb_true_iff in A as [A Ab]. apply andb_true_iff in A as [Ao Ai].
    apply Z.eqb_eq in Ao. apply Z.leb_le in Ai. apply Z.ltb_lt in Ab.
    cbn [fold_left fst snd].
    assert (L : length (calls (fill_pair t st i)) = S (length (calls st))).
    { unfold fill_pair. cbn [calls]. rewrite length_app. simpl. lia. }
    destruct (IH (fill_pair t st i)) as [I' L'].
    + rewrite L. exact Ar.
    + now apply Inv_fill.
    + split; [exact I' |]. rewrite L', L. simpl. lia.
Qed.

End ScheduleInvariant.

(** C6 as stated fails on the count: the schedule runs 41 encryptions,
    not 37 (here for the all-zero seed). *)
Lemma C6_count_37_counterexample :
  length (KeyGen.calls
            (KeyGen.blowfish_keygen (KeyGen.globals0 (repeat 0 18%nat))))
  <> 37%nat.
Proof. vm_compute. discriminate. Qed.

(** C6 (amended).  After the seed words are XORed word for word into
    the 18-word P table, the derivation performs exactly 41
    encryptions (9 for P, 8 for each of S1..S4).  They form a feedback
    chain that starts at block zero, each run on the tables as filled so
    far; the k-th call sees the words of the k earlier results (high
    half, then low half) in the first 2k of the 82 positions P, S1, S2,
    S3, S4 and the XORed initial words in the others, and at the end all
    82 words are the results' halves in order. *)
Theorem C6_key_schedule (g : KeyGen.globals) :
  KeyGen.valid_globals g ->
  let gx := KeyGen.xor_key g in
  let st := KeyGen.blowfish_keygen g in
  let cs := KeyGen.calls st in
  KeyGen.arr_p gx =
    map (fun i => Z.lxor (idx (KeyGen.arr_p g) i) (idx (KeyGen.arr_key g) i))
        (upto 0 18) /\
  length cs = 41%nat /\
  KeyGen.chained 0 cs /\
  (forall k c, nth_error cs k = Some c ->
     KeyGen.flat (KeyGen.call_tables c) =
       flat_map KeyGen.words (map KeyGen.call_out (firstn k cs))
       ++ skipn (2 * k) (KeyGen.flat gx)) /\
  KeyGen.flat (KeyGen.tables st) =
    flat_map KeyGen.words (map KeyGen.call_out cs).
Proof.
  intros V. cbv zeta. rewrite keygen_as_schedule.
  assert (Vx : KeyGen.valid_globals (KeyGen.xor_key g))
    by (apply valid_xor_key; exact V).
  assert (Lx : length (KeyGen.flat (KeyGen.xor_key g)) = 82%nat)
    by (apply length_flat, valid_sizes; exact Vx).
  assert (I0 : Inv (KeyGen.flat (KeyGen.xor_key g))
                 (KeyGen.mk_kstate (KeyGen.xor_key g) 0 [])).
  { constructor; cbn [KeyGen.tables KeyGen.block KeyGen.calls].
    - exact Vx.
    - exact I.
    - reflexivity.
    - cbn [map flat_map app length Nat.mul Nat.add skipn]. reflexivity.
    - intros [| k] c H; discriminate. }
  assert (A : aligned 0 schedule = true) by (vm_compute; reflexivity).
  assert (N : length schedule = 41%nat) by (vm_compute; reflexivity).
  pose proof (Inv_schedule (KeyGen.flat (KeyGen.xor_key g)) Lx schedule
                (KeyGen.mk_kstate (KeyGen.xor_key g) 0 [])) as H.
  cbn [KeyGen.calls length] in H. specialize (H A I0). cbv zeta in H.
  set (st := fold_left _ schedule _) in *.
  destruct H as [[_ C _ Fl S] L].
  rewrite N in L. cbn [Nat.add] in L.
  split; [| split; [exact L | split; [exact C | split; [exact S |]]]].
  - rewrite xor_key_spec by (apply valid_sizes; exact V). reflexivity.
  - rewrite Fl, L. change (2 * 41)%nat with 82%nat.
    rewrite <- Lx, skipn_all. apply app_nil_r.
Qed.

Lemma valid_globals0 : KeyGen.valid_globals (KeyGen.globals0 (repeat 0 18%nat)).
Proof.
  unfold KeyGen.valid_globals, KeyGen.table, KeyGen.globals0.
  cbn [KeyGen.arr_key KeyGen.arr_p KeyGen.arr_s1 KeyGen.arr_s2 KeyGen.arr_s3
       KeyGen.arr_s4].
  repeat split; try reflexivity;
    repeat (apply Forall_cons; [unfold is_u16; lia |]); apply Forall_nil.
Qed.

Lemma C6_key_schedule_witness :
  KeyGen.valid_globals (KeyGen.globals0 (repeat 0 18%nat)) /\
  length (KeyGen.calls
            (KeyGen.blowfish_keygen (KeyGen.globals0 (repeat 0 18%nat))))
  = 41%nat.
Proof.
  split; [exact valid_globals0 |].
  exact (proj1 (proj2 (C6_key_schedule _ valid_globals0))).
Defined.

(** ** Seed ingestion *)

Section SeedIngestion.
Import KeyGen.

Lemma xor_digit_store (dig : Z -> Z) :
  xor_digit dig = store_with xor_byte dig.
Proof. reflexivity. Qed.

(** 72 digits fill the 36 zeroed bytes, two digits to a byte. *)
Lemma pack72_with (f : Z -> Z -> Z -> Z) (dig : Z -> Z) :
  fold_left (store_with f dig) (upto 0 72) (repeat 0 36%nat) =
  map (fun k => f (f 0 (dig (2 * k)) 4) (dig (2 * k + 1)) 0) (upto 0 36).
Proof. vm_compute. reflexivity. Qed.

Lemma nibble_range (a : Z) :
  0 <= a < 16 ->
  a = 0 \/ a = 1 \/ a = 2 \/ a = 3 \/ a = 4 \/ a = 5 \/ a = 6 \/ a = 7 \/
  a = 8 \/ a = 9 \/ a = 10 \/ a = 11 \/ a = 12 \/ a = 13 \/ a = 14 \/ a = 15.
Proof. lia. Qed.

Lemma xor_byte_pair (a b : Z) :
  0 <= a < 16 -> 0 <= b < 16 ->
  xor_byte (xor_byte 0 a 4) b 0 = 16 * a + b.
Proof.
  intros Ha Hb. apply nibble_range in Ha, Hb.
  repeat (destruct Ha as [-> | Ha]);
    repeat (destruct Hb as [-> | Hb]); subst; reflexivity.
Qed.

Lemma HEX2BIN_range (x : Z) : isxdigit x = true -> 0 <= HEX2BIN x < 16.
Proof.
  unfold isxdigit, HEX2BIN, isalpha, tolower, isupper, islower, isdigit.
  intros H. split_leb; cbn [andb orb] in *; try discriminate; lia.
Qed.

Lemma fold_left_andb {A : Type} (P : A -> bool) (l : list A) (b : bool) :
  fold_left (fun ok i => ok && P i) l b = b && forallb P l.
Proof.
  revert b. induction l as [| a l IH]; intros b; cbn [fold_left forallb].
  - now rewrite andb_true_r.
  - rewrite IH. now rewrite andb_assoc.
Qed.

Lemma fold_left_ext_in {A B : Type} (f g : A -> B -> A) (l : list B) (a : A) :
  (forall a x, In x l -> f a x = g a x) ->
  fold_left f l a = fold_left g l a.
Proof.
  revert a. induction l as [| x l IH]; intros a H; cbn [fold_left].
  - reflexivity.
  - rewrite H by now left. apply IH. intros a' y Hy. apply H. now right.
Qed.

Lemma upto_S (n : nat) : upto 0 (S n) = upto 0 n ++ [Z.of_nat n].
Proof.
  unfold upto. rewrite seq_S, map_app. reflexivity.
Qed.

Lemma In_upto (n : nat) (i : Z) : In i (upto 0 n) <-> 0 <= i < Z.of_nat n.
Proof.
  unfold upto. rewrite in_map_iff. split.
  - intros [k [<- Hk]]. apply in_seq in Hk. lia.
  - intros H. exists (Z.to_nat i). split; [lia |]. apply in_seq. lia.
Qed.

Lemma idx_map_upto (f : Z -> Z) (n : nat) (k : Z) :
  0 <= k < Z.of_nat n -> idx (map f (upto 0 n)) k = f k.
Proof.
  intros Hk. unfold idx, upto. rewrite map_map.
  set (h := fun j : nat => f (0 + Z.of_nat j)).
  rewrite nth_indep with (d' := h 0%nat)
    by (rewrite length_map, length_seq; lia).
  rewrite (map_nth h), seq_nth by lia. unfold h. f_equal. lia.
Qed.

Lemma length_xor_digits (dig : Z -> Z) (l : list Z) (buf : list Z) :
  length (fold_left (xor_digit dig) l buf) = length buf.
Proof.
  revert buf. induction l as [| i l IH]; intros buf; cbn [fold_left].
  - reflexivity.
  - rewrite IH. unfold xor_digit. apply length_upd.
Qed.

(** When a line is taken, it is not empty and all its characters are
    hexadecimal digits. *)
Lemma get_input_line_ok (line : list ascii) (buf : list Z) :
  get_input_line line = Some buf ->
  0 < Z.of_nat (length line) /\
  (forall i, 0 <= i < Z.of_nat (length line) ->
     isxdigit (char_at line i) = true) /\
  buf = fold_left
          (xor_digit (fun i => HEX2BIN
                        (char_at line (i mod Z.of_nat (length line)))))
          (upto 0 (Z.to_nat (MAX (Z.of_nat (length line)) (klen * 2))))
          (repeat 0 (Z.to_nat klen)).
Proof.
  unfold get_input_line. cbv zeta. rewrite fold_left_andb.
  destruct (Z.gtb_spec (Z.of_nat (length line)) 0) as [Hpos | Hneg];
    cbn [andb]; [| discriminate].
  destruct (forallb _ _) eqn:E; [| discriminate].
  intros H. injection H as <-. split; [lia |]. split; [| reflexivity].
  intros i Hi. rewrite forallb_forall in E. apply E. now apply In_upto.
Qed.

Lemma get_input_line_some (line : list ascii) :
  0 < Z.of_nat (length line) ->
  (forall i, 0 <= i < Z.of_nat (length line) ->
     isxdigit (char_at line i) = true) ->
  get_input_line line =
    Some (fold_left
            (xor_digit (fun i => HEX2BIN
                          (char_at line (i mod Z.of_nat (length line)))))
            (upto 0 (Z.to_nat (MAX (Z.of_nat (length line)) (klen * 2))))
            (repeat 0 (Z.to_nat klen))).
Proof.
  intros Hpos Hx. unfold get_input_line. cbv zeta. rewrite fold_left_andb.
  destruct (Z.gtb_spec (Z.of_nat (length line)) 0) as [_ | Hneg];
    [| lia]. cbn [andb].
  replace (forallb _ _) with true; [reflexivity |].
  symmetry. apply forallb_forall. intros i Hi. apply Hx. now apply In_upto.
Qed.

End SeedIngestion.

(** C7 as stated fails: the buffer has 36 bytes, not 72, and digit 74
    changes byte 37 mod 36 = 1, while byte 74 mod 72 = 2 keeps its
    value. *)
Lemma C7_buffer_72_counterexample :
  exists before after,
    KeyGen.get_input_line (firstn 74 long_seed) = Some before /\
    KeyGen.get_input_line long_seed = Some after /\
    length after <> 72%nat /\
    idx after (74 mod 72) = idx before (74 mod 72) /\
    idx after (74 mod 72)
      <> Z.lxor (idx before (74 mod 72))
                (Z.shiftl (KeyGen.HEX2BIN (KeyGen.char_at long_seed 74)) 4) /\
    idx after ((74 / 2) mod 36)
      = Z.lxor (idx before ((74 / 2) mod 36))
               (Z.shiftl (KeyGen.HEX2BIN (KeyGen.char_at long_seed 74)) 4).
Proof.
  eexists _, _. split; [vm_compute; reflexivity |].
  split; [vm_compute; reflexivity |].
  repeat split; vm_compute; congruence.
Qed.

(** C7 (amended).  A taken seed line leaves 36 bytes (18 words, 72
    hexadecimal digits) in [arr_key].  A line of at most 72 digits is
    repeated cyclically: byte [k] packs digits [2k] and [2k+1] of the
    repeated line, the first in the high nibble.  For a line of 72
    digits or more, one more digit, of index [i], is XORed into byte
    [(i / 2) mod 36], shifted left by 4 when [i] is even and by 0 when
    it is odd. *)
Theorem C7_seed_packing (line : list ascii) (buf : list Z) :
  KeyGen.get_input_line line = Some buf ->
  let clen := Z.of_nat (length line) in
  length buf = 36%nat /\
  (clen <= 72 ->
   forall k, 0 <= k < 36 ->
     idx buf k =
       16 * KeyGen.HEX2BIN (KeyGen.char_at line ((2 * k) mod clen))
       + KeyGen.HEX2BIN (KeyGen.char_at line ((2 * k + 1) mod clen))) /\
  (72 <= clen ->
   forall d, KeyGen.isxdigit (code d) = true ->
     KeyGen.get_input_line (line ++ [d]) =
       Some (upd buf ((clen / 2) mod 36)
               (u8 (Z.lxor (idx buf ((clen / 2) mod 36))
                      (Z.shiftl (KeyGen.HEX2BIN (code d))
                                (if clen mod 2 =? 0 then 4 else 0)))))).
Proof.
  intros H clen. apply get_input_line_ok in H as (Hpos & Hx & Hbuf).
  fold clen in Hpos, Hx, Hbuf.
  split; [| split].
  - rewrite Hbuf, length_xor_digits. reflexivity.
  - intros Hshort k Hk.
    assert (M : KeyGen.MAX clen (KeyGen.klen * 2) = 72).
    { unfold KeyGen.MAX, KeyGen.klen.
      destruct (Z.gtb_spec clen (36 * 2)); lia. }
    rewrite M in Hbuf. change (Z.to_nat 72) with 72%nat in Hbuf.
    change (Z.to_nat KeyGen.klen) with 36%nat in Hbuf.
    rewrite xor_digit_store, pack72_with in Hbuf. rewrite Hbuf.
    rewrite idx_map_upto by lia.
    apply xor_byte_pair; apply HEX2BIN_range, Hx, Z.mod_pos_bound; lia.
  - intros Hlong d Hd.
    assert (M : KeyGen.MAX clen (KeyGen.klen * 2) = clen).
    { unfold KeyGen.MAX, KeyGen.klen.
      destruct (Z.gtb_spec clen (36 * 2)); lia. }
    rewrite M in Hbuf. subst clen. rewrite Nat2Z.id in Hbuf.
    assert (L : length (line ++ [d]) = S (length line))
      by (rewrite length_app; simpl; lia).
    rewrite get_input_line_some.
    + f_equal. rewrite L.
      assert (M' : KeyGen.MAX (Z.of_nat (S (length line))) (KeyGen.klen * 2)
                   = Z.of_nat (S (length line))).
      { unfold KeyGen.MAX, KeyGen.klen.
        destruct (Z.gtb_spec (Z.of_nat (S (length line))) (36 * 2)); lia. }
      rewrite M', Nat2Z.id, upto_S, fold_left_app. cbn [fold_left].
      rewrite fold_left_ext_in with
        (g := KeyGen.xor_digit
                (fun i => KeyGen.HEX2BIN
                   (KeyGen.char_at line (i mod Z.of_nat (length line))))).
      * rewrite <- Hbuf. unfold KeyGen.xor_digit at 1. cbv zeta.
        change KeyGen.klen with 36. do 4 f_equal.
        rewrite Z.mod_small by lia. unfold KeyGen.char_at, code.
        rewrite Nat2Z.id, app_nth2, Nat.sub_diag by lia. reflexivity.
      * intros a i Hi. apply In_upto in Hi. unfold KeyGen.xor_digit.
        cbv zeta. do 5 f_equal. rewrite !Z.mod_small by lia.
        unfold KeyGen.char_at. rewrite app_nth1 by lia. reflexivity.
    + rewrite L. lia.
    + rewrite L. intros i Hi.
      destruct (Z.eq_dec i (Z.of_nat (length line))) as [-> | Hne].
      * unfold KeyGen.char_at.
        rewrite Nat2Z.id, app_nth2, Nat.sub_diag by lia. exact Hd.
      * unfold KeyGen.char_at. rewrite app_nth1 by lia.
        apply Hx. lia.
Qed.

Lemma C7_seed_packing_witness :
  exists buf,
    KeyGen.get_input_line
      ["5"; "7"; "3"; "B"; "E"; "1"; "5"; "A"]%char = Some buf /\
    length buf = 36%nat /\ idx buf 0 = 0x57 /\ idx buf 5 = 0x3B.
Proof.
  eexists. split; [vm_compute; reflexivity |].
  pose proof (C7_seed_packing ["5"; "7"; "3"; "B"; "E"; "1"; "5"; "A"]%char
                _ eq_refl) as H.
  split; [exact (proj1 H) |]. split; reflexivity.
Defined.

(** * Further properties of the code *)

(** ** The cipher as a permutation *)

Section Permutation.
Import Blowfish.
Variable e : engine.

Lemma encrypt_decrypt_round (hl : Z * Z) (i : Z) :
  encrypt_round e (decrypt_round e hl i) i = hl.
Proof.
  destruct hl as [h l]. unfold encrypt_round, decrypt_round.
  rewrite !SWAP_pair. now rewrite !lxor_cancel_r.
Qed.

Lemma encrypt_decrypt_rounds (ks : list Z) (hl : Z * Z) :
  fold_left (encrypt_round e) ks (fold_left (decrypt_round e) (rev ks) hl)
  = hl.
Proof.
  revert hl. induction ks as [| k ks IH]; intros hl; cbn [rev fold_left].
  - reflexivity.
  - rewrite fold_left_app. cbn [fold_left].
    rewrite encrypt_decrypt_round. apply IH.
Qed.

Hypothesis key_ok : valid_key e.

Lemma halves_decrypt_round (hl : Z * Z) (i : Z) :
  halves hl -> halves (decrypt_round e hl i).
Proof.
  destruct hl as [h l]. intros [Hh Hl]. cbn [fst snd] in Hh, Hl.
  unfold decrypt_round. rewrite SWAP_pair. split; cbn [fst snd].
  - apply is_u16_lxor; [assumption | now apply is_u16_key_p].
  - apply is_u16_lxor; [assumption | apply is_u16_feistel].
Qed.

Lemma halves_decrypt_rounds (ks : list Z) (hl : Z * Z) :
  halves hl -> halves (fold_left (decrypt_round e) ks hl).
Proof.
  revert hl. induction ks as [| k ks IH]; intros hl H; cbn [fold_left].
  - assumption.
  - apply IH. now apply halves_decrypt_round.
Qed.

Lemma is_u32_join (h l : Z) :
  is_u16 h -> is_u16 l -> is_u32 (Z.lor (Z.shiftl h 16) l).
Proof.
  intros Hh Hl. rewrite join_add by assumption. unfold is_u16, is_u32 in *.
  change (2 ^ 32) with (2 ^ 16 * 2 ^ 16). nia.
Qed.

(** The state of [blowfish_decrypt] before its loop. *)
Lemma halves_decrypt_start (x : Z) :
  halves (Z.lxor (BIT16_LO x) (idx (_key_p e) 17),
          Z.lxor (BIT16_HI x) (idx (_key_p e) 16)).
Proof.
  split; cbn [fst snd]; apply is_u16_lxor;
    (apply is_u16_BIT16_LO || apply is_u16_BIT16_HI || now apply is_u16_key_p).
Qed.

Lemma is_u32_decrypt (x : Z) : is_u32 (blowfish_decrypt e x).
Proof.
  unfold blowfish_decrypt. cbv zeta. rewrite SWAP_pair.
  pose proof (halves_decrypt_rounds (rev (upto 0 16)) _
                (halves_decrypt_start x)) as Hr.
  destruct (fold_left (decrypt_round e) (rev (upto 0 16)) _) as [a b].
  destruct Hr as [Ha Hb]. now apply is_u32_join.
Qed.

Lemma encrypt_decrypt (x : Z) :
  is_u32 x -> blowfish_encrypt e (blowfish_decrypt e x) = x.
Proof.
  intros Hx. unfold blowfish_encrypt, blowfish_decrypt. cbv zeta.
  rewrite (SWAP_pair (Z.lxor (BIT16_HI x) _)).
  pose proof (halves_decrypt_rounds (rev (upto 0 16)) _
                (halves_decrypt_start x)) as Hr.
  pose proof (encrypt_decrypt_rounds (upto 0 16)
                (Z.lxor (BIT16_LO x) (idx (_key_p e) 17),
                 Z.lxor (BIT16_HI x) (idx (_key_p e) 16))) as He.
  destruct (fold_left (decrypt_round e) (rev (upto 0 16)) _) as [a b].
  destruct Hr as [Ha Hb]. cbn [fst snd] in Ha, Hb.
  rewrite BIT16_HI_join, BIT16_LO_join by assumption.
  rewrite He, SWAP_pair. rewrite !lxor_cancel_r.
  now apply BIT16_split.
Qed.

End Permutation.

(** X1.  Under a loaded key, decrypting any 32-bit block gives a
    32-bit block whose encryption is the block again:
    [blowfish_encrypt (blowfish_decrypt x) = x]. *)
Theorem X1_encrypt_decrypt (e : Blowfish.engine) (x : Z) :
  Blowfish.valid_key e -> is_u32 x ->
  is_u32 (Blowfish.blowfish_decrypt e x) /\
  Blowfish.blowfish_encrypt e (Blowfish.blowfish_decrypt e x) = x.
Proof.
  intros He Hx. split; [now apply is_u32_decrypt | now apply encrypt_decrypt].
Qed.

Lemma X1_encrypt_decrypt_witness :
  Blowfish.valid_key sample_engine /\ is_u32 0xB11B5215 /\
  Blowfish.blowfish_decrypt sample_engine 0xB11B5215 = 1 /\
  Blowfish.blowfish_encrypt sample_engine
    (Blowfish.blowfish_decrypt sample_engine 0xB11B5215) = 0xB11B5215.
Proof.
  assert (Hx : is_u32 0xB11B5215) by (unfold is_u32; lia).
  split; [exact valid_sample_engine |]. split; [exact Hx |].
  split; [vm_compute; reflexivity |].
  exact (proj2 (X1_encrypt_decrypt sample_engine 0xB11B5215
                  valid_sample_engine Hx)).
Defined.

(** X2.  Under a loaded key [blowfish_encrypt] is a permutation of the
    32-bit blocks: it maps blocks to blocks, two different rolling
    codes never get the same cipher block, and every block is the
    cipher block of some code. *)
Theorem X2_encrypt_permutation (e : Blowfish.engine) :
  Blowfish.valid_key e ->
  (forall x, is_u32 (Blowfish.blowfish_encrypt e x)) /\
  (forall x y, is_u32 x -> is_u32 y ->
     Blowfish.blowfish_encrypt e x = Blowfish.blowfish_encrypt e y -> x = y) /\
  (forall y, is_u32 y ->
     exists x, is_u32 x /\ Blowfish.blowfish_encrypt e x = y).
Proof.
  intros He. split; [| split].
  - intros x. now apply is_u32_encrypt.
  - intros x y Hx Hy H.
    rewrite <- (decrypt_encrypt e He x Hx), <- (decrypt_encrypt e He y Hy).
    now rewrite H.
  - intros y Hy. exists (Blowfish.blowfish_decrypt e y).
    split; [now apply is_u32_decrypt | now apply encrypt_decrypt].
Qed.

Lemma X2_encrypt_permutation_witness :
  Blowfish.valid_key sample_engine /\
  is_u32 (Blowfish.blowfish_encrypt sample_engine 1).
Proof.
  split; [exact valid_sample_engine |].
  exact (proj1 (X2_encrypt_permutation sample_engine valid_sample_engine) 1).
Defined.

(** ** The checksum is linear over XOR *)

Lemma In_upto_lo (n : nat) (i : Z) : In i (upto 0 n) <-> 0 <= i < Z.of_nat n.
Proof.
  unfold upto. rewrite in_map_iff. split.
  - intros [k [<- Hk]]. apply in_seq in Hk. lia.
  - intros H. exists (Z.to_nat i). split; [lia |]. apply in_seq. lia.
Qed.

(** A boolean check run over all 256 byte values holds of every byte. *)
Lemma forall_bytes (P : Z -> bool) :
  forallb P (upto 0 256) = true -> forall x, is_u8 x -> P x = true.
Proof.
  intros H x Hx. rewrite forallb_forall in H. apply H.
  apply In_upto_lo. unfold is_u8 in Hx. lia.
Qed.

Lemma is_u8_mod (x : Z) : is_u8 x <-> x mod 2 ^ 8 = x.
Proof.
  unfold is_u8. split; intros H.
  - now apply Z.mod_small.
  - rewrite <- H. apply Z.mod_pos_bound. lia.
Qed.

Lemma is_u8_u8 (x : Z) : is_u8 (u8 x).
Proof. unfold is_u8, u8. apply Z.mod_pos_bound. lia. Qed.

Lemma is_u8_lxor (a b : Z) : is_u8 a -> is_u8 b -> is_u8 (Z.lxor a b).
Proof.
  rewrite !is_u8_mod. intros Ha Hb.
  rewrite lxor_mod by lia. now rewrite Ha, Hb.
Qed.

Lemma zero_bit_byte (c : Z) : is_u8 c -> is_u8 (Crc.zero_bit c).
Proof.
  intros Hc.
  pose proof (forall_bytes
    (fun c => (0 <=? Crc.zero_bit c) && (Crc.zero_bit c <? 2 ^ 8))) as H.
  specialize (H ltac:(vm_compute; reflexivity) c Hc).
  apply andb_true_iff in H as [H1 H2].
  apply Z.leb_le in H1. apply Z.ltb_lt in H2. unfold is_u8. lia.
Qed.

(** After the shift the low bit is clear, so [crc++] sets it. *)
Lemma increment_shifted (c : Z) :
  is_u8 c -> u8 (u8 (Z.shiftl c 1) + 1) = Z.lxor (u8 (Z.shiftl c 1)) 1.
Proof.
  intros Hc.
  pose proof (forall_bytes
    (fun c => u8 (u8 (Z.shiftl c 1) + 1) =? Z.lxor (u8 (Z.shiftl c 1)) 1))
    as H.
  specialize (H ltac:(vm_compute; reflexivity) c Hc).
  now apply Z.eqb_eq in H.
Qed.

Lemma lxor_four (a b c d : Z) :
  Z.lxor (Z.lxor a b) (Z.lxor c d) = Z.lxor (Z.lxor a c) (Z.lxor b d).
Proof.
  rewrite !Z.lxor_assoc. f_equal.
  rewrite <- !Z.lxor_assoc. f_equal. apply Z.lxor_comm.
Qed.

Lemma lxor_swap_r (a b c : Z) : Z.lxor (Z.lxor a b) c = Z.lxor (Z.lxor a c) b.
Proof. rewrite !Z.lxor_assoc. f_equal. apply Z.lxor_comm. Qed.

Lemma zero_bit_split (c : Z) :
  Crc.zero_bit c =
    Z.lxor (u8 (Z.shiftl c 1)) (if Z.land c 0x80 =? 0 then 0 else Crc.poly).
Proof.
  unfold Crc.zero_bit. cbv zeta.
  destruct (Z.land c 0x80 =? 0); [now rewrite Z.lxor_0_r | reflexivity].
Qed.

(** One turn of the bit loop splits into a part of the register and a
    part of the data byte. *)
Lemma data_bit_split (c d : Z) :
  is_u8 c -> is_u8 d ->
  Crc.data_bit (c, d) =
    (Z.lxor (Crc.zero_bit c) (if Z.land d 0x80 =? 0 then 0 else 1),
     u8 (Z.shiftl d 1)).
Proof.
  intros Hc Hd. unfold Crc.data_bit, Crc.zero_bit. cbv zeta.
  destruct (Z.land d 0x80 =? 0), (Z.land c 0x80 =? 0); f_equal;
    rewrite ?increment_shifted by assumption;
    rewrite ?Z.lxor_0_r; try reflexivity.
  apply lxor_swap_r.
Qed.

Lemma data_bit_bytes (p : Z * Z) : bytes2 p -> bytes2 (Crc.data_bit p).
Proof.
  destruct p as [c d]. intros [Hc Hd]. cbn [fst snd] in Hc, Hd.
  rewrite data_bit_split by assumption. split; cbn [fst snd].
  - apply is_u8_lxor; [now apply zero_bit_byte |].
    destruct (Z.land d 0x80 =? 0); unfold is_u8; lia.
  - apply is_u8_u8.
Qed.

Lemma land_bit7 (x : Z) : (Z.land x 0x80 =? 0) = negb (Z.testbit x 7).
Proof.
  change 0x80 with (2 ^ 7). destruct (Z.testbit x 7) eqn:E; cbn [negb].
  - apply Z.eqb_neq. intros H.
    assert (T : Z.testbit (Z.land x (2 ^ 7)) 7 = true)
      by (rewrite Z.land_spec, E, Z.pow2_bits_true by lia; reflexivity).
    rewrite H, Z.bits_0 in T. discriminate.
  - apply Z.eqb_eq. apply Z.bits_inj'. intros k Hk.
    rewrite Z.land_spec, Z.bits_0, Z.pow2_bits_eqb by lia.
    destruct (Z.eqb_spec 7 k) as [<- | Hne].
    + now rewrite E.
    + apply andb_false_r.
Qed.

Lemma top_bit_lxor (a b : Z) :
  is_u8 a -> is_u8 b ->
  (if Z.land (Z.lxor a b) 0x80 =? 0 then 0 else 1) =
    Z.lxor (if Z.land a 0x80 =? 0 then 0 else 1)
           (if Z.land b 0x80 =? 0 then 0 else 1).
Proof.
  intros _ _. rewrite !land_bit7, Z.lxor_spec.
  destruct (Z.testbit a 7), (Z.testbit b 7); reflexivity.
Qed.

Lemma top_poly_lxor (a b : Z) :
  is_u8 a -> is_u8 b ->
  (if Z.land (Z.lxor a b) 0x80 =? 0 then 0 else Crc.poly) =
    Z.lxor (if Z.land a 0x80 =? 0 then 0 else Crc.poly)
           (if Z.land b 0x80 =? 0 then 0 else Crc.poly).
Proof.
  intros Ha Hb. pose proof (top_bit_lxor a b Ha Hb) as H.
  destruct (Z.land (Z.lxor a b) 0x80 =? 0), (Z.land a 0x80 =? 0),
    (Z.land b 0x80 =? 0); cbn in H; try discriminate; reflexivity.
Qed.

Lemma shift_byte_lxor (a b : Z) :
  u8 (Z.shiftl (Z.lxor a b) 1) = Z.lxor (u8 (Z.shiftl a 1)) (u8 (Z.shiftl b 1)).
Proof. unfold u8. rewrite Z.shiftl_lxor. apply lxor_mod. lia. Qed.

Lemma zero_bit_lxor (a b : Z) :
  is_u8 a -> is_u8 b ->
  Crc.zero_bit (Z.lxor a b) = Z.lxor (Crc.zero_bit a) (Crc.zero_bit b).
Proof.
  intros Ha Hb. rewrite !zero_bit_split.
  rewrite shift_byte_lxor, top_poly_lxor by assumption. apply lxor_four.
Qed.

Lemma data_bit_pxor (p q : Z * Z) :
  bytes2 p -> bytes2 q ->
  Crc.data_bit (pxor p q) = pxor (Crc.data_bit p) (Crc.data_bit q).
Proof.
  destruct p as [c1 d1], q as [c2 d2]. intros [Hc1 Hd1] [Hc2 Hd2].
  cbn [fst snd] in *. unfold pxor. cbn [fst snd].
  rewrite !data_bit_split by (assumption || now apply is_u8_lxor).
  cbn [fst snd].
  rewrite zero_bit_lxor, top_bit_lxor by assumption.
  rewrite shift_byte_lxor. now rewrite lxor_four.
Qed.

Lemma bytes2_pxor (p q : Z * Z) : bytes2 p -> bytes2 q -> bytes2 (pxor p q).
Proof.
  intros [H1 H2] [H3 H4]. split; cbn [pxor fst snd]; now apply is_u8_lxor.
Qed.

Lemma data_bits_bytes (l : list Z) (p : Z * Z) :
  bytes2 p -> bytes2 (fold_left (fun cd _ => Crc.data_bit cd) l p).
Proof.
  revert p. induction l as [| x l IH]; intros p H; cbn [fold_left].
  - exact H.
  - apply IH. now apply data_bit_bytes.
Qed.

Lemma data_bits_pxor (l : list Z) (p q : Z * Z) :
  bytes2 p -> bytes2 q ->
  fold_left (fun cd _ => Crc.data_bit cd) l (pxor p q) =
    pxor (fold_left (fun cd _ => Crc.data_bit cd) l p)
         (fold_left (fun cd _ => Crc.data_bit cd) l q).
Proof.
  revert p q. induction l as [| x l IH]; intros p q Hp Hq; cbn [fold_left].
  - reflexivity.
  - rewrite data_bit_pxor by assumption.
    apply IH; now apply data_bit_bytes.
Qed.

Lemma data_byte_byte (d : ptr) (c i : Z) :
  is_u8 c -> is_u8 (d i) -> is_u8 (Crc.data_byte d c i).
Proof.
  intros Hc Hd. unfold Crc.data_byte.
  apply (data_bits_bytes (upto 0 8) (c, d i)). now split.
Qed.

Lemma data_byte_lxor (d1 d2 : ptr) (c1 c2 i : Z) :
  is_u8 c1 -> is_u8 c2 -> is_u8 (d1 i) -> is_u8 (d2 i) ->
  Crc.data_byte (xor_ptr d1 d2) (Z.lxor c1 c2) i =
    Z.lxor (Crc.data_byte d1 c1 i) (Crc.data_byte d2 c2 i).
Proof.
  intros H1 H2 H3 H4. unfold Crc.data_byte, xor_ptr.
  change (Z.lxor c1 c2, Z.lxor (d1 i) (d2 i))
    with (pxor (c1, d1 i) (c2, d2 i)).
  rewrite data_bits_pxor by (split; assumption). reflexivity.
Qed.

Lemma fold_left_step {A B : Type} (f : A -> B -> A) (x : B) (l : list B)
    (a : A) :
  fold_left f (x :: l) a = fold_left f l (f a x).
Proof. reflexivity. Qed.

Lemma data_bytes_lxor (d1 d2 : ptr) (l : list Z) (c1 c2 : Z) :
  is_u8 c1 -> is_u8 c2 ->
  (forall i, In i l -> is_u8 (d1 i) /\ is_u8 (d2 i)) ->
  is_u8 (fold_left (Crc.data_byte d1) l c1) /\
  is_u8 (fold_left (Crc.data_byte d2) l c2) /\
  fold_left (Crc.data_byte (xor_ptr d1 d2)) l (Z.lxor c1 c2) =
    Z.lxor (fold_left (Crc.data_byte d1) l c1)
           (fold_left (Crc.data_byte d2) l c2).
Proof.
  revert c1 c2. induction l as [| i l IH]; intros c1 c2 H1 H2 Hd.
  - split; [exact H1 |]. split; [exact H2 | reflexivity].
  - destruct (Hd i (or_introl eq_refl)) as [Ha Hb].
    rewrite !fold_left_step.
    rewrite (data_byte_lxor d1 d2 c1 c2 i H1 H2 Ha Hb).
    apply IH.
    + exact (data_byte_byte d1 c1 i H1 Ha).
    + exact (data_byte_byte d2 c2 i H2 Hb).
    + intros j Hj. apply Hd. right. exact Hj.
Qed.

Lemma zero_bits_lxor (l : list Z) (c1 c2 : Z) :
  is_u8 c1 -> is_u8 c2 ->
  fold_left (fun crc _ => Crc.zero_bit crc) l (Z.lxor c1 c2) =
    Z.lxor (fold_left (fun crc _ => Crc.zero_bit crc) l c1)
           (fold_left (fun crc _ => Crc.zero_bit crc) l c2).
Proof.
  revert c1 c2. induction l as [| x l IH]; intros c1 c2 H1 H2.
  - reflexivity.
  - rewrite !fold_left_step. rewrite zero_bit_lxor by assumption.
    apply IH; apply zero_bit_byte; assumption.
Qed.

Lemma crc_from_lxor (d1 d2 : ptr) (num c1 c2 : Z) :
  is_u8 c1 -> is_u8 c2 ->
  (forall i, 0 <= i < num -> is_u8 (d1 i) /\ is_u8 (d2 i)) ->
  crc_from (Z.lxor c1 c2) (xor_ptr d1 d2) num =
    Z.lxor (crc_from c1 d1 num) (crc_from c2 d2 num).
Proof.
  intros H1 H2 Hd. unfold crc_from.
  destruct (data_bytes_lxor d1 d2 (upto 0 (Z.to_nat num)) c1 c2 H1 H2)
    as (B1 & B2 & E).
  { intros i Hi. apply In_upto_lo in Hi. apply Hd. lia. }
  rewrite E. apply zero_bits_lxor; assumption.
Qed.

Lemma data_byte_ext (d1 d2 : ptr) (c i : Z) :
  d1 i = d2 i -> Crc.data_byte d1 c i = Crc.data_byte d2 c i.
Proof. intros H. unfold Crc.data_byte. rewrite H. reflexivity. Qed.

Lemma data_bytes_ext (d1 d2 : ptr) (l : list Z) (c : Z) :
  (forall i, In i l -> d1 i = d2 i) ->
  fold_left (Crc.data_byte d1) l c = fold_left (Crc.data_byte d2) l c.
Proof.
  revert c. induction l as [| i l IH]; intros c H.
  - reflexivity.
  - rewrite !fold_left_step.
    rewrite (data_byte_ext d1 d2 c i (H i (or_introl eq_refl))).
    apply IH. intros j Hj. apply H. right. exact Hj.
Qed.

(** The checksum reads the bytes [data[0..num-1]] and nothing else. *)
Lemma crc_from_ext (d1 d2 : ptr) (num c : Z) :
  (forall i, 0 <= i < num -> d1 i = d2 i) ->
  crc_from c d1 num = crc_from c d2 num.
Proof.
  intros H. unfold crc_from. f_equal. apply data_bytes_ext.
  intros i Hi. apply In_upto_lo in Hi. apply H. lia.
Qed.

Lemma zero_bit_u8 (c : Z) : is_u8 (Crc.zero_bit c).
Proof.
  unfold Crc.zero_bit. cbv zeta. destruct (Z.land c 0x80 =? 0).
  - apply is_u8_u8.
  - apply is_u8_lxor; [apply is_u8_u8 | unfold is_u8, Crc.poly; lia].
Qed.

Lemma is_u8_crc_from (c : Z) (d : ptr) (num : Z) : is_u8 (crc_from c d num).
Proof.
  unfold crc_from. change (upto 0 8) with ([0; 1; 2; 3; 4; 5; 6] ++ [7]).
  rewrite fold_left_app. rewrite fold_left_step. apply zero_bit_u8.
Qed.

Lemma crc_ccitt_from (d : ptr) (num : Z) :
  Crc.crc_ccitt d num = crc_from 0xFF d num.
Proof. reflexivity. Qed.

Lemma is_u8_idx8 (t : list Z) (i : Z) : Forall is_u8 t -> is_u8 (idx t i).
Proof.
  intros H. unfold idx.
  destruct (nth_in_or_default (Z.to_nat i) t 0) as [Hin | ->].
  - rewrite Forall_forall in H. now apply H.
  - unfold is_u8. lia.
Qed.

Lemma lxor_fixed (a d : Z) : Z.lxor a d = a -> d = 0.
Proof.
  intros H. symmetry. apply Z.lxor_eq.
  rewrite Z.lxor_0_l. rewrite <- (Z.lxor_nilpotent a) at 1.
  rewrite <- H at 2. rewrite <- Z.lxor_assoc, Z.lxor_nilpotent.
  apply Z.lxor_0_l.
Qed.

Lemma is_u8_pow2 (b : Z) : 0 <= b < 8 -> is_u8 (2 ^ b).
Proof.
  intros H. assert (C : b = 0 \/ b = 1 \/ b = 2 \/ b = 3 \/ b = 4 \/ b = 5 \/
                        b = 6 \/ b = 7) by lia.
  unfold is_u8. repeat (destruct C as [-> | C]); subst; simpl; lia.
Qed.

(** Among the five checksummed bytes no single inverted bit has a zero
    checksum of its own. *)
Lemma one_bit_nonzero (i b : Z) :
  0 <= i < 5 -> 0 <= b < 8 -> crc_from 0 (one_bit i b) 5 <> 0.
Proof.
  intros Hi Hb.
  assert (Ci : i = 0 \/ i = 1 \/ i = 2 \/ i = 3 \/ i = 4) by lia.
  assert (Cb : b = 0 \/ b = 1 \/ b = 2 \/ b = 3 \/ b = 4 \/ b = 5 \/
               b = 6 \/ b = 7) by lia.
  repeat (destruct Ci as [-> | Ci]); subst;
    repeat (destruct Cb as [-> | Cb]); subst; vm_compute; discriminate.
Qed.

Lemma flip_bit_xor (data : list Z) (i b j : Z) :
  0 <= i < Z.of_nat (length data) -> 0 <= j ->
  of_array (flip_bit data i b) j = xor_ptr (of_array data) (one_bit i b) j.
Proof.
  intros Hi Hj. unfold of_array, flip_bit, xor_ptr, one_bit.
  destruct (Z.eqb_spec j i) as [-> | Hne].
  - now rewrite idx_upd_same.
  - rewrite idx_upd_other by lia. now rewrite Z.lxor_0_r.
Qed.

Lemma crc_from_lxor_FF (d e : ptr) (num : Z) :
  (forall i, 0 <= i < num -> is_u8 (d i) /\ is_u8 (e i)) ->
  crc_from 0xFF (xor_ptr d e) num =
    Z.lxor (crc_from 0xFF d num) (crc_from 0 e num).
Proof.
  intros H.
  assert (H1 : is_u8 0xFF) by (unfold is_u8; lia).
  assert (H0 : is_u8 0) by (unfold is_u8; lia).
  exact (crc_from_lxor d e num 0xFF 0 H1 H0 H).
Qed.

(** X3.  [crc_ccitt] always returns a byte, and over byte-valued
    buffers it is linear: the checksum of a message XORed with an error
    pattern is the checksum of the message XORed with the checksum the
    pattern gets from a zero start register. *)
Theorem X3_crc_linear (d e : ptr) (num : Z) :
  (forall i, 0 <= i < num -> is_u8 (d i) /\ is_u8 (e i)) ->
  is_u8 (Crc.crc_ccitt d num) /\
  Crc.crc_ccitt (xor_ptr d e) num =
    Z.lxor (Crc.crc_ccitt d num) (crc_from 0 e num).
Proof.
  intros H. rewrite !crc_ccitt_from. split; [apply is_u8_crc_from |].
  now apply crc_from_lxor_FF.
Qed.

Lemma X3_crc_linear_witness :
  Crc.crc_ccitt (xor_ptr (of_array [21; 82; 27; 177; 85])
                         (of_array [0; 0; 8; 0; 0])) 5 =
    Z.lxor (Crc.crc_ccitt (of_array [21; 82; 27; 177; 85]) 5)
           (crc_from 0 (of_array [0; 0; 8; 0; 0]) 5).
Proof.
  refine (proj2 (X3_crc_linear (of_array [21; 82; 27; 177; 85])
                   (of_array [0; 0; 8; 0; 0]) 5 _)).
  intros i Hi.
  assert (C : i = 0 \/ i = 1 \/ i = 2 \/ i = 3 \/ i = 4) by lia.
  repeat (destruct C as [-> | C]); subst; split; vm_compute; intuition congruence.
Defined.

Lemma crc_ok_iff (d : ptr) (num v : Z) :
  (Crc.crc_ccitt d num =? v) = true <-> crc_from 0xFF d num = v.
Proof. rewrite crc_ccitt_from. apply Z.eqb_eq. Qed.

Lemma frame_ok_iff (data : list Z) :
  Receiver.frame_ok data = true <->
  crc_from 0xFF (of_array data) 5 = idx data 5.
Proof. exact (crc_ok_iff (of_array data) 5 (idx data 5)). Qed.

Lemma flip_checksum_byte (data : list Z) (b : Z) :
  length data = 6%nat -> 0 <= b < 8 ->
  crc_from 0xFF (of_array data) 5 = idx data 5 ->
  crc_from 0xFF (of_array (flip_bit data 5 b)) 5 <> idx (flip_bit data 5 b) 5.
Proof.
  intros L Hb Hok.
  assert (P : is_u8 (2 ^ b)) by now apply is_u8_pow2.
  rewrite (crc_from_ext (of_array (flip_bit data 5 b)) (of_array data)).
  - unfold flip_bit. rewrite idx_upd_same by (rewrite L; simpl; lia).
    rewrite Hok. intros E. symmetry in E. apply lxor_fixed in E.
    unfold is_u8 in P. assert (0 < 2 ^ b) by (apply Z.pow_pos_nonneg; lia).
    lia.
  - intros j Hj. unfold of_array, flip_bit. apply idx_upd_other; lia.
Qed.

Lemma flip_checksummed_byte (data : list Z) (i b : Z) :
  length data = 6%nat -> Forall is_u8 data -> 0 <= i < 5 -> 0 <= b < 8 ->
  crc_from 0xFF (of_array data) 5 = idx data 5 ->
  crc_from 0xFF (of_array (flip_bit data i b)) 5 <> idx (flip_bit data i b) 5.
Proof.
  intros L B Hi Hb Hok.
  assert (P : is_u8 (2 ^ b)) by now apply is_u8_pow2.
  rewrite (crc_from_ext (of_array (flip_bit data i b))
             (xor_ptr (of_array data) (one_bit i b)))
    by (intros j Hj; apply flip_bit_xor; [rewrite L; simpl; lia | lia]).
  assert (H1 : is_u8 0xFF) by (unfold is_u8; lia).
  assert (H0 : is_u8 0) by (unfold is_u8; lia).
  assert (Hd : forall j, 0 <= j < 5 ->
            is_u8 (of_array data j) /\ is_u8 (one_bit i b j)).
  { intros j Hj. split.
    - unfold of_array. apply is_u8_idx8. exact B.
    - unfold one_bit. destruct (j =? i); [exact P | unfold is_u8; lia]. }
  rewrite (crc_from_lxor_FF (of_array data) (one_bit i b) 5 Hd).
  unfold flip_bit. rewrite idx_upd_other by lia. rewrite <- Hok.
  intros E'. apply lxor_fixed in E'. revert E'. apply one_bit_nonzero; lia.
Qed.

(** X4.  A six-byte frame of bytes that passes the receiver's checksum
    test fails it as soon as any single bit of it is inverted, be it in
    the cipher block, the channel byte or the checksum byte. *)
Theorem X4_single_bit_error_detected (data : list Z) (i b : Z) :
  length data = 6%nat -> Forall is_u8 data ->
  0 <= i < 6 -> 0 <= b < 8 ->
  Receiver.frame_ok data = true ->
  Receiver.frame_ok (flip_bit data i b) = false.
Proof.
  intros L B Hi Hb Hok. apply frame_ok_iff in Hok.
  destruct (Receiver.frame_ok (flip_bit data i b)) eqn:E; [| reflexivity].
  apply frame_ok_iff in E. exfalso. revert E.
  destruct (Z.eq_dec i 5) as [-> | Hne].
  - apply flip_checksum_byte; assumption.
  - apply flip_checksummed_byte; (assumption || lia).
Qed.

Lemma X4_single_bit_error_detected_witness :
  Receiver.frame_ok [21; 82; 27; 177; 85; 48] = true /\
  Receiver.frame_ok (flip_bit [21; 82; 27; 177; 85; 48] 2 3) = false.
Proof.
  split; [vm_compute; reflexivity |].
  apply (X4_single_bit_error_detected [21; 82; 27; 177; 85; 48] 2 3).
  - reflexivity.
  - repeat (apply Forall_cons; [unfold is_u8; lia |]). apply Forall_nil.
  - lia.
  - lia.
  - vm_compute. reflexivity.
Defined.

(** ** The receive loop *)

Lemma length_collect (n : nat) (i : Z) (data : list Z) (s : list (Z * bool))
    (ok : bool) (data' : list Z) (s' : list (Z * bool)) :
  collect n i data s = Some (ok, data', s') -> length data' = length data.
Proof.
  revert i data s. induction n as [| n IH]; intros i data s H;
    cbn [collect] in H.
  - now injection H as _ <- _.
  - destruct s as [| [b err] rest]; [discriminate |].
    destruct err.
    + injection H as _ <- _. apply length_upd.
    + apply IH in H. now rewrite H, length_upd.
Qed.

(** The samples a collection leaves are a suffix of those it got. *)
Lemma collect_suffix (n : nat) (i : Z) (data : list Z) (s : list (Z * bool))
    (ok : bool) (data' : list Z) (s' : list (Z * bool)) :
  collect n i data s = Some (ok, data', s') -> exists c, s = c ++ s'.
Proof.
  revert i data s. induction n as [| n IH]; intros i data s H;
    cbn [collect] in H.
  - injection H as _ _ <-. now exists [].
  - destruct s as [| [b err] rest]; [discriminate |].
    destruct err.
    + injection H as _ _ <-. now exists [(b, true)].
    + apply IH in H as [c ->]. now exists ((b, false) :: c).
Qed.

(** A full collection into a six-byte buffer read six samples without
    error, and the buffer holds exactly their bytes. *)
Lemma collect_six (data : list Z) (s : list (Z * bool)) (data' : list Z)
    (s' : list (Z * bool)) :
  length data = 6%nat ->
  collect 6 0 data s = Some (true, data', s') ->
  s = clean data' ++ s' /\ length data' = 6%nat.
Proof.
  intros L H. explode data.
  do 6 (destruct s as [| [? err] s]; [discriminate |];
        destruct err; [discriminate |]).
  cbn in H. injection H as <- <-. split; reflexivity.
Qed.

Lemma collect_clean (data frame : list Z) (rest : list (Z * bool)) :
  length data = 6%nat -> length frame = 6%nat ->
  collect 6 0 data (clean frame ++ rest) = Some (true, frame, rest).
Proof. intros L L'. explode data. explode frame. reflexivity. Qed.

(** The polling stops right after the first sample that is the marker
    or carries an error. *)
Lemma poll_marker_stop (s s1 : list (Z * bool)) :
  poll_marker s = Some s1 ->
  exists skipped p,
    s = skipped ++ p :: s1 /\
    (fst p = Receiver.FRAME_MARK \/ snd p = true) /\
    Forall (fun q => fst q <> Receiver.FRAME_MARK /\ snd q = false) skipped.
Proof.
  revert s1. induction s as [| [b err] s IH]; intros s1 H;
    cbn [poll_marker] in H; [discriminate |].
  destruct (Z.eqb_spec b Receiver.FRAME_MARK) as [E | E]; cbn [negb andb] in H.
  - injection H as <-. exists [], (b, err). repeat split; auto.
  - destruct err; cbn [negb] in H.
    + injection H as <-. exists [], (b, true). repeat split; auto.
    + apply IH in H as (sk & p & -> & Hp & Hs).
      exists ((b, false) :: sk), p. repeat split; auto.
Qed.

Lemma receive_code_step (f : nat) (data : list Z) (s : list (Z * bool)) :
  receive_code (S f) data s =
    match poll_marker s with
    | None => None
    | Some s1 =>
        match collect 6 0 data s1 with
        | None => None
        | Some (ok, data, s2) =>
            if ok && Receiver.frame_ok data then Some (data, s2)
            else receive_code f data s2
        end
    end.
Proof. reflexivity. Qed.

(** X5.  Whatever [receive_code] returns has passed the checksum test,
    and its six bytes are six consecutive samples received without
    error, directly after a sample that was the frame marker or
    carried a receive error; nothing after them has been read. *)
Theorem X5_receive_code_sound (fuel : nat) (data : list Z)
    (s : list (Z * bool)) (data' : list Z) (rest : list (Z * bool)) :
  length data = 6%nat ->
  receive_code fuel data s = Some (data', rest) ->
  Receiver.frame_ok data' = true /\ length data' = 6%nat /\
  exists before p,
    s = before ++ p :: clean data' ++ rest /\
    (fst p = Receiver.FRAME_MARK \/ snd p = true).
Proof.
  revert data s. induction fuel as [| f IH]; intros data s L H;
    [discriminate |].
  rewrite receive_code_step in H.
  destruct (poll_marker s) as [s1 |] eqn:P; [| discriminate].
  apply poll_marker_stop in P as (sk & p & -> & Hp & _).
  destruct (collect 6 0 data s1) as [[[ok d2] s2] |] eqn:C; [| discriminate].
  destruct (ok && Receiver.frame_ok d2) eqn:E.
  - injection H as <- <-. apply andb_true_iff in E as [-> E].
    apply collect_six in C as [-> L2]; [| exact L].
    split; [exact E |]. split; [exact L2 |]. exists sk, p. now split.
  - assert (L2 : length d2 = 6%nat)
      by (apply length_collect in C; now rewrite C).
    apply collect_suffix in C as [c ->].
    destruct (IH d2 s2 L2 H) as (Hok & Hl & before & p' & -> & Hp').
    split; [exact Hok |]. split; [exact Hl |].
    exists (sk ++ p :: c ++ before), p'. split; [| exact Hp'].
    rewrite <- !app_assoc. cbn [app]. now rewrite <- !app_assoc.
Qed.

Lemma X5_receive_code_sound_witness :
  length [0; 0; 0; 0; 0; 0] = 6%nat /\
  receive_code 3 [0; 0; 0; 0; 0; 0]
    ((7, false) :: (0x96, false) :: clean [1; 2; 3; 4; 5; 6]
     ++ (9, true) :: clean [21; 82; 27; 177; 85; 48] ++ [(1, false)])
  = Some ([21; 82; 27; 177; 85; 48], [(1, false)]) /\
  Receiver.frame_ok [21; 82; 27; 177; 85; 48] = true.
Proof.
  split; [reflexivity |].
  assert (H : receive_code 3 [0; 0; 0; 0; 0; 0]
    ((7, false) :: (0x96, false) :: clean [1; 2; 3; 4; 5; 6]
     ++ (9, true) :: clean [21; 82; 27; 177; 85; 48] ++ [(1, false)])
  = Some ([21; 82; 27; 177; 85; 48], [(1, false)]))
    by (vm_compute; reflexivity).
  split; [exact H |].
  exact (proj1 (X5_receive_code_sound 3 [0; 0; 0; 0; 0; 0] _ _ _ eq_refl H)).
Defined.

(** X6.  A frame that passes the checksum test is returned as soon as
    it arrives without error right after the frame marker, and equally
    right after a sample that carried a receive error (the polling
    loop also stops on an error), leaving the later samples unread. *)
Theorem X6_receive_code_complete (fuel : nat) (data frame : list Z)
    (p : Z * bool) (rest : list (Z * bool)) :
  length data = 6%nat -> length frame = 6%nat ->
  Receiver.frame_ok frame = true ->
  fst p = Receiver.FRAME_MARK \/ snd p = true ->
  receive_code (S fuel) data (p :: clean frame ++ rest) = Some (frame, rest).
Proof.
  intros L L' Hok Hp. rewrite receive_code_step.
  destruct p as [b err]. cbn [poll_marker fst snd] in *.
  assert (E : negb (b =? Receiver.FRAME_MARK) && negb err = false).
  { destruct Hp as [-> | ->].
    - now rewrite Z.eqb_refl.
    - apply andb_false_r. }
  rewrite E, collect_clean by assumption. now rewrite Hok.
Qed.

Lemma X6_receive_code_complete_witness :
  receive_code 1 [0; 0; 0; 0; 0; 0]
    ((0x33, true) :: clean [21; 82; 27; 177; 85; 48] ++ [])
  = Some ([21; 82; 27; 177; 85; 48], []).
Proof.
  apply (X6_receive_code_complete 0 [0; 0; 0; 0; 0; 0]
           [21; 82; 27; 177; 85; 48] (0x33, true) []).
  - reflexivity.
  - reflexivity.
  - vm_compute. reflexivity.
  - right. reflexivity.
Defined.

(** ** The bolt drive *)

Lemma unlatch_bounded (f : nat) (latch : nat -> bool) (k : nat) (n : Z)
    (out : list Z) :
  0 <= n <= 101 -> 102 - n <= Z.of_nat f ->
  exists k' m,
    unlatch f latch k n out = Some (k', out ++ repeat 0x80 m) /\
    (k < k')%nat /\ Z.of_nat k' <= Z.of_nat k + (102 - n) /\
    Z.of_nat m <= 102 - n /\ latch (k' - 1)%nat = negb (n + Z.of_nat m >? 101).
Proof.
  revert k n out. induction f as [| f IH]; intros k n out Hn Hf; [lia |].
  cbn [unlatch]. destruct (latch k) eqn:Lk.
  - exists (S k), 0%nat. cbn [repeat]. rewrite app_nil_r.
    replace (S k - 1)%nat with k by lia. rewrite Lk.
    repeat split; try lia.
    destruct (Z.gtb_spec (n + Z.of_nat 0) 101); [lia | reflexivity].
  - unfold MAX_BOLT_RETRY. destruct (Z.gtb_spec n 100) as [G | G].
    + exists (S k), 1%nat. replace (S k - 1)%nat with k by lia. rewrite Lk.
      repeat split; try lia.
      destruct (Z.gtb_spec (n + Z.of_nat 1) 101); [reflexivity | lia].
    + destruct (IH (S k) (n + 1) (out ++ [0x80])) as (k' & m & E & H1 & H2 & H3 & H4);
        [lia | lia |].
      exists k', (S m). rewrite E, <- app_assoc. cbn [app repeat].
      repeat split; try lia.
      rewrite H4. f_equal. f_equal. lia.
Qed.

Lemma Forall_repeat {A : Type} (P : A -> Prop) (x : A) (n : nat) :
  P x -> Forall P (repeat x n).
Proof. intros H. induction n; cbn [repeat]; auto. Qed.

(** X7.  [bolt_unlock] always comes to an end: it samples the latch
    at most 105 times, pulses the unlock drive at most 103 times, never
    writes a value to PORTC that turns both drives on, and leaves PORTC
    at zero, with PORTD showing the last latch sample, as the summary
    [Receiver.bolt_unlock] used for the Normal command says. *)
Theorem X7_bolt_unlock_bounded (latch : nat -> bool) (st : Receiver.state) :
  exists out portd k,
    bolt_unlock_run 103 latch = Some (out, portd, k) /\
    (2 <= k <= 105)%nat /\
    Forall (fun v => v = 0x80 \/ v = 0x40 \/ v = 0x00) out /\
    (count_occ Z.eq_dec out 0x80%Z <= 103)%nat /\
    last out 1 = 0x00 /\
    Receiver.PORTC (Receiver.bolt_unlock (latch (k - 1)%nat) st) = last out 1 /\
    Receiver.PORTD (Receiver.bolt_unlock (latch (k - 1)%nat) st) = portd.
Proof.
  unfold bolt_unlock_run. cbv zeta. destruct (latch 0%nat) eqn:L0.
  - eexists _, _, _. split; [reflexivity |]. cbn [app].
    split; [lia |].
    split; [repeat (apply Forall_cons; [lia |]); apply Forall_nil |].
    split; [cbn; lia |]. split; [reflexivity |]. split; reflexivity.
  - destruct (unlatch_bounded 103 latch 1 0 [0x80; 0x00])
      as (k' & m & E & H1 & H2 & H3 & _); [lia | lia |].
    rewrite E. eexists _, _, _. split; [reflexivity |].
    replace (S k' - 1)%nat with k' by lia.
    split; [lia |]. split; [| split; [| split; [| split]]].
    + rewrite !Forall_app. repeat split.
      * repeat (apply Forall_cons; [lia |]); apply Forall_nil.
      * apply Forall_repeat. lia.
      * repeat (apply Forall_cons; [lia |]); apply Forall_nil.
      * repeat (apply Forall_cons; [lia |]); apply Forall_nil.
    + rewrite !count_occ_app. cbn [app].
      rewrite (count_occ_repeat_eq Z.eq_dec m eq_refl). cbn. lia.
    + change [0x40; 0x00] with ([0x40] ++ [0x00]).
      rewrite app_assoc. apply last_last.
    + change [0x40; 0x00] with ([0x40] ++ [0x00]).
      rewrite app_assoc, last_last. reflexivity.
    + reflexivity.
Qed.

(** ** Enrollment, replay and reset at the level of commands *)

Section Protocol.
Import Receiver.

Lemma chan_in_range (x : Z) : 0 <= x mod MAX_CHANS < MAX_CHANS.
Proof. apply Z.mod_pos_bound. unfold MAX_CHANS. lia. Qed.

Lemma read_code_write_state (chan v c : Z) (st : state) :
  0 <= chan -> 0 <= c < MAX_CHANS ->
  read_channel_code (write_channel_state chan v st) c = read_channel_code st c.
Proof.
  intros Hc Hr. unfold read_channel_code, eeprom_read, load32.
  rewrite code_offset by assumption. unfold write_channel_state.
  unfold MAX_CHANS in Hr.
  rewrite !eeprom_write_other by (unfold ADDRESS_STATE, MAX_CHANS; lia).
  reflexivity.
Qed.

Lemma read_state_write_state (chan v c : Z) (st : state) :
  read_channel_state (write_channel_state chan v st) c =
    if c =? chan then v else read_channel_state st c.
Proof.
  unfold read_channel_state, write_channel_state, eeprom_read, eeprom_write.
  cbn [eeprom]. destruct (Z.eqb_spec c chan) as [-> | Hne].
  - now rewrite Z.eqb_refl.
  - destruct (Z.eqb_spec (ADDRESS_STATE + c) (ADDRESS_STATE + chan)); [lia |].
    reflexivity.
Qed.

(** The acceptance test in terms of what the store holds. *)
Lemma load_invalid_window (st : state) (code chan last : Z) :
  read_channel_state st chan = 0xFF ->
  read_channel_code st chan = last mod 2 ^ 32 ->
  load_invalid st code chan = negb ((code - last) mod 2 ^ 32 <? 1024).
Proof.
  intros Hs Hc. unfold load_invalid, ROLLING_WINDOW, u32. cbv zeta.
  rewrite Hs, Hc, Z.eqb_refl. cbn [negb orb].
  rewrite Zminus_mod_idemp_r.
  destruct (Z.geb_spec ((code - last) mod 2 ^ 32) 1024),
    (Z.ltb_spec ((code - last) mod 2 ^ 32) 1024); try lia; reflexivity.
Qed.

Lemma store_reads (st : state) (code chan : Z) :
  0 <= chan < MAX_CHANS ->
  read_channel_state (process_store code chan st) chan = 0xFF /\
  read_channel_code (process_store code chan st) chan = (code + 1) mod 2 ^ 32.
Proof.
  intros Hc. unfold process_store. cbv zeta. split.
  - rewrite read_state_write_state. now rewrite Z.eqb_refl.
  - rewrite read_code_write_state by lia.
    apply (read_write_channel_code chan (u32 (code + 1))); [assumption |].
    unfold is_u32, u32. apply Z.mod_pos_bound. lia.
Qed.

Lemma load_reads (st : state) (code chan : Z) (b : bool) :
  0 <= chan < MAX_CHANS ->
  load_invalid st code chan = false ->
  read_channel_state (process_load code chan b st) chan = 0xFF /\
  read_channel_code (process_load code chan b st) chan = (code + 1) mod 2 ^ 32.
Proof.
  intros Hc Hv. rewrite process_load_valid by assumption. split.
  - apply load_invalid_false in Hv as [Hs _]. rewrite <- Hs.
    apply (read_state_write_channel_code chan (u32 (code + 1)) chan
             (set_PORTD 0x50 st)); assumption.
  - apply (read_write_channel_code chan (u32 (code + 1))); [assumption |].
    unfold is_u32, u32. apply Z.mod_pos_bound. lia.
Qed.

End Protocol.

(** X8.  The Store command enrolls unconditionally: afterwards the
    channel's flag byte is 0xFF and its stored code is [code + 1]
    (32 bits), while the codes and flags of the other channels read as
    before. *)
Theorem X8_store_enrolls (st : Receiver.state) (code chan : Z) :
  0 <= chan < Receiver.MAX_CHANS ->
  let st' := Receiver.process_store code chan st in
  Receiver.read_channel_state st' chan = 0xFF /\
  Receiver.read_channel_code st' chan = (code + 1) mod 2 ^ 32 /\
  (forall c, 0 <= c < Receiver.MAX_CHANS -> c <> chan ->
     Receiver.read_channel_code st' c = Receiver.read_channel_code st c /\
     Receiver.read_channel_state st' c = Receiver.read_channel_state st c).
Proof.
  intros Hc st'. subst st'.
  destruct (store_reads st code chan Hc) as [Hs Hcode].
  split; [exact Hs |]. split; [exact Hcode |].
  intros c Hr Hne. unfold Receiver.process_store. cbv zeta. split.
  - rewrite read_code_write_state by lia.
    apply (read_other_channel_code chan (u32 (code + 1)) c
             (Receiver.set_PORTD 0x90 st)); assumption.
  - rewrite read_state_write_state.
    destruct (Z.eqb_spec c chan); [contradiction |].
    apply (read_state_write_channel_code chan (u32 (code + 1)) c
             (Receiver.set_PORTD 0x90 st)); assumption.
Qed.

Lemma X8_store_enrolls_witness :
  0 <= 5 < Receiver.MAX_CHANS /\
  Receiver.read_channel_code
    (Receiver.process_store 0xFFFFFFFF 5
       (Receiver.mk_state (fun _ => 0) 0 0)) 5 = 0.
Proof.
  assert (H : 0 <= 5 < Receiver.MAX_CHANS) by (unfold Receiver.MAX_CHANS; lia).
  split; [exact H |].
  exact (proj1 (proj2 (X8_store_enrolls (Receiver.mk_state (fun _ => 0) 0 0)
                         0xFFFFFFFF 5 H))).
Defined.

(** X9.  After a Store command with [code], a Normal command on that
    channel is accepted exactly for the codes [code + 1 .. code + 1024]
    (modulo 2^32); in particular the code that enrolled the channel is
    itself rejected when it comes again as a Normal command. *)
Theorem X9_store_then_normal (st : Receiver.state) (code chan : Z) :
  0 <= chan < Receiver.MAX_CHANS ->
  let st' := Receiver.process_store code chan st in
  (forall code',
     Receiver.load_invalid st' code' chan = false <->
     (code' - (code + 1)) mod 2 ^ 32 < 1024) /\
  Receiver.load_invalid st' code chan = true.
Proof.
  intros Hc st'. subst st'.
  destruct (store_reads st code chan Hc) as [Hs Hcode].
  split.
  - intros code'. rewrite (load_invalid_window _ code' chan (code + 1) Hs Hcode).
    rewrite negb_false_iff. apply Z.ltb_lt.
  - rewrite (load_invalid_window _ code chan (code + 1) Hs Hcode).
    replace (code - (code + 1)) with (-1) by lia. reflexivity.
Qed.

Lemma X9_store_then_normal_witness :
  0 <= 5 < Receiver.MAX_CHANS /\
  Receiver.load_invalid
    (Receiver.process_store 7 5 (Receiver.mk_state (fun _ => 0) 0 0)) 7 5
  = true.
Proof.
  assert (H : 0 <= 5 < Receiver.MAX_CHANS) by (unfold Receiver.MAX_CHANS; lia).
  split; [exact H |].
  exact (proj2 (X9_store_then_normal (Receiver.mk_state (fun _ => 0) 0 0)
                  7 5 H)).
Defined.

(** X10.  An accepted Normal command uses its code up: afterwards the
    same code, and every code between the old stored code and it, is
    rejected on that channel, while the next 1024 codes are
    acceptable. *)
Theorem X10_accepted_code_is_spent (st : Receiver.state) (code chan : Z)
    (b : bool) :
  0 <= chan < Receiver.MAX_CHANS ->
  Receiver.load_invalid st code chan = false ->
  let st' := Receiver.process_load code chan b st in
  (forall d, 0 <= d <= (code - Receiver.read_channel_code st chan) mod 2 ^ 32 ->
     Receiver.load_invalid st' (code - d) chan = true) /\
  (forall k, 1 <= k <= 1024 ->
     Receiver.load_invalid st' (code + k) chan = false).
Proof.
  intros Hc Hv st'. subst st'.
  destruct (load_reads st code chan b Hc Hv) as [Hs Hcode].
  apply load_invalid_false in Hv as [_ Hw].
  split.
  - intros d Hd.
    rewrite (load_invalid_window _ (code - d) chan (code + 1) Hs Hcode).
    replace (code - d - (code + 1)) with (- (d + 1)) by lia.
    rewrite <- (Z.mod_add _ 1) by lia.
    rewrite Z.mod_small by lia.
    destruct (Z.ltb_spec (- (d + 1) + 1 * 2 ^ 32) 1024); [lia | reflexivity].
  - intros k Hk.
    rewrite (load_invalid_window _ (code + k) chan (code + 1) Hs Hcode).
    replace (code + k - (code + 1)) with (k - 1) by lia.
    rewrite Z.mod_small by lia.
    destruct (Z.ltb_spec (k - 1) 1024); [reflexivity | lia].
Qed.

Lemma X10_accepted_code_is_spent_witness :
  0 <= 3 < Receiver.MAX_CHANS /\
  Receiver.load_invalid enrolled_store 150 3 = false /\
  Receiver.load_invalid
    (Receiver.process_load 150 3 true enrolled_store) 150 3 = true /\
  Receiver.load_invalid
    (Receiver.process_load 150 3 true enrolled_store) 120 3 = true.
Proof.
  assert (H : 0 <= 3 < Receiver.MAX_CHANS) by (unfold Receiver.MAX_CHANS; lia).
  split; [exact H |]. split; [reflexivity |].
  pose proof (proj1 (X10_accepted_code_is_spent enrolled_store 150 3 true H
                       eq_refl)) as R.
  split.
  - apply (R 0). vm_compute. split; discriminate.
  - apply (R 30). vm_compute. split; discriminate.
Defined.

Section Dispatch.
Import Receiver.

Lemma load_invalid_disabled (st : state) (code chan : Z) :
  read_channel_state st chan <> 0xFF -> load_invalid st code chan = true.
Proof.
  intros H. unfold load_invalid. cbv zeta.
  apply Z.eqb_neq in H. rewrite H. reflexivity.
Qed.

Lemma reset_all_flag (pins : Z -> bool * bool) (st : state) (chan c : Z) :
  chan < 0 -> 0 <= c < MAX_CHANS ->
  existsb (fun i => released (pins i)) (rev (upto 0 6)) = true ->
  read_channel_state (process_reset chan pins st) c = 0x00.
Proof.
  intros Hneg Hc Hab. unfold process_reset. cbv zeta.
  rewrite countdown_existsb, Hab.
  destruct (Z.geb_spec chan 0) as [Hge | _]; [lia |].
  unfold read_channel_state, eeprom_read.
  rewrite eeprom_set_PORTD, eeprom_reset_all.
  replace (existsb _ _) with true; [reflexivity |].
  symmetry. apply existsb_exists. exists c. split.
  - apply In_upto_lo. unfold MAX_CHANS in *. simpl. lia.
  - apply Z.eqb_refl.
Qed.

Lemma process_load_eeprom (code chan : Z) (b : bool) (st : state) (a : Z) :
  0 <= chan < MAX_CHANS ->
  ~ (4 * chan <= a < 4 * chan + 4) ->
  eeprom (process_load code chan b st) a = eeprom st a.
Proof.
  intros Hc Ha. destruct (load_invalid st code chan) eqn:E.
  - now rewrite process_load_invalid.
  - rewrite process_load_valid by assumption. rewrite eeprom_bolt_unlock.
    rewrite eeprom_write_channel_code by assumption.
    destruct (Z.leb_spec (4 * chan) a), (Z.ltb_spec a (4 * chan + 4));
      cbn [andb]; try lia; reflexivity.
Qed.

Lemma process_store_eeprom (code chan : Z) (st : state) (a : Z) :
  0 <= chan < MAX_CHANS ->
  ~ (4 * chan <= a < 4 * chan + 4) -> a <> ADDRESS_STATE + chan ->
  eeprom (process_store code chan st) a = eeprom st a.
Proof.
  intros Hc Ha Hf. unfold process_store. cbv zeta.
  unfold write_channel_state. rewrite eeprom_write_other by assumption.
  rewrite eeprom_write_channel_code by assumption.
  destruct (Z.leb_spec (4 * chan) a), (Z.ltb_spec a (4 * chan + 4));
    cbn [andb]; try lia; reflexivity.
Qed.

End Dispatch.

(** X11.  A reset whose countdown saw both pins released at some
    sample takes effect: the targeted channel, or every channel for a
    reset of all, then rejects every Normal command whatever its code,
    until a Store command enrolls it again. *)
Theorem X11_reset_disables (st : Receiver.state) (pins : Z -> bool * bool)
    (chan c code : Z) :
  -1 <= chan < Receiver.MAX_CHANS -> 0 <= c < Receiver.MAX_CHANS ->
  chan = -1 \/ c = chan ->
  existsb (fun i => released (pins i)) (rev (upto 0 6)) = true ->
  let st' := Receiver.process_reset chan pins st in
  Receiver.load_invalid st' code c = true /\
  (forall code', Receiver.load_invalid
                   (Receiver.process_store code' c st') code' c = true /\
                 Receiver.load_invalid
                   (Receiver.process_store code' c st') (code' + 1) c = false).
Proof.
  intros Hchan Hc Hsel Hab st'. subst st'. split.
  - apply load_invalid_disabled.
    destruct (Z.eq_dec chan (-1)) as [-> | Hne].
    + rewrite reset_all_flag by (assumption || lia). discriminate.
    + assert (c = chan) as -> by (destruct Hsel; [contradiction | assumption]).
      rewrite process_reset_gate by lia. rewrite Hab. discriminate.
  - intros code'.
    destruct (store_reads (Receiver.process_reset chan pins st) code' c Hc)
      as [Hs Hcode].
    rewrite !(load_invalid_window _ _ c (code' + 1) Hs Hcode).
    replace (code' - (code' + 1)) with (-1) by lia.
    replace (code' + 1 - (code' + 1)) with 0 by lia.
    split; reflexivity.
Qed.

Lemma X11_reset_disables_witness :
  Receiver.load_invalid enrolled_store 150 7 = false /\
  Receiver.load_invalid
    (Receiver.process_reset (-1) (fun i => (false, negb (i =? 2)))
       enrolled_store) 150 7 = true.
Proof.
  split; [reflexivity |].
  refine (proj1 (X11_reset_disables enrolled_store
                   (fun i => (false, negb (i =? 2))) (-1) 7 150 _ _ _ _)).
  - unfold Receiver.MAX_CHANS. lia.
  - unfold Receiver.MAX_CHANS. lia.
  - left. reflexivity.
  - reflexivity.
Defined.

(** X12.  Whatever frame, pin state and key, handling one message
    uses a channel index in 0..15 and writes no EEPROM byte other than
    the four code bytes of that channel and the sixteen flag bytes: all
    other addresses, and the codes of the other channels, keep their
    contents. *)
Theorem X12_process_code_footprint (e : Blowfish.engine) (data : list Z)
    (f0 f1 : bool) (pins : Z -> bool * bool) (b : bool)
    (st : Receiver.state) (a : Z) :
  let chan := idx data 4 mod Receiver.MAX_CHANS in
  0 <= chan < Receiver.MAX_CHANS /\
  (~ (4 * chan <= a < 4 * chan + 4) ->
   ~ (Receiver.ADDRESS_STATE <= a
        < Receiver.ADDRESS_STATE + Receiver.MAX_CHANS) ->
   Receiver.eeprom (Receiver.process_code e data f0 f1 pins b st) a
   = Receiver.eeprom st a).
Proof.
  intros chan. pose proof (chan_in_range (idx data 4)) as Hc. fold chan in Hc.
  split; [exact Hc |]. intros Ha Hf.
  unfold Receiver.process_code. cbv zeta. fold chan.
  generalize (Blowfish.blowfish_decrypt e (load32 (of_array data))) as code.
  intros code. rewrite eeprom_set_PORTD.
  destruct (Receiver.get_command f0 f1).
  - now apply process_load_eeprom.
  - apply process_store_eeprom; try assumption.
    unfold Receiver.ADDRESS_STATE, Receiver.MAX_CHANS in *. lia.
  - destruct (process_reset_eeprom chan pins st a) as [E | [R _]];
      [lia | exact E | contradiction].
  - destruct (process_reset_eeprom (-1) pins st a) as [E | [R _]];
      [unfold Receiver.MAX_CHANS; lia | exact E | contradiction].
Qed.

(** The code a frame carries, as [process_code] recovers it. *)
Lemma frame_code (e : Blowfish.engine) (data : list Z) (code : Z) :
  Blowfish.valid_key e -> is_u32 code ->
  (forall j, 0 <= j < 4 ->
     idx data j = byte_of (Blowfish.blowfish_encrypt e code) j) ->
  Blowfish.blowfish_decrypt e (load32 (of_array data)) = code.
Proof.
  intros He Hcode Hd.
  assert (L : load32 (of_array data) = Blowfish.blowfish_encrypt e code).
  { rewrite <- (load32_byte_of (Blowfish.blowfish_encrypt e code))
      by now apply is_u32_encrypt.
    unfold load32, of_array. rewrite !Hd by lia. reflexivity. }
  rewrite L. exact (decrypt_encrypt e He code Hcode).
Qed.

(** X13.  The receiver recovers the rolling code a frame carries: when
    bytes 0..3 of the frame are the cipher block of [code] in native
    byte order, a Normal command runs [process_load] and a Store
    command runs [process_store] on exactly [code] and on channel
    [data[4] mod 16]. *)
Theorem X13_process_code_decodes (e : Blowfish.engine) (data : list Z)
    (code : Z) (pins : Z -> bool * bool) (b : bool) (st : Receiver.state) :
  Blowfish.valid_key e -> is_u32 code ->
  (forall j, 0 <= j < 4 ->
     idx data j = byte_of (Blowfish.blowfish_encrypt e code) j) ->
  let chan := idx data 4 mod Receiver.MAX_CHANS in
  Receiver.process_code e data false false pins b st =
    Receiver.set_PORTD 0x00 (Receiver.process_load code chan b st) /\
  Receiver.process_code e data false true pins b st =
    Receiver.set_PORTD 0x00 (Receiver.process_store code chan st).
Proof.
  intros He Hcode Hd chan.
  unfold Receiver.process_code. cbv zeta. fold chan.
  rewrite (frame_code e data code He Hcode Hd).
  cbn [Receiver.get_command negb andb]. split; reflexivity.
Qed.

Lemma X13_process_code_decodes_witness :
  Blowfish.valid_key sample_engine /\ is_u32 1 /\
  Receiver.process_code sample_engine [21; 82; 27; 177; 3; 0] false false
    (fun _ => (false, false)) true enrolled_store =
  Receiver.set_PORTD 0x00 (Receiver.process_load 1 3 true enrolled_store).
Proof.
  assert (H1 : is_u32 1) by (unfold is_u32; lia).
  split; [exact valid_sample_engine |]. split; [exact H1 |].
  refine (proj1 (X13_process_code_decodes sample_engine
                   [21; 82; 27; 177; 3; 0] 1 (fun _ => (false, false)) true
                   enrolled_store valid_sample_engine H1 _)).
  intros j Hj. assert (C : j = 0 \/ j = 1 \/ j = 2 \/ j = 3) by lia.
  destruct C as [-> | [-> | [-> | ->]]]; vm_compute; reflexivity.
Defined.

(** ** The transmitter: marker test, burned codes, persistence *)

Section MarkerTest.
Import Transmitter.

Lemma valid_message_from_values (n : nat) (data : ptr) :
  valid_message_from n data = 0 \/ valid_message_from n data = 1.
Proof.
  revert data. induction n as [| n IH]; intros data;
    cbn [valid_message_from]; [now right |].
  destruct (data 0 =? FRAME_MARK); [now left | apply IH].
Qed.

Lemma valid_message_from_hit (n : nat) (data : ptr) (j : Z) :
  0 <= j < Z.of_nat n -> data j = FRAME_MARK ->
  valid_message_from n data = 0.
Proof.
  intros Hj Hd. destruct (valid_message_from_values n data) as [E | E];
    [exact E |].
  assert (NZ : valid_message_from n data <> 0) by lia.
  exfalso. exact (valid_message_from_spec n data NZ j Hj Hd).
Qed.

Lemma valid_message_from_free (n : nat) (data : ptr) :
  (forall j, 0 <= j < Z.of_nat n -> data j <> FRAME_MARK) ->
  valid_message_from n data = 1.
Proof.
  revert data. induction n as [| n IH]; intros data H;
    cbn [valid_message_from]; [reflexivity |].
  destruct (Z.eqb_spec (data 0) FRAME_MARK) as [E | E].
  - exfalso. apply (H 0); [lia | exact E].
  - apply IH. intros j Hj. apply H. lia.
Qed.

(** The loop test on a buffer whose cells 0..3 hold the block. *)
Lemma marker_hit_test (m : list Z) (blk : Z) :
  (forall j, 0 <= j < 4 -> idx m j = byte_of blk j) ->
  (valid_message (of_array m) 6 =? 0) = marker_hit blk (idx m 4) (idx m 5).
Proof.
  intros Hlow. unfold valid_message, marker_hit.
  change (Z.to_nat 6) with 6%nat.
  destruct (existsb _ (upto 0 4) || (idx m 4 =? FRAME_MARK)
            || (idx m 5 =? FRAME_MARK)) eqn:C.
  - apply Z.eqb_eq.
    apply orb_true_iff in C as [C | C]; [apply orb_true_iff in C as [C | C] |].
    + apply existsb_exists in C as [j [Hin Hj]]. apply In_upto_lo in Hin.
      apply Z.eqb_eq in Hj.
      apply (valid_message_from_hit 6 _ j); [simpl in *; lia |].
      unfold of_array. rewrite Hlow by (simpl in Hin; lia). exact Hj.
    + apply Z.eqb_eq in C.
      apply (valid_message_from_hit 6 _ 4); [simpl; lia | exact C].
    + apply Z.eqb_eq in C.
      apply (valid_message_from_hit 6 _ 5); [simpl; lia | exact C].
  - apply Z.eqb_neq. rewrite valid_message_from_free; [lia |].
    apply orb_false_iff in C as [C C5]. apply orb_false_iff in C as [C C4].
    apply Z.eqb_neq in C4, C5.
    intros j Hj. unfold of_array.
    assert (Cj : j = 4 \/ j = 5 \/ 0 <= j < 4) by (simpl in Hj; lia).
    destruct Cj as [-> | [-> | Hlt]].
    + exact C4.
    + exact C5.
    + rewrite Hlow by assumption. intros E.
      assert (X : existsb (fun i => byte_of blk i =? FRAME_MARK) (upto 0 4)
                  = true).
      { apply existsb_exists. exists j. split.
        - apply In_upto_lo. simpl. lia.
        - now apply Z.eqb_eq. }
      rewrite X in C. discriminate C.
Qed.

Lemma marker_hit_cells (blk m4 m5 : Z) :
  marker_hit blk m4 m5 = false -> m4 <> FRAME_MARK /\ m5 <> FRAME_MARK.
Proof.
  unfold marker_hit. intros H.
  apply orb_false_iff in H as [H H5]. apply orb_false_iff in H as [_ H4].
  apply Z.eqb_neq in H4, H5. now split.
Qed.

Variable e : Blowfish.engine.

Lemma collides_marker_hit (c m4 m5 : Z) :
  collides e c m4 m5 = marker_hit (Blowfish.blowfish_encrypt e c) m4 m5.
Proof. reflexivity. Qed.

Lemma form_step_cells (code : Z) (mem : list Z) :
  length mem = 7%nat ->
  fst (form_step e code mem) = u32 (code + 1) /\
  length (snd (form_step e code mem)) = 7%nat /\
  idx (snd (form_step e code mem)) 4 = idx mem 4 /\
  idx (snd (form_step e code mem)) 5 = idx mem 5 /\
  forall j, 0 <= j < 4 ->
    idx (snd (form_step e code mem)) j
    = byte_of (Blowfish.blowfish_encrypt e (u32 (code + 1))) j.
Proof.
  intros L. unfold form_step. cbv zeta. cbn [fst snd].
  split; [reflexivity |]. split; [| split; [| split]].
  - now rewrite length_upd, length_store32.
  - rewrite idx_upd_other by lia. apply idx_store32_high. lia.
  - rewrite idx_upd_other by lia. apply idx_store32_high. lia.
  - intros j Hj. rewrite idx_upd_other by lia.
    apply idx_store32_low; lia.
Qed.

(** The loop test after one turn, read off the code and the two cells
    the loop does not write. *)
Lemma form_step_collides (code : Z) (mem : list Z) :
  length mem = 7%nat ->
  (valid_message (of_array (snd (form_step e code mem))) 6 =? 0) =
    collides e (u32 (code + 1)) (idx mem 4) (idx mem 5).
Proof.
  intros L. destruct (form_step_cells code mem L) as (_ & _ & H4 & H5 & Hlow).
  rewrite collides_marker_hit, <- H4, <- H5.
  apply marker_hit_test. exact Hlow.
Qed.

Lemma form_message_step (f : nat) (code : Z) (mem : list Z) :
  form_message (S f) e code mem =
    if valid_message (of_array (snd (form_step e code mem))) 6 =? 0
    then form_message f e (fst (form_step e code mem))
           (snd (form_step e code mem))
    else Some (form_step e code mem).
Proof.
  cbn [form_message]. destruct (form_step e code mem) as [c m]. reflexivity.
Qed.

(** The loop returns the first code after [code] whose six bytes are
    free of the marker, and gives up exactly when the fuel ends before
    such a code. *)
Lemma form_message_first_free (fuel : nat) (code : Z) (mem : list Z) :
  length mem = 7%nat ->
  match form_message fuel e code mem with
  | Some (code', mem') =>
      exists k, 1 <= k <= Z.of_nat fuel /\ code' = u32 (code + k) /\
        collides e code' (idx mem 4) (idx mem 5) = false /\
        forall j, 1 <= j < k ->
          collides e (u32 (code + j)) (idx mem 4) (idx mem 5) = true
  | None =>
      forall j, 1 <= j <= Z.of_nat fuel ->
        collides e (u32 (code + j)) (idx mem 4) (idx mem 5) = true
  end.
Proof.
  revert code mem. induction fuel as [| f IH]; intros code mem L.
  - cbn [form_message]. intros j Hj. simpl in Hj. lia.
  - rewrite form_message_step, (form_step_collides code mem L).
    destruct (form_step_cells code mem L) as (Hc & Hl & H4 & H5 & _).
    destruct (collides e (u32 (code + 1)) (idx mem 4) (idx mem 5)) eqn:C.
    + specialize (IH (fst (form_step e code mem))
                     (snd (form_step e code mem)) Hl).
      rewrite H4, H5, Hc in IH.
      assert (U : forall j, u32 (u32 (code + 1) + j) = u32 (code + (j + 1))).
      { intros j. unfold u32. rewrite Z.add_mod_idemp_l by lia.
        f_equal. lia. }
      destruct (form_message f e _ _) as [[c' m'] |].
      * destruct IH as (k & Hk & -> & Hfree & Hbefore).
        exists (k + 1). split; [lia |]. split; [apply U |].
        split; [exact Hfree |].
        intros j Hj. destruct (Z.eq_dec j 1) as [-> | Hne]; [exact C |].
        replace j with ((j - 1) + 1) by lia. rewrite <- U.
        apply Hbefore. lia.
      * intros j Hj. destruct (Z.eq_dec j 1) as [-> | Hne]; [exact C |].
        replace j with ((j - 1) + 1) by lia. rewrite <- U.
        apply IH. lia.
    + destruct (form_step e code mem) as [c m]. cbn [fst snd] in *.
      exists 1. split; [lia |]. subst c. split; [reflexivity |].
      split; [exact C |]. intros j Hj. lia.
Qed.

End MarkerTest.

(** X14.  [valid_message] answers 1 exactly when none of the first
    [num] bytes is the frame marker, and 0 otherwise. *)
Theorem X14_valid_message_iff (data : ptr) (num : Z) :
  (Transmitter.valid_message data num = 1 <->
   forall j, 0 <= j < num -> data j <> Transmitter.FRAME_MARK) /\
  (Transmitter.valid_message data num = 0 <->
   exists j, 0 <= j < num /\ data j = Transmitter.FRAME_MARK).
Proof.
  unfold Transmitter.valid_message.
  assert (R : forall j, 0 <= j < num <-> 0 <= j < Z.of_nat (Z.to_nat num))
    by (intros j; lia).
  assert (D : (forall j, 0 <= j < num -> data j <> Transmitter.FRAME_MARK) \/
              exists j, 0 <= j < num /\ data j = Transmitter.FRAME_MARK).
  { destruct (valid_message_from_values (Z.to_nat num) data)
      as [E | E].
    - right. destruct (Z.to_nat num) as [| n] eqn:N; [discriminate |].
      assert (G : forall m d, Transmitter.valid_message_from m d = 0 ->
                exists j, 0 <= j < Z.of_nat m /\ d j = Transmitter.FRAME_MARK).
      { induction m as [| m IHm]; intros d Hm;
          cbn [Transmitter.valid_message_from] in Hm; [discriminate |].
        destruct (Z.eqb_spec (d 0) Transmitter.FRAME_MARK) as [E0 | E0].
        - exists 0. split; [lia | exact E0].
        - apply IHm in Hm as [j [Hj Hd]]. exists (j + 1). split; [lia | exact Hd]. }
      apply G in E as [j [Hj Hd]]. exists j. split; [lia | exact Hd].
    - left. intros j Hj. apply (valid_message_from_spec (Z.to_nat num) data);
        [lia | lia]. }
  split; split.
  - intros H j Hj. apply (valid_message_from_spec (Z.to_nat num) data);
      [lia | lia].
  - intros H. apply valid_message_from_free. intros j Hj. apply H. lia.
  - intros H. destruct D as [D | D]; [| exact D].
    rewrite valid_message_from_free in H; [discriminate |].
    intros j Hj. apply D. lia.
  - intros [j [Hj Hd]]. apply (valid_message_from_hit _ _ j); [lia | exact Hd].
Qed.

Lemma X14_valid_message_iff_witness :
  Transmitter.valid_message (of_array [21; 82; 0x96; 177; 85; 0]) 6 = 0.
Proof.
  apply (proj2 (X14_valid_message_iff (of_array [21; 82; 0x96; 177; 85; 0]) 6)).
  exists 2. split; [lia | reflexivity].
Defined.

Section Persistence.
Import Transmitter.

Lemma eeprom_after_app (tr1 tr2 : list event) (ee : Z -> Z) :
  eeprom_after (tr1 ++ tr2) ee = eeprom_after tr2 (eeprom_after tr1 ee).
Proof. unfold eeprom_after. apply fold_left_app. Qed.

Lemma eeprom_after_no_write (tr : list event) (ee : Z -> Z) :
  forallb (fun ev => negb (is_write ev)) tr = true ->
  eeprom_after tr ee = ee.
Proof.
  unfold eeprom_after. revert ee. induction tr as [| ev tr IH]; intros ee H.
  - reflexivity.
  - cbn [forallb] in H. apply andb_true_iff in H as [Hev Htr].
    rewrite fold_left_step. destruct ev; cbn [is_write negb] in Hev;
      try discriminate Hev; cbn [apply_event]; now apply IH.
Qed.

Lemma read_code_write_code (code : Z) (ee : Z -> Z) :
  is_u32 code -> read_code (eeprom_after (write_code code) ee) = code.
Proof.
  intros Hc. rewrite <- (load32_byte_of code Hc) at 2.
  unfold read_code, load32, eeprom_after, write_code.
  change (upto 0 4) with [0; 1; 2; 3]. reflexivity.
Qed.

Lemma eeprom_after_write_code_other (code : Z) (ee : Z -> Z) (a : Z) :
  ~ (0 <= a < 4) -> eeprom_after (write_code code) ee a = ee a.
Proof.
  intros Ha. unfold eeprom_after, write_code.
  change (upto 0 4) with [0; 1; 2; 3]. cbn [map fold_left apply_event].
  repeat match goal with
    | |- context [?x =? ?y] => destruct (Z.eqb_spec x y); try lia
    end; try reflexivity.
Qed.

End Persistence.

(** X15.  After a completed trigger the EEPROM holds the code that
    was just sent: [read_code] at the next power-up returns the code
    [transmit_code] returned, which is the old code advanced by at
    least one, and no EEPROM byte beyond the first four has changed. *)
Theorem X15_trigger_persists_code (fuel : nat) (e : Blowfish.engine)
    (chan code : Z) (mem : list Z) (code' : Z)
    (tr : list Transmitter.event) (ee : Z -> Z) :
  length mem = 7%nat ->
  Transmitter.on_trigger fuel e chan code mem = Some (code', tr) ->
  Transmitter.read_code (eeprom_after tr ee) = code' /\
  (forall a, ~ (0 <= a < 4) -> eeprom_after tr ee a = ee a) /\
  exists k, 1 <= k <= Z.of_nat fuel /\ code' = u32 (code + k).
Proof.
  intros L H. apply on_trigger_trace in H as (mem' & Hf & ->).
  apply form_message_cells in Hf; [| now rewrite length_upd].
  destruct Hf as (_ & _ & _ & _ & _ & k & Hk & ->).
  assert (N : forallb (fun ev => negb (Transmitter.is_write ev))
                ([Transmitter.EvPower true] ++ Transmitter.burst mem' 16
                 ++ [Transmitter.EvPower false]) = true).
  { rewrite !forallb_app. cbn [forallb Transmitter.is_write negb andb].
    rewrite andb_true_r. pose proof (burst_sends mem' 16) as B.
    rewrite forallb_forall in B |- *. intros ev Hin. apply B in Hin.
    now destruct ev. }
  rewrite eeprom_after_app, (eeprom_after_no_write _ ee N).
  split; [| split].
  - apply read_code_write_code. unfold is_u32, u32.
    apply Z.mod_pos_bound. lia.
  - intros a Ha. now apply eeprom_after_write_code_other.
  - exists k. split; [exact Hk | reflexivity].
Qed.

Lemma X15_trigger_persists_code_witness :
  exists tr,
    Transmitter.on_trigger 4 sample_engine Transmitter.CHAN_NUM 0xFFFFFFFF
      stale_locals = Some (0, tr) /\
    Transmitter.read_code (eeprom_after tr (fun _ => 0xFF)) = 0.
Proof.
  eexists. split; [vm_compute; reflexivity |].
  refine (proj1 (X15_trigger_persists_code 4 sample_engine
                   Transmitter.CHAN_NUM 0xFFFFFFFF stale_locals 0 _
                   (fun _ => 0xFF) eq_refl _)).
  vm_compute. reflexivity.
Defined.

(** X16.  [transmit_code] never writes cell 4 of its buffer but tests
    it for the frame marker: when the byte found there (or the channel
    constant) is the marker, the message loop rejects every code and
    the function does not return, whatever the key and the fuel. *)
Theorem X16_stale_marker_never_returns (fuel : nat) (e : Blowfish.engine)
    (chan code cnt : Z) (mem : list Z) :
  length mem = 7%nat ->
  idx mem 4 = Transmitter.FRAME_MARK \/ chan = Transmitter.FRAME_MARK ->
  Transmitter.transmit_code fuel e chan code cnt mem = None.
Proof.
  intros L Hm. unfold Transmitter.transmit_code. cbv zeta.
  assert (L' : length (upd mem 5 chan) = 7%nat) by now rewrite length_upd.
  pose proof (form_message_first_free e fuel code (upd mem 5 chan) L') as F.
  rewrite idx_upd_other in F by lia.
  rewrite idx_upd_same in F by (rewrite L; simpl; lia).
  destruct (Transmitter.form_message fuel e code (upd mem 5 chan))
    as [[c m] |]; [| reflexivity].
  destruct F as (k & _ & _ & Hfree & _). exfalso.
  rewrite collides_marker_hit in Hfree.
  apply marker_hit_cells in Hfree as [H4 H5]. destruct Hm; contradiction.
Qed.

Lemma X16_stale_marker_never_returns_witness :
  Transmitter.transmit_code 1000 sample_engine Transmitter.CHAN_NUM 0 16
    [0; 0; 0; 0; 0x96; 0; 0] = None.
Proof.
  apply (X16_stale_marker_never_returns 1000 sample_engine
           Transmitter.CHAN_NUM 0 16 [0; 0; 0; 0; 0x96; 0; 0]).
  - reflexivity.
  - left. reflexivity.
Defined.

(** X17.  [transmit_code] burns codes: it returns the first code
    after [code] (modulo 2^32) for which none of the six bytes it tests
    is the frame marker, every code before that one having been
    skipped for a marker byte; and it does return as soon as the fuel
    reaches such a code. *)
Theorem X17_first_marker_free_code (fuel : nat) (e : Blowfish.engine)
    (chan code cnt : Z) (mem : list Z) :
  length mem = 7%nat ->
  (forall code' mem' tr,
     Transmitter.transmit_code fuel e chan code cnt mem
       = Some (code', mem', tr) ->
     exists k, 1 <= k <= Z.of_nat fuel /\ code' = u32 (code + k) /\
       collides e code' (idx mem 4) chan = false /\
       forall j, 1 <= j < k ->
         collides e (u32 (code + j)) (idx mem 4) chan = true) /\
  (forall k, 1 <= k <= Z.of_nat fuel ->
     collides e (u32 (code + k)) (idx mem 4) chan = false ->
     Transmitter.transmit_code fuel e chan code cnt mem <> None).
Proof.
  intros L. unfold Transmitter.transmit_code. cbv zeta.
  assert (L' : length (upd mem 5 chan) = 7%nat) by now rewrite length_upd.
  pose proof (form_message_first_free e fuel code (upd mem 5 chan) L') as F.
  rewrite idx_upd_other in F by lia.
  rewrite idx_upd_same in F by (rewrite L; simpl; lia).
  destruct (Transmitter.form_message fuel e code (upd mem 5 chan))
    as [[c m] |].
  - split.
    + intros code' mem' tr H. injection H as <- _ _. exact F.
    + intros k _ _. discriminate.
  - split.
    + intros code' mem' tr H. discriminate H.
    + intros k Hk Hfree. rewrite (F k Hk) in Hfree. discriminate Hfree.
Qed.

Lemma X17_first_marker_free_code_witness :
  length stale_locals = 7%nat /\
  Transmitter.transmit_code 4 sample_engine Transmitter.CHAN_NUM 0 1
    stale_locals <> None.
Proof.
  split; [reflexivity |].
  apply (proj2 (X17_first_marker_free_code 4 sample_engine
                  Transmitter.CHAN_NUM 0 1 stale_locals eq_refl) 1).
  - simpl. lia.
  - vm_compute. reflexivity.
Defined.


(** ** The seed prompt of the key generator *)

Section SeedLines.
Import KeyGen.

Lemma code_byte (c : ascii) : is_u8 (code c).
Proof.
  unfold is_u8, code. pose proof (N_ascii_bounded c) as H.
  change (2 ^ 8) with 256. lia.
Qed.

Lemma char_at_code (line : list ascii) (i : Z) :
  char_at line i = code (nth (Z.to_nat i) line zero).
Proof. reflexivity. Qed.

Lemma forallb_false_ex {A : Type} (f : A -> bool) (l : list A) :
  forallb f l = false -> exists x, In x l /\ f x = false.
Proof.
  induction l as [| a l IH]; cbn [forallb]; [discriminate |].
  destruct (f a) eqn:E; cbn [andb]; intros H.
  - destruct (IH H) as (x & Hin & Hx). exists x. split; [now right | exact Hx].
  - exists a. split; [now left | exact E].
Qed.

(** The lines [get_input] does not take. *)
Lemma get_input_line_none (line : list ascii) :
  get_input_line line = None <-> refused line.
Proof.
  unfold get_input_line, refused. cbv zeta. rewrite fold_left_andb.
  destruct (Z.gtb_spec (Z.of_nat (length line)) 0) as [Hpos | Hneg];
    cbn [andb].
  - destruct (forallb _ _) eqn:E.
    + split; [discriminate |].
      intros [-> | (c & Hin & Hc)]; [simpl in Hpos; lia |]. exfalso.
      destruct (In_nth _ _ zero Hin) as (n & Hn & Hc').
      rewrite forallb_forall in E.
      specialize (E (Z.of_nat n)). rewrite char_at_code, Nat2Z.id, Hc', Hc in E.
      assert (T : false = true) by (apply E, In_upto; lia).
      discriminate T.
    + split; [intros _ | reflexivity]. right.
      apply forallb_false_ex in E as (i & Hi & Hx). apply In_upto in Hi.
      exists (nth (Z.to_nat i) line zero). split; [| exact Hx].
      apply nth_In. lia.
  - split; [intros _ | reflexivity]. left.
    destruct line; [reflexivity | simpl in Hneg; lia].
Qed.

Lemma is_u8_xor_digits (dig : Z -> Z) (l : list Z) (buf : list Z) :
  Forall is_u8 buf -> Forall is_u8 (fold_left (xor_digit dig) l buf).
Proof.
  revert buf. induction l as [| i l IH]; intros buf H; cbn [fold_left].
  - exact H.
  - apply IH. unfold xor_digit. apply Forall_upd; [apply is_u8_u8 | exact H].
Qed.

(** What is left in [arr_key] is 36 bytes. *)
Lemma get_input_line_bytes (line : list ascii) (buf : list Z) :
  get_input_line line = Some buf -> length buf = 36%nat /\ Forall is_u8 buf.
Proof.
  intros H. apply get_input_line_ok in H as (_ & _ & ->). split.
  - rewrite length_xor_digits. reflexivity.
  - apply is_u8_xor_digits, Forall_repeat. unfold is_u8. lia.
Qed.

Lemma xor_digit_ext (d1 d2 : Z -> Z) (buf : list Z) (i : Z) :
  d1 i = d2 i -> xor_digit d1 buf i = xor_digit d2 buf i.
Proof. intros H. unfold xor_digit. now rewrite H. Qed.

End SeedLines.

(** X18.  [get_input] gives up exactly when every line it could read
    is refused, a line being refused when it is empty or holds a
    character that is no hexadecimal digit; otherwise the key buffer is
    that of the first line not refused, the lines before it having no
    effect, and it holds 36 bytes. *)
Theorem X18_get_input_first_taken (stdin : list (list ascii)) :
  (KeyGen.get_input stdin = None <-> Forall refused stdin) /\
  (forall key, KeyGen.get_input stdin = Some key ->
     exists before line after,
       stdin = before ++ line :: after /\ Forall refused before /\
       ~ refused line /\ KeyGen.get_input_line line = Some key /\
       length key = 36%nat /\ Forall is_u8 key).
Proof.
  induction stdin as [| line rest [IHn IHs]]; cbn [KeyGen.get_input].
  - split; [split; [constructor | reflexivity] | discriminate].
  - destruct (KeyGen.get_input_line line) as [k |] eqn:E.
    + assert (N : ~ refused line).
      { intros R. apply get_input_line_none in R. congruence. }
      split.
      * split; [discriminate |]. intros F. inversion F; subst. contradiction.
      * intros key H. injection H as <-.
        exists [], line, rest.
        destruct (get_input_line_bytes line k E) as [L B].
        repeat (split; [first [reflexivity | constructor | assumption] |]).
        exact B.
    + apply get_input_line_none in E. split.
      * rewrite IHn. split; [now constructor |].
        intros F. now inversion F.
      * intros key H.
        destruct (IHs key H) as (b & l & a & -> & Fb & Nl & Hl & L & B).
        exists (line :: b), l, a.
        split; [reflexivity |]. split; [now constructor |].
        split; [exact Nl |]. split; [exact Hl |]. split; [exact L | exact B].
Qed.

Lemma X18_get_input_first_taken_witness :
  exists key,
    KeyGen.get_input
      [[]; ["5"; "G"]%char; ["5"; "7"; "3"; "b"]%char; ["0"]%char]
    = Some key /\ length key = 36%nat /\ idx key 1 = 0x3B.
Proof.
  eexists. split; [vm_compute; reflexivity |].
  destruct (proj2 (X18_get_input_first_taken
                     [[]; ["5"; "G"]%char; ["5"; "7"; "3"; "b"]%char;
                      ["0"]%char]) _ eq_refl)
    as (b & l & a & _ & _ & _ & _ & L & _).
  split; [exact L | reflexivity].
Defined.

(** ** The generated key *)

Section GeneratedKey.
Import KeyGen.

Lemma get_input_bytes (stdin : list (list ascii)) (key : list Z) :
  get_input stdin = Some key -> length key = 36%nat /\ Forall is_u8 key.
Proof.
  induction stdin as [| line rest IH]; cbn [get_input]; [discriminate |].
  destruct (get_input_line line) as [k |] eqn:E; [| exact IH].
  intros H. injection H as <-. exact (get_input_line_bytes line k E).
Qed.

(** Two bytes make a 16-bit word. *)
Lemma table_key_words (key : list Z) :
  Forall is_u8 key -> table 18 (key_words key).
Proof.
  intros B. unfold table, key_words. split.
  - rewrite length_map. reflexivity.
  - apply Forall_forall. intros w Hw.
    apply in_map_iff in Hw as (k & <- & _).
    pose proof (is_u8_idx8 key (2 * k) B) as H0.
    pose proof (is_u8_idx8 key (2 * k + 1) B) as H1.
    unfold is_u8, is_u16 in *.
    change (2 ^ 8) with 256 in *. change (2 ^ 16) with 65536. lia.
Qed.

Lemma valid_globals0_key (kw : list Z) :
  table 18 kw -> valid_globals (globals0 kw).
Proof.
  intros K. destruct valid_globals0 as (_ & P & S).
  unfold valid_globals, globals0 in *.
  cbn [arr_key arr_p arr_s1 arr_s2 arr_s3 arr_s4] in *.
  split; [exact K |]. split; [exact P | exact S].
Qed.

(** The filling loops keep the arrays in shape. *)
Lemma valid_keygen (g : globals) :
  valid_globals g -> valid_globals (tables (blowfish_keygen g)).
Proof.
  intros V. rewrite keygen_as_schedule.
  assert (Vx : valid_globals (xor_key g)) by (apply valid_xor_key; exact V).
  assert (Lx : length (flat (xor_key g)) = 82%nat)
    by (apply length_flat, valid_sizes; exact Vx).
  assert (I0 : Inv (flat (xor_key g)) (mk_kstate (xor_key g) 0 [])).
  { constructor; cbn [tables block calls].
    - exact Vx.
    - exact I.
    - reflexivity.
    - cbn [map flat_map app length Nat.mul Nat.add skipn]. reflexivity.
    - intros [| k] c H; discriminate. }
  assert (A : aligned 0 schedule = true) by (vm_compute; reflexivity).
  pose proof (Inv_schedule (flat (xor_key g)) Lx schedule
                (mk_kstate (xor_key g) 0 [])) as H.
  cbn [calls length] in H. specialize (H A I0). cbv zeta in H.
  destruct H as [[Vf _ _ _ _] _]. exact Vf.
Qed.

End GeneratedKey.

(** X19.  Whatever is typed at the prompt, once the generator has
    taken a seed the arrays it leaves for key.h have their declared
    sizes (18 and four times 16 words, 82 in all) and hold 16-bit
    words; the firmware cipher loaded with them therefore has a valid
    key, under which decryption undoes encryption on every 32-bit
    block. *)
Theorem X19_generated_key_loads (stdin : list (list ascii))
    (st : KeyGen.kstate) :
  KeyGen.main stdin = Some st ->
  let g := KeyGen.tables st in
  KeyGen.valid_globals g /\ length (KeyGen.flat g) = 82%nat /\
  Blowfish.valid_key (loaded g) /\
  (forall x, is_u32 x ->
     Blowfish.blowfish_decrypt (loaded g)
       (Blowfish.blowfish_encrypt (loaded g) x) = x).
Proof.
  unfold KeyGen.main. destruct (KeyGen.get_input stdin) as [key |] eqn:E;
    [| discriminate].
  intros H. injection H as <-. cbv zeta.
  apply get_input_bytes in E as [_ B].
  pose proof (valid_keygen _ (valid_globals0_key _ (table_key_words key B)))
    as V.
  pose proof (valid_loaded _ V) as K.
  split; [exact V |]. split; [apply length_flat, valid_sizes; exact V |].
  split; [exact K |].
  intros x Hx. exact (decrypt_encrypt _ K x Hx).
Qed.

Lemma X19_generated_key_loads_witness :
  exists st,
    KeyGen.main [["5"; "7"; "3"; "B"; "E"; "1"; "5"; "A"]%char] = Some st /\
    Blowfish.valid_key (loaded (KeyGen.tables st)).
Proof.
  eexists. split; [vm_compute; reflexivity |].
  exact (proj1 (proj2 (proj2
           (X19_generated_key_loads
              [["5"; "7"; "3"; "B"; "E"; "1"; "5"; "A"]%char] _ eq_refl)))).
Defined.

(** ** Seeds that give the same key *)

Section SeedCollisions.
Import KeyGen.

(** [isxdigit] and [HEX2BIN] look at a character up to its case. *)
Lemma tolower_digit (x : Z) :
  is_u8 x ->
  isxdigit (tolower x) = isxdigit x /\ HEX2BIN (tolower x) = HEX2BIN x.
Proof.
  intros Hx.
  assert (T : (Bool.eqb (isxdigit (tolower x)) (isxdigit x)
               && (HEX2BIN (tolower x) =? HEX2BIN x)) = true).
  { revert x Hx.
    apply (forall_bytes
             (fun x => Bool.eqb (isxdigit (tolower x)) (isxdigit x)
                       && (HEX2BIN (tolower x) =? HEX2BIN x))).
    vm_compute. reflexivity. }
  apply andb_true_iff in T as [T1 T2].
  split; [now apply Bool.eqb_prop | now apply Z.eqb_eq].
Qed.

Lemma same_digit_reads (a b : ascii) :
  same_digit a b ->
  isxdigit (code a) = isxdigit (code b) /\
  HEX2BIN (code a) = HEX2BIN (code b).
Proof.
  unfold same_digit. intros H.
  destruct (tolower_digit (code a) (code_byte a)) as [Xa Ha].
  destruct (tolower_digit (code b) (code_byte b)) as [Xb Hb].
  rewrite <- Xa, <- Ha, <- Xb, <- Hb, H. now split.
Qed.

Lemma Forall2_nth_default {A : Type} (R : A -> A -> Prop) (l1 l2 : list A)
    (d : A) (n : nat) :
  R d d -> Forall2 R l1 l2 -> R (nth n l1 d) (nth n l2 d).
Proof.
  intros Hd F. revert n. induction F as [| x y l1 l2 Hxy F IH]; intros n.
  - destruct n; exact Hd.
  - destruct n as [| n]; [exact Hxy | apply IH].
Qed.

Lemma same_digit_char_at (l1 l2 : list ascii) (i : Z) :
  Forall2 same_digit l1 l2 ->
  isxdigit (char_at l1 i) = isxdigit (char_at l2 i) /\
  HEX2BIN (char_at l1 i) = HEX2BIN (char_at l2 i).
Proof.
  intros F. rewrite !char_at_code. apply same_digit_reads.
  apply Forall2_nth_default; [reflexivity | exact F].
Qed.

Lemma MAX_short (clen : Z) : clen <= 72 -> MAX clen (klen * 2) = 72.
Proof.
  intros H. unfold MAX, klen. destruct (Z.gtb_spec clen (36 * 2)); lia.
Qed.

Lemma MAX_long (clen : Z) : 72 <= clen -> MAX clen (klen * 2) = clen.
Proof.
  intros H. unfold MAX, klen. destruct (Z.gtb_spec clen (36 * 2)); lia.
Qed.

(** A character of a doubled line. *)
Lemma char_at_doubled (line : list ascii) (i : Z) :
  0 < Z.of_nat (length line) -> 0 <= i ->
  char_at (line ++ line) (i mod Z.of_nat (length (line ++ line)))
  = char_at line (i mod Z.of_nat (length line)).
Proof.
  intros Hpos Hi. rewrite length_app, Nat2Z.inj_add.
  set (n := Z.of_nat (length line)) in *.
  pose proof (Z.mod_pos_bound i (n + n) ltac:(lia)) as Hj.
  assert (E : i mod n = (i mod (n + n)) mod n).
  { rewrite (Z.div_mod i (n + n)) at 1 by lia.
    replace ((n + n) * (i / (n + n)) + i mod (n + n))
      with (i mod (n + n) + (2 * (i / (n + n))) * n) by lia.
    apply Z_mod_plus_full. }
  rewrite E. unfold char_at.
  destruct (Z.lt_ge_cases (i mod (n + n)) n) as [Hlt | Hge].
  - rewrite (Z.mod_small (i mod (n + n)) n) by lia.
    rewrite app_nth1 by lia. reflexivity.
  - rewrite <- (Z.mod_unique_pos (i mod (n + n)) n 1 (i mod (n + n) - n))
      by lia.
    rewrite app_nth2 by lia. do 3 f_equal. lia.
Qed.

(** 144 digits go round the 36 zeroed bytes twice. *)
Lemma pack144_with (f : Z -> Z -> Z -> Z) (dig : Z -> Z) :
  fold_left (store_with f dig) (upto 0 144) (repeat 0 36%nat) =
  map (fun k => f (f (f (f 0 (dig (2 * k)) 4) (dig (2 * k + 1)) 0)
                     (dig (72 + 2 * k)) 4) (dig (72 + 2 * k + 1)) 0)
      (upto 0 36).
Proof. vm_compute. reflexivity. Qed.

Lemma u8_small (x : Z) : is_u8 x -> u8 x = x.
Proof. intros H. now apply is_u8_mod. Qed.

Lemma is_u8_nibble (d s : Z) :
  0 <= d < 16 -> s = 0 \/ s = 4 -> is_u8 (Z.shiftl d s).
Proof.
  intros Hd [-> | ->]; rewrite Z.shiftl_mul_pow2 by lia; unfold is_u8;
    change (2 ^ 0) with 1; change (2 ^ 4) with 16; change (2 ^ 8) with 256;
    lia.
Qed.

(** Two more digits XORed into a byte. *)
Lemma xor_byte_more (v c d : Z) :
  is_u8 v -> 0 <= c < 16 -> 0 <= d < 16 ->
  xor_byte (xor_byte v c 4) d 0 = Z.lxor v (xor_byte (xor_byte 0 c 4) d 0).
Proof.
  intros Hv Hc Hd. unfold xor_byte.
  pose proof (is_u8_nibble c 4 Hc (or_intror eq_refl)) as C.
  pose proof (is_u8_nibble d 0 Hd (or_introl eq_refl)) as D.
  rewrite Z.lxor_0_l.
  rewrite (u8_small (Z.shiftl c 4)) by exact C.
  rewrite (u8_small (Z.lxor v (Z.shiftl c 4))) by now apply is_u8_lxor.
  rewrite !u8_small by (repeat apply is_u8_lxor; assumption).
  apply Z.lxor_assoc.
Qed.

Lemma is_u8_xor_byte (old d s : Z) : is_u8 (xor_byte old d s).
Proof. unfold xor_byte. apply is_u8_u8. Qed.

(** 144 digits leave the XOR of what the first 72 and the last 72
    leave. *)
Lemma fold144 (d1 d2 d12 : Z -> Z) :
  (forall j, 0 <= j < 72 ->
     d12 j = d1 j /\ d12 (72 + j) = d2 j /\ 0 <= d2 j < 16) ->
  fold_left (xor_digit d12) (upto 0 144) (repeat 0 36%nat) =
  xor_bytes (fold_left (xor_digit d1) (upto 0 72) (repeat 0 36%nat))
            (fold_left (xor_digit d2) (upto 0 72) (repeat 0 36%nat)).
Proof.
  intros H.
  rewrite (xor_digit_store d12), (xor_digit_store d1), (xor_digit_store d2).
  rewrite pack144_with, !pack72_with.
  unfold xor_bytes. apply map_ext_in. intros k Hk. apply In_upto in Hk.
  rewrite !idx_map_upto by lia.
  destruct (H (2 * k)) as (E0 & E2 & R0); [lia |].
  destruct (H (2 * k + 1)) as (E1 & E3 & R1); [lia |].
  replace (72 + 2 * k + 1) with (72 + (2 * k + 1)) by lia.
  rewrite E0, E1, E2, E3.
  apply xor_byte_more; [apply is_u8_xor_byte | exact R0 | exact R1].
Qed.

Lemma xor_bytes_same (b : list Z) : xor_bytes b b = repeat 0 36%nat.
Proof.
  unfold xor_bytes.
  rewrite (map_ext _ (fun _ => 0)) by (intros k; apply Z.lxor_nilpotent).
  reflexivity.
Qed.

(** The line of two seeds of 72 digits put one after the other. *)
Lemma two_halves (l1 l2 : list ascii) (b1 b2 : list Z) :
  length l1 = 72%nat -> length l2 = 72%nat ->
  get_input_line l1 = Some b1 -> get_input_line l2 = Some b2 ->
  get_input_line (l1 ++ l2) = Some (xor_bytes b1 b2).
Proof.
  intros L1 L2 H1 H2.
  apply get_input_line_ok in H1 as (_ & X1 & ->).
  apply get_input_line_ok in H2 as (_ & X2 & ->).
  rewrite L1 in *. rewrite L2 in *.
  assert (L : length (l1 ++ l2) = 144%nat) by (rewrite length_app; lia).
  assert (C1 : forall j, 0 <= j < 72 -> char_at (l1 ++ l2) j = char_at l1 j).
  { intros j Hj. unfold char_at. rewrite app_nth1 by lia. reflexivity. }
  assert (C2 : forall j, 0 <= j < 72 ->
                 char_at (l1 ++ l2) (72 + j) = char_at l2 j).
  { intros j Hj. unfold char_at. rewrite app_nth2 by lia.
    do 3 f_equal. lia. }
  rewrite get_input_line_some.
  - f_equal. rewrite L. change (Z.of_nat 144) with 144.
    change (Z.of_nat 72) with 72.
    rewrite (MAX_long 144), !(MAX_short 72) by lia.
    change (Z.to_nat 144) with 144%nat. change (Z.to_nat 72) with 72%nat.
    change (Z.to_nat klen) with 36%nat.
    apply fold144. intros j Hj. cbv beta.
    rewrite !Z.mod_small by lia. rewrite C1, C2 by lia.
    split; [reflexivity |]. split; [reflexivity |].
    apply HEX2BIN_range, X2. change (Z.of_nat 72) with 72. lia.
  - rewrite L. lia.
  - rewrite L. change (Z.of_nat 144) with 144. intros i Hi.
    change (Z.of_nat 72) with 72 in X1, X2.
    destruct (Z.lt_ge_cases i 72) as [Hlt | Hge].
    + rewrite C1 by lia. apply X1. lia.
    + replace i with (72 + (i - 72)) by lia. rewrite C2 by lia.
      apply X2. lia.
Qed.

End SeedCollisions.

(** X20.  The seed is read without regard to case: two lines that
    differ only in the case of their characters are both refused or
    leave the same key bytes. *)
Theorem X20_seed_case_insensitive (l1 l2 : list ascii) :
  Forall2 same_digit l1 l2 ->
  KeyGen.get_input_line l1 = KeyGen.get_input_line l2.
Proof.
  intros F. unfold KeyGen.get_input_line. cbv zeta.
  rewrite <- (Forall2_length F).
  rewrite (fold_left_ext_in
             (fun ok i => ok && KeyGen.isxdigit (KeyGen.char_at l2 i))
             (fun ok i => ok && KeyGen.isxdigit (KeyGen.char_at l1 i)))
    by (intros a i _; now rewrite (proj1 (same_digit_char_at l1 l2 i F))).
  destruct (fold_left _ _ (Z.of_nat (length l1) >? 0)); [| reflexivity].
  f_equal. apply fold_left_ext_in. intros a i _.
  apply xor_digit_ext. cbv beta. apply same_digit_char_at, F.
Qed.

Lemma X20_seed_case_insensitive_witness :
  KeyGen.get_input_line ["5"; "7"; "3"; "b"; "e"; "1"; "5"; "a"]%char =
  KeyGen.get_input_line ["5"; "7"; "3"; "B"; "E"; "1"; "5"; "A"]%char.
Proof.
  apply X20_seed_case_insensitive.
  repeat (apply Forall2_cons; [vm_compute; reflexivity |]).
  apply Forall2_nil.
Defined.

(** X21.  A seed of at most 36 digits and the same seed typed twice
    in a row give the same key bytes (both are repeated to 72 digits);
    when one is refused so is the other. *)
Theorem X21_doubled_seed_same_key (line : list ascii) :
  (length line <= 36)%nat ->
  KeyGen.get_input_line (line ++ line) = KeyGen.get_input_line line.
Proof.
  intros Hlen. destruct (KeyGen.get_input_line line) as [buf |] eqn:E.
  - apply get_input_line_ok in E as (Hpos & Hx & ->).
    rewrite get_input_line_some.
    + f_equal. rewrite !MAX_short by (rewrite ?length_app; lia).
      apply fold_left_ext_in. intros a i Hi. apply In_upto in Hi.
      apply xor_digit_ext. cbv beta. apply f_equal.
      apply char_at_doubled; lia.
    + rewrite length_app. lia.
    + intros i Hi.
      rewrite <- (Z.mod_small i (Z.of_nat (length (line ++ line)))) by lia.
      rewrite char_at_doubled by lia. apply Hx, Z.mod_pos_bound. lia.
  - apply get_input_line_none in E. apply get_input_line_none.
    destruct E as [-> | (c & Hin & Hc)]; [now left |].
    right. exists c. split; [apply in_or_app; now left | exact Hc].
Qed.

Lemma X21_doubled_seed_same_key_witness :
  KeyGen.get_input_line (["A"; "7"; "f"]%char ++ ["A"; "7"; "f"]%char) =
  KeyGen.get_input_line ["A"; "7"; "f"]%char.
Proof. apply X21_doubled_seed_same_key. simpl. lia. Defined.

(** X22.  Digits beyond the 72nd are folded back by XOR: the key
    bytes of a seed of 144 digits are the XOR of the key bytes of its
    two halves, so a seed of 72 digits typed twice in a row leaves the
    all-zero key, whatever the digits. *)
Theorem X22_long_seed_folds (l1 l2 : list ascii) (b1 b2 : list Z) :
  length l1 = 72%nat -> length l2 = 72%nat ->
  KeyGen.get_input_line l1 = Some b1 -> KeyGen.get_input_line l2 = Some b2 ->
  KeyGen.get_input_line (l1 ++ l2) = Some (xor_bytes b1 b2) /\
  KeyGen.get_input_line (l1 ++ l1) = Some (repeat 0 36%nat).
Proof.
  intros L1 L2 H1 H2. split.
  - exact (two_halves l1 l2 b1 b2 L1 L2 H1 H2).
  - rewrite (two_halves l1 l1 b1 b1 L1 L1 H1 H1). f_equal.
    apply xor_bytes_same.
Qed.

Lemma X22_long_seed_folds_witness :
  KeyGen.get_input_line (repeat "7"%char 72 ++ repeat "7"%char 72)
  = Some (repeat 0 36%nat).
Proof.
  refine (proj2 (X22_long_seed_folds (repeat "7"%char 72)
                   (repeat "7"%char 72) (repeat 0x77 36%nat)
                   (repeat 0x77 36%nat) _ _ _ _));
    vm_compute; reflexivity.
Defined.


(** ** The main loop of the receiver *)

Section MainLoop.
Import Receiver.

Lemma poll_marker_hit (p : Z * bool) (s : list (Z * bool)) :
  fst p = FRAME_MARK \/ snd p = true -> poll_marker (p :: s) = Some s.
Proof.
  destruct p as [b err]. cbn [poll_marker fst snd]. intros [-> | ->].
  - now rewrite Z.eqb_refl.
  - now rewrite andb_false_r.
Qed.

Lemma receive_code_polled (fuel : nat) (data frame : list Z)
    (s rest : list (Z * bool)) :
  length data = 6%nat -> length frame = 6%nat ->
  frame_ok frame = true ->
  poll_marker s = Some (clean frame ++ rest) ->
  receive_code (S fuel) data s = Some (frame, rest).
Proof.
  intros L L' Hok P.
  rewrite receive_code_step, P, collect_clean by assumption.
  rewrite Hok. reflexivity.
Qed.

Lemma process_code_normal (e : Blowfish.engine) (data : list Z) (code : Z)
    (pins : Z -> bool * bool) (b : bool) (st : state) :
  Blowfish.valid_key e -> is_u32 code ->
  (forall j, 0 <= j < 4 ->
     idx data j = byte_of (Blowfish.blowfish_encrypt e code) j) ->
  process_code e data false false pins b st =
    set_PORTD 0x00 (process_load code (idx data 4 mod MAX_CHANS) b st).
Proof.
  intros He Hcode Hd. unfold process_code. cbv zeta.
  rewrite (frame_code e data code He Hcode Hd). reflexivity.
Qed.

Lemma load_invalid_set_PORTD (v : Z) (st : state) (code chan : Z) :
  load_invalid (set_PORTD v st) code chan = load_invalid st code chan.
Proof. reflexivity. Qed.

(** The code just accepted is behind the window. *)
Lemma load_invalid_spent (st : state) (code chan : Z) (b : bool) :
  0 <= chan < MAX_CHANS ->
  load_invalid st code chan = false ->
  load_invalid (process_load code chan b st) code chan = true.
Proof.
  intros Hc Hv. destruct (load_reads st code chan b Hc Hv) as [Hs Hl].
  rewrite (load_invalid_window _ code chan (code + 1) Hs Hl).
  replace (code - (code + 1)) with (-1) by lia. reflexivity.
Qed.

End MainLoop.

(** X23.  Two turns of the receiver's main loop on a frame sent
    twice: a frame that passes the checksum test and carries the cipher
    block of a code inside the channel's window is taken as a Normal
    command and moves the stored code to [code + 1]; the same frame
    arriving again is received, decoded to the same code and rejected,
    leaving the EEPROM and the bolt drive as they were. *)
Theorem X23_replayed_frame_rejected (fuel fuel' : nat) (e : Blowfish.engine)
    (data frame : list Z) (code : Z) (p1 p2 : Z * bool)
    (rest : list (Z * bool)) (pins pins' : Z -> bool * bool) (b b' : bool)
    (st : Receiver.state) :
  Blowfish.valid_key e -> is_u32 code ->
  length data = 6%nat -> length frame = 6%nat ->
  Receiver.frame_ok frame = true ->
  (forall j, 0 <= j < 4 ->
     idx frame j = byte_of (Blowfish.blowfish_encrypt e code) j) ->
  fst p1 = Receiver.FRAME_MARK \/ snd p1 = true ->
  fst p2 = Receiver.FRAME_MARK \/ snd p2 = true ->
  Receiver.load_invalid st code (idx frame 4 mod Receiver.MAX_CHANS) = false ->
  let chan := idx frame 4 mod Receiver.MAX_CHANS in
  let st1 := Receiver.set_PORTD 0x00 (Receiver.process_load code chan b st) in
  main_turn (S fuel) e data
    (p1 :: clean frame ++ p2 :: clean frame ++ rest) false false pins b st
  = Some (frame, p2 :: clean frame ++ rest, st1) /\
  Receiver.read_channel_code st1 chan = u32 (code + 1) /\
  main_turn (S fuel') e frame (p2 :: clean frame ++ rest)
    false false pins' b' st1
  = Some (frame, rest,
          Receiver.set_PORTD 0x00 (Receiver.set_PORTD 0x30 st1)).
Proof.
  intros He Hcode L L' Hok Hd Hp1 Hp2 Hv chan st1.
  assert (Hc : 0 <= chan < Receiver.MAX_CHANS) by apply chan_in_range.
  fold chan in Hv.
  split; [| split].
  - unfold main_turn.
    rewrite (receive_code_polled fuel data frame _ _ L L' Hok
               (poll_marker_hit p1 _ Hp1)).
    rewrite (process_code_normal e frame code pins b st He Hcode Hd).
    reflexivity.
  - exact (proj2 (load_reads st code chan b Hc Hv)).
  - unfold main_turn.
    rewrite (receive_code_polled fuel' frame frame _ _ L' L' Hok
               (poll_marker_hit p2 _ Hp2)).
    rewrite (process_code_normal e frame code pins' b' st1 He Hcode Hd).
    fold chan.
    rewrite (process_load_invalid st1 code chan b'); [reflexivity |].
    unfold st1. rewrite load_invalid_set_PORTD.
    exact (load_invalid_spent st code chan b Hc Hv).
Qed.

Lemma X23_replayed_frame_rejected_witness :
  main_turn 1 sample_engine [21; 82; 27; 177; 85; 48]
    ((0x96, false) :: clean [21; 82; 27; 177; 85; 48] ++ [])
    false false (fun _ => (false, false)) true
    (Receiver.set_PORTD 0x00 (Receiver.process_load 1 5 true fresh_store))
  = Some ([21; 82; 27; 177; 85; 48], [],
          Receiver.set_PORTD 0x00
            (Receiver.set_PORTD 0x30
               (Receiver.set_PORTD 0x00
                  (Receiver.process_load 1 5 true fresh_store)))).
Proof.
  assert (H1 : is_u32 1) by (unfold is_u32; lia).
  refine (proj2 (proj2 (X23_replayed_frame_rejected 0 0 sample_engine
            [0; 0; 0; 0; 0; 0] [21; 82; 27; 177; 85; 48] 1
            (0x96, false) (0x96, false) []
            (fun _ => (false, false)) (fun _ => (false, false)) true true
            fresh_store
            valid_sample_engine H1 eq_refl eq_refl _ _ _ _ _))).
  - vm_compute. reflexivity.
  - intros j Hj. assert (C : j = 0 \/ j = 1 \/ j = 2 \/ j = 3) by lia.
    destruct C as [-> | [-> | [-> | ->]]]; vm_compute; reflexivity.
  - left. reflexivity.
  - left. reflexivity.
  - vm_compute. reflexivity.
Defined.

(** ** Synchronisation *)

Section Synchronize.

Lemma manchester_synchronize_step (f : nat) (err_cnt : Z) (data : list Z)
    (b : Z) (err : bool) (s1 : list (Z * bool)) (synchro : nat) :
  manchester_synchronize (S f) err_cnt data ((b, err) :: s1) synchro =
    if (b =? Receiver.FRAME_MARK) && negb err then
      match collect 6 0 data s1 with
      | None => None
      | Some (ok, data, s2) =>
          if ok && Receiver.frame_ok data then Some (data, s2, synchro)
          else manchester_synchronize f
                 (if ok then err_cnt else u8 (err_cnt + 1)) data s2 synchro
      end
    else
      if u8 (err_cnt + 1) >? MAX_ERR_CNT
      then manchester_synchronize f 0 data s1 (S synchro)
      else manchester_synchronize f (u8 (err_cnt + 1)) data s1 synchro.
Proof. reflexivity. Qed.

Lemma synchronize_sound (fuel : nat) (err_cnt : Z) (data : list Z)
    (s : list (Z * bool)) (n : nat) (data' : list Z)
    (rest : list (Z * bool)) (k : nat) :
  length data = 6%nat ->
  manchester_synchronize fuel err_cnt data s n = Some (data', rest, k) ->
  Receiver.frame_ok data' = true /\ length data' = 6%nat /\
  exists before,
    s = before ++ (Receiver.FRAME_MARK, false) :: clean data' ++ rest /\
    (n <= k <= n + length before)%nat.
Proof.
  revert err_cnt data s n.
  induction fuel as [| f IH]; intros err_cnt data s n L H; [discriminate |].
  destruct s as [| [b err] s1]; [discriminate |].
  rewrite manchester_synchronize_step in H.
  destruct ((b =? Receiver.FRAME_MARK) && negb err) eqn:M.
  - apply andb_true_iff in M as [Mb Me]. apply Z.eqb_eq in Mb.
    apply negb_true_iff in Me. subst b err.
    destruct (collect 6 0 data s1) as [[[ok d2] s2] |] eqn:C;
      [| discriminate].
    destruct (ok && Receiver.frame_ok d2) eqn:E.
    + injection H as <- <- <-. apply andb_true_iff in E as [-> E].
      apply collect_six in C as [-> L2]; [| exact L].
      split; [exact E |]. split; [exact L2 |]. exists []. split.
      * reflexivity.
      * cbn [length]. lia.
    + assert (L2 : length d2 = 6%nat)
        by (apply length_collect in C; now rewrite C).
      apply collect_suffix in C as [c ->].
      destruct (IH _ d2 s2 n L2 H) as (Hok & Hl & before & -> & Hk).
      split; [exact Hok |]. split; [exact Hl |].
      exists ((Receiver.FRAME_MARK, false) :: c ++ before). split.
      * cbn [app]. now rewrite <- !app_assoc.
      * cbn [length]. rewrite length_app. lia.
  - destruct (u8 (err_cnt + 1) >? MAX_ERR_CNT).
    + destruct (IH _ data s1 (S n) L H) as (Hok & Hl & before & -> & Hk).
      split; [exact Hok |]. split; [exact Hl |].
      exists ((b, err) :: before). split; [reflexivity |].
      cbn [length]. lia.
    + destruct (IH _ data s1 n L H) as (Hok & Hl & before & -> & Hk).
      split; [exact Hok |]. split; [exact Hl |].
      exists ((b, err) :: before). split; [reflexivity |].
      cbn [length]. lia.
Qed.

End Synchronize.

(** X24.  [manchester_synchronize] comes back only with a buffer that
    passes the checksum test and whose six bytes arrived without error
    directly after a frame marker that itself arrived without error (a
    sample with a receive error starts no frame here, unlike in
    [receive_code]); it has then called [man_synchro] at most once per
    sample skipped before that marker, whatever the uninitialised
    [err_cnt] held.  And it does come back, without calling
    [man_synchro], when such a frame is the first thing received. *)
Theorem X24_synchronize_frame (fuel : nat) (err_cnt : Z) (data : list Z)
    (s : list (Z * bool)) :
  length data = 6%nat ->
  (forall data' rest k,
     manchester_synchronize fuel err_cnt data s 0 = Some (data', rest, k) ->
     Receiver.frame_ok data' = true /\
     exists before,
       s = before ++ (Receiver.FRAME_MARK, false) :: clean data' ++ rest /\
       (k <= length before)%nat) /\
  (forall frame rest,
     length frame = 6%nat -> Receiver.frame_ok frame = true ->
     manchester_synchronize (S fuel) err_cnt data
       ((Receiver.FRAME_MARK, false) :: clean frame ++ rest) 0
     = Some (frame, rest, 0%nat)).
Proof.
  intros L. split.
  - intros data' rest k H.
    destruct (synchronize_sound fuel err_cnt data s 0 data' rest k L H)
      as (Hok & _ & before & Hs & Hk).
    split; [exact Hok |]. exists before. split; [exact Hs | lia].
  - intros frame rest L' Hok.
    rewrite manchester_synchronize_step, Z.eqb_refl. cbn [negb andb].
    rewrite collect_clean by assumption. rewrite Hok. reflexivity.
Qed.

Lemma X24_synchronize_frame_witness :
  manchester_synchronize 1 200 [0; 0; 0; 0; 0; 0]
    ((0x96, false) :: clean [21; 82; 27; 177; 85; 48] ++ [(7, true)]) 0
  = Some ([21; 82; 27; 177; 85; 48], [(7, true)], 0%nat).
Proof.
  apply (proj2 (X24_synchronize_frame 0 200 [0; 0; 0; 0; 0; 0]
                  ((0x96, false) :: clean [21; 82; 27; 177; 85; 48]
                   ++ [(7, true)]) eq_refl)).
  - reflexivity.
  - vm_compute. reflexivity.
Defined.


(** ** What the checksum detects *)

Section ErrorPatterns.

Lemma lxor_inj_l (c x y : Z) : Z.lxor c x = Z.lxor c y -> x = y.
Proof.
  intros H. rewrite <- (Z.lxor_0_l x), <- (Z.lxor_0_l y).
  rewrite <- (Z.lxor_nilpotent c), !Z.lxor_assoc. now rewrite H.
Qed.

Lemma codeword_iff (e : list Z) :
  codeword e = true <-> crc_from 0 (of_array e) 5 = idx e 5.
Proof. unfold codeword. apply Z.eqb_eq. Qed.

(** A corrupted frame passes exactly when the error is a codeword. *)
Lemma error_passes_iff (data data' e : list Z) :
  Forall is_u8 data -> Forall is_u8 e ->
  Receiver.frame_ok data = true ->
  (forall j, 0 <= j < 6 -> idx data' j = Z.lxor (idx data j) (idx e j)) ->
  Receiver.frame_ok data' = true <-> codeword e = true.
Proof.
  intros B Be Hok Hx. apply frame_ok_iff in Hok.
  rewrite frame_ok_iff, codeword_iff.
  rewrite (crc_from_ext (of_array data')
             (xor_ptr (of_array data) (of_array e)))
    by (intros j Hj; unfold of_array, xor_ptr; apply Hx; lia).
  assert (Hd : forall j, 0 <= j < 5 ->
            is_u8 (of_array data j) /\ is_u8 (of_array e j)).
  { intros j Hj. unfold of_array. split; now apply is_u8_idx8. }
  rewrite (crc_from_lxor_FF (of_array data) (of_array e) 5 Hd).
  rewrite Hok, (Hx 5) by lia. split; intros H.
  - exact (lxor_inj_l _ _ _ H).
  - now rewrite H.
Qed.

Lemma error_detected (data data' e : list Z) :
  Forall is_u8 data -> Forall is_u8 e ->
  Receiver.frame_ok data = true ->
  (forall j, 0 <= j < 6 -> idx data' j = Z.lxor (idx data j) (idx e j)) ->
  codeword e = false -> Receiver.frame_ok data' = false.
Proof.
  intros B Be Hok Hx Hc.
  destruct (Receiver.frame_ok data') eqn:E; [| reflexivity].
  apply (error_passes_iff data data' e B Be Hok Hx) in E.
  rewrite Hc in E. discriminate E.
Qed.

Lemma idx_xor_frame (data e : list Z) (j : Z) :
  0 <= j < 6 -> idx (xor_frame data e) j = Z.lxor (idx data j) (idx e j).
Proof.
  intros Hj. unfold xor_frame.
  apply (idx_map_upto (fun k => Z.lxor (idx data k) (idx e k)) 6 j). lia.
Qed.

Lemma idx_zeros6 (j : Z) : idx zeros6 j = 0.
Proof. unfold idx, zeros6. apply nth_repeat. Qed.

Lemma is_u8_flip_bit (e : list Z) (i b : Z) :
  0 <= b < 8 -> Forall is_u8 e -> Forall is_u8 (flip_bit e i b).
Proof.
  intros Hb B. unfold flip_bit. apply Forall_upd; [| exact B].
  apply is_u8_lxor; [now apply is_u8_idx8 | now apply is_u8_pow2].
Qed.

(** Inverting a bit of the frame inverts it in the error pattern. *)
Lemma corrupted_flip (d d' e : list Z) (i b : Z) :
  0 <= i < 6 -> corrupted d d' e ->
  corrupted d (flip_bit d' i b) (flip_bit e i b).
Proof.
  intros Hi (L & L' & H). unfold corrupted, flip_bit.
  rewrite !length_upd. split; [exact L |]. split; [exact L' |].
  intros j Hj. destruct (Z.eq_dec j i) as [-> | Hne].
  - rewrite !idx_upd_same by (rewrite ?L, ?L'; simpl; lia).
    rewrite H by lia. apply Z.lxor_assoc.
  - rewrite !idx_upd_other by lia. now apply H.
Qed.

Lemma corrupted_zeros (d : list Z) :
  length d = 6%nat -> corrupted d d zeros6.
Proof.
  intros L. split; [exact L |]. split; [reflexivity |].
  intros j _. now rewrite idx_zeros6, Z.lxor_0_r.
Qed.

Lemma length_flip_bit (e : list Z) (i b : Z) :
  length (flip_bit e i b) = length e.
Proof. apply length_upd. Qed.

Lemma is_u8_zeros6 : Forall is_u8 zeros6.
Proof. apply Forall_repeat. unfold is_u8. lia. Qed.

Lemma forallb_upto (P : Z -> bool) (n : nat) (i : Z) :
  forallb P (upto 0 n) = true -> 0 <= i < Z.of_nat n -> P i = true.
Proof.
  intros H Hi. rewrite forallb_forall in H. apply H. now apply In_upto.
Qed.

(** No pattern of two inverted bits is a codeword. *)
Lemma two_bits_table :
  forallb (fun i => forallb (fun b => forallb (fun i' => forallb (fun b' =>
    ((i =? i') && (b =? b'))
    || negb (codeword (flip_bit (flip_bit zeros6 i b) i' b')))
    (upto 0 8)) (upto 0 6)) (upto 0 8)) (upto 0 6) = true.
Proof. vm_compute. reflexivity. Qed.

Lemma two_bits_no_codeword (i b i' b' : Z) :
  0 <= i < 6 -> 0 <= b < 8 -> 0 <= i' < 6 -> 0 <= b' < 8 ->
  i <> i' \/ b <> b' ->
  codeword (flip_bit (flip_bit zeros6 i b) i' b') = false.
Proof.
  intros Hi Hb Hi' Hb' Hne. pose proof two_bits_table as T.
  apply (forallb_upto _ _ i) in T; [| simpl; lia].
  apply (forallb_upto _ _ b) in T; [| simpl; lia].
  apply (forallb_upto _ _ i') in T; [| simpl; lia].
  apply (forallb_upto _ _ b') in T; [| simpl; lia].
  apply orb_true_iff in T as [T | T].
  - apply andb_true_iff in T as [T1 T2].
    apply Z.eqb_eq in T1, T2. lia.
  - now apply negb_true_iff in T.
Qed.

(** No burst inside the frame is a codeword. *)
Lemma burst_table :
  forallb (fun p => forallb (fun m =>
    (m =? 0) || negb (codeword (burst_error p m))) (upto 0 256))
    (upto 0 41)
  = true.
Proof. vm_compute. reflexivity. Qed.

Lemma burst_no_codeword (p m : Z) :
  0 <= p <= 40 -> 1 <= m <= 255 -> codeword (burst_error p m) = false.
Proof.
  intros Hp Hm. pose proof burst_table as T.
  apply (forallb_upto _ _ p) in T; [| simpl; lia].
  apply (forallb_upto _ _ m) in T; [| simpl; lia].
  apply orb_true_iff in T as [T | T].
  - apply Z.eqb_eq in T. lia.
  - now apply negb_true_iff in T.
Qed.

Lemma is_u8_burst (p m : Z) : Forall is_u8 (burst_error p m).
Proof.
  unfold burst_error. apply Forall_forall. intros x Hx.
  apply in_map_iff in Hx as (j & <- & _). apply is_u8_u8.
Qed.

End ErrorPatterns.

(** X25.  The checksum test sees an error only through its pattern:
    for a frame of bytes that passes the test and any pattern of bytes
    XORed onto it, the corrupted frame passes exactly when the pattern
    is a codeword, that is when the checksum of its first five bytes,
    computed from a zero start register, is its sixth byte. *)
Theorem X25_error_passes_iff_codeword (data e : list Z) :
  Forall is_u8 data -> Forall is_u8 e ->
  Receiver.frame_ok data = true ->
  (Receiver.frame_ok (xor_frame data e) = true <-> codeword e = true).
Proof.
  intros B Be Hok. apply (error_passes_iff data _ e B Be Hok).
  intros j Hj. now apply idx_xor_frame.
Qed.

Lemma X25_error_passes_iff_codeword_witness :
  Receiver.frame_ok (xor_frame [21; 82; 27; 177; 85; 48] [17; 0; 0; 32; 0; 0])
  = true.
Proof.
  apply (X25_error_passes_iff_codeword [21; 82; 27; 177; 85; 48]
           [17; 0; 0; 32; 0; 0]).
  - repeat (apply Forall_cons; [unfold is_u8; lia |]). apply Forall_nil.
  - repeat (apply Forall_cons; [unfold is_u8; lia |]). apply Forall_nil.
  - vm_compute. reflexivity.
  - vm_compute. reflexivity.
Defined.

(** X26.  In a six-byte frame that passes the checksum test, any two
    inverted bits are detected, wherever they are.  Three inverted bits
    are not always: inverting bits 0 and 4 of byte 0 and bit 5 of
    byte 3 turns every frame that passes into another one that
    passes. *)
Theorem X26_double_bit_error_detected (data : list Z) (i b i' b' : Z) :
  length data = 6%nat -> Forall is_u8 data ->
  0 <= i < 6 -> 0 <= b < 8 -> 0 <= i' < 6 -> 0 <= b' < 8 ->
  i <> i' \/ b <> b' ->
  Receiver.frame_ok data = true ->
  Receiver.frame_ok (flip_bit (flip_bit data i b) i' b') = false /\
  Receiver.frame_ok (flip_bit (flip_bit (flip_bit data 0 0) 0 4) 3 5) = true.
Proof.
  intros L B Hi Hb Hi' Hb' Hne Hok.
  pose proof (corrupted_zeros data L) as C0. split.
  - apply (error_detected data _ (flip_bit (flip_bit zeros6 i b) i' b')
             B).
    + apply is_u8_flip_bit; [exact Hb' |].
      apply is_u8_flip_bit; [exact Hb | exact is_u8_zeros6].
    + exact Hok.
    + apply (corrupted_flip data _ _ i' b' Hi'
               (corrupted_flip data _ _ i b Hi C0)).
    + now apply two_bits_no_codeword.
  - refine (proj2 (error_passes_iff data _
                     (flip_bit (flip_bit (flip_bit zeros6 0 0) 0 4) 3 5)
                     B _ Hok _) _).
    + repeat (apply is_u8_flip_bit; [lia |]). exact is_u8_zeros6.
    + assert (C3 : corrupted data
                     (flip_bit (flip_bit (flip_bit data 0 0) 0 4) 3 5)
                     (flip_bit (flip_bit (flip_bit zeros6 0 0) 0 4) 3 5))
        by (repeat (apply corrupted_flip; [lia |]); exact C0).
      apply C3.
    + vm_compute. reflexivity.
Qed.

Lemma X26_double_bit_error_detected_witness :
  Receiver.frame_ok
    (flip_bit (flip_bit [21; 82; 27; 177; 85; 48] 1 7) 4 0) = false.
Proof.
  refine (proj1 (X26_double_bit_error_detected [21; 82; 27; 177; 85; 48]
                   1 7 4 0 eq_refl _ _ _ _ _ _ _)); try lia.
  - repeat (apply Forall_cons; [unfold is_u8; lia |]). apply Forall_nil.
  - vm_compute. reflexivity.
Defined.

(** X27.  In a frame that passes the checksum test, every error
    confined to eight consecutive bits of the frame (in the order the
    checksum takes the bits: byte 0 first, the most significant bit of
    a byte first) is detected. *)
Theorem X27_burst_error_detected (data : list Z) (p m : Z) :
  Forall is_u8 data -> 0 <= p <= 40 -> 1 <= m <= 255 ->
  Receiver.frame_ok data = true ->
  Receiver.frame_ok (xor_frame data (burst_error p m)) = false.
Proof.
  intros B Hp Hm Hok.
  apply (error_detected data _ (burst_error p m) B (is_u8_burst p m) Hok).
  - intros j Hj. now apply idx_xor_frame.
  - now apply burst_no_codeword.
Qed.

Lemma X27_burst_error_detected_witness :
  Receiver.frame_ok
    (xor_frame [21; 82; 27; 177; 85; 48] (burst_error 13 0xB5))
  = false.
Proof.
  apply (X27_burst_error_detected [21; 82; 27; 177; 85; 48] 13 0xB5);
    try lia.
  - repeat (apply Forall_cons; [unfold is_u8; lia |]). apply Forall_nil.
  - vm_compute. reflexivity.
Defined.


(** ** The hexadecimal display *)

Section Display.

Lemma s8_small (x : Z) : - 2 ^ 7 <= x < 2 ^ 7 -> s8 x = x.
Proof.
  intros H. unfold s8. rewrite Z.mod_small; lia.
Qed.

(** The loop as a list of pairs of characters. *)
Lemma lcd_hexdump_pairs (row col : Z) (data : ptr) (n : nat) :
  - 2 ^ 7 <= col < 2 ^ 7 -> col + 2 * Z.of_nat n <= 2 ^ 7 ->
  fold_left (lcd_hexdump_step row data) (upto 0 n) (col, []) =
    (s8 (col + 2 * Z.of_nat n),
     flat_map (fun i => shown row (col + 2 * i) (data i)) (upto 0 n)).
Proof.
  intros Hc. induction n as [| n IH]; intros Hn.
  - cbn [upto seq map fold_left flat_map].
    rewrite s8_small by lia. f_equal. lia.
  - rewrite upto_S, fold_left_app, flat_map_app, IH by lia.
    cbn [fold_left flat_map lcd_hexdump_step].
    rewrite (s8_small (col + 2 * Z.of_nat n)) by lia.
    rewrite (s8_small (col + 2 * Z.of_nat n + 1)) by lia.
    unfold shown. rewrite app_nil_r, <- app_assoc. cbn [app].
    f_equal. f_equal. lia.
Qed.

Lemma length_pairs {A : Type} (f : Z -> list A) (n : nat) :
  (forall i, length (f i) = 2%nat) ->
  length (flat_map f (upto 0 n)) = (2 * n)%nat.
Proof.
  intros H. induction n as [| n IH]; [reflexivity |].
  rewrite upto_S, flat_map_app, length_app, IH. cbn [flat_map].
  rewrite app_nil_r, H. lia.
Qed.

Lemma nth_pairs {A : Type} (f g : Z -> A) (n k : nat) (d : A) :
  (k < n)%nat ->
  nth (2 * k) (flat_map (fun i => [f i; g i]) (upto 0 n)) d
    = f (Z.of_nat k) /\
  nth (2 * k + 1) (flat_map (fun i => [f i; g i]) (upto 0 n)) d
    = g (Z.of_nat k).
Proof.
  induction n as [| n IH]; intros Hk; [lia |].
  rewrite upto_S, flat_map_app. cbn [flat_map]. rewrite app_nil_r.
  assert (Ln : length (flat_map (fun i => [f i; g i]) (upto 0 n))
               = (2 * n)%nat) by now apply length_pairs.
  destruct (Nat.eq_dec k n) as [-> | Hne].
  - rewrite !app_nth2 by lia. rewrite Ln.
    replace (2 * n - 2 * n)%nat with 0%nat by lia.
    replace (2 * n + 1 - 2 * n)%nat with 1%nat by lia.
    split; reflexivity.
  - rewrite !app_nth1 by lia. apply IH. lia.
Qed.

(** The character of a nibble is a hexadecimal digit that reads back
    as the nibble. *)
Lemma lcd_hex_digit (row col v : Z) :
  0 <= v < 16 ->
  let c := snd (lcd_hex row col v) in
  KeyGen.isxdigit c = true /\ KeyGen.HEX2BIN c = v.
Proof.
  intros Hv. cbn [lcd_hex snd]. apply nibble_range in Hv.
  repeat (destruct Hv as [-> | Hv]); subst; split; reflexivity.
Qed.

Lemma low_nibble (v : Z) :
  is_u8 v -> Z.land (Z.shiftr v 0) 0x0F = v mod 16 /\ 0 <= v mod 16 < 16.
Proof.
  intros Hv. rewrite Z.shiftr_0_r. change 0x0F with (Z.ones 4).
  rewrite Z.land_ones by lia. change (2 ^ 4) with 16.
  split; [reflexivity | apply Z.mod_pos_bound; lia].
Qed.

Lemma high_nibble (v : Z) :
  is_u8 v -> Z.land (Z.shiftr v 4) 0x0F = v / 16 /\ 0 <= v / 16 < 16.
Proof.
  unfold is_u8. change (2 ^ 8) with 256. intros Hv.
  change 0x0F with (Z.ones 4).
  rewrite Z.land_ones, Z.shiftr_div_pow2 by lia. change (2 ^ 4) with 16.
  assert (B : 0 <= v / 16 < 16)
    by (split; [apply Z.div_pos; lia | apply Z.div_lt_upper_bound; lia]).
  split; [now apply Z.mod_small | exact B].
Qed.

End Display.

(** X28.  [lcd_hexdump] writes two characters for each byte, at
    consecutive columns from [col] on, as long as the columns stay
    within the range of a [short]; both are hexadecimal digits, and the
    first (left) one is the digit of the low nibble, the second that
    of the high nibble: the byte 0x3B is shown as B3. *)
Theorem X28_lcd_hexdump_nibble_order (row col : Z) (data : ptr)
    (num k : Z) :
  0 <= k < num -> - 2 ^ 7 <= col -> col + 2 * num <= 2 ^ 7 ->
  is_u8 (data k) ->
  let out := lcd_hexdump row col data num in
  length out = Z.to_nat (2 * num) /\
  exists c_lo c_hi,
    nth (Z.to_nat (2 * k)) out (0, 0, 0) = (row, col + 2 * k, c_lo) /\
    nth (Z.to_nat (2 * k + 1)) out (0, 0, 0) = (row, col + 2 * k + 1, c_hi) /\
    KeyGen.isxdigit c_lo = true /\ KeyGen.isxdigit c_hi = true /\
    KeyGen.HEX2BIN c_lo = data k mod 16 /\
    KeyGen.HEX2BIN c_hi = data k / 16.
Proof.
  intros Hk Hc Hn Hv out. unfold out, lcd_hexdump.
  rewrite lcd_hexdump_pairs by lia. cbn [snd]. split.
  - rewrite length_pairs by reflexivity. lia.
  - destruct (low_nibble (data k) Hv) as [El Rl].
    destruct (high_nibble (data k) Hv) as [Eh Rh].
    destruct (lcd_hex_digit row (col + 2 * k) (data k mod 16) Rl)
      as [Xl Hl].
    destruct (lcd_hex_digit row (col + 2 * k + 1) (data k / 16) Rh)
      as [Xh Hh].
    exists (snd (lcd_hex row (col + 2 * k) (data k mod 16))),
           (snd (lcd_hex row (col + 2 * k + 1) (data k / 16))).
    destruct (nth_pairs
                (fun i => lcd_hex row (col + 2 * i)
                            (Z.land (Z.shiftr (data i) 0) 0x0F))
                (fun i => lcd_hex row (col + 2 * i + 1)
                            (Z.land (Z.shiftr (data i) 4) 0x0F))
                (Z.to_nat num) (Z.to_nat k) (0, 0, 0)) as [N0 N1]; [lia |].
    rewrite Z2Nat.id in N0, N1 by lia.
    replace (Z.to_nat (2 * k)) with (2 * Z.to_nat k)%nat by lia.
    replace (Z.to_nat (2 * k + 1)) with (2 * Z.to_nat k + 1)%nat by lia.
    unfold shown. rewrite N0, N1, El, Eh.
    repeat (split; [first [reflexivity | assumption] |]). exact Hh.
Qed.

Lemma X28_lcd_hexdump_nibble_order_witness :
  exists c_lo c_hi,
    nth 0 (lcd_hexdump 2 9 (of_array [0x3B; 0; 0; 0; 0; 0]) 6) (0, 0, 0)
      = (2, 9, c_lo) /\
    nth 1 (lcd_hexdump 2 9 (of_array [0x3B; 0; 0; 0; 0; 0]) 6) (0, 0, 0)
      = (2, 10, c_hi) /\
    KeyGen.HEX2BIN c_lo = 0x0B /\ KeyGen.HEX2BIN c_hi = 0x03.
Proof.
  destruct (X28_lcd_hexdump_nibble_order 2 9
              (of_array [0x3B; 0; 0; 0; 0; 0]) 6 0)
    as (_ & c_lo & c_hi & N0 & N1 & _ & _ & Hl & Hh); try lia.
  - vm_compute. intuition congruence.
  - exists c_lo, c_hi. split; [exact N0 |]. split; [exact N1 |].
    split; [exact Hl | exact Hh].
Defined.


(** ** The transmitter's frame at the receiver *)

Section EndToEnd.

Lemma idx_frame (mem : list Z) (j : Z) :
  0 <= j < 6 -> idx (map (idx mem) (upto 0 6)) j = idx mem j.
Proof. intros Hj. apply (idx_map_upto (idx mem) 6 j). lia. Qed.

Lemma is_u32_u32 (x : Z) : is_u32 (u32 x).
Proof. unfold is_u32, u32. apply Z.mod_pos_bound. lia. Qed.

End EndToEnd.

(** X29.  What the receiver makes of the six bytes [transmit_code]
    puts on the air, for every key, code and channel constant: it
    decrypts bytes 0..3 to the very code the transmitter returned, but
    it takes the channel from byte 4, which holds whatever the
    transmitter's buffer held on entry, and its checksum test compares
    the checksum of the first five bytes with byte 5, which holds the
    channel constant. *)
Theorem X29_sent_frame_at_receiver (fuel : nat) (e : Blowfish.engine)
    (chan code cnt : Z) (mem : list Z) (code' : Z) (mem' : list Z)
    (tr : list Transmitter.event) (pins : Z -> bool * bool) (b : bool)
    (st : Receiver.state) :
  Blowfish.valid_key e -> length mem = 7%nat ->
  Transmitter.transmit_code fuel e chan code cnt mem = Some (code', mem', tr)
  ->
  let frame := map (idx mem') (upto 0 6) in
  Transmitter.send_frame mem' =
    map Transmitter.EvSend (Transmitter.FRAME_MARK :: frame) /\
  Receiver.frame_ok frame = (Crc.crc_ccitt (of_array frame) 5 =? chan) /\
  idx frame 4 = idx mem 4 /\
  Receiver.process_code e frame false false pins b st =
    Receiver.set_PORTD 0x00
      (Receiver.process_load code' (idx mem 4 mod Receiver.MAX_CHANS) b st).
Proof.
  intros He L H frame.
  destruct (transmit_code_layout fuel e chan code cnt mem code' mem' tr L H)
    as [H4 H5].
  unfold Transmitter.transmit_code in H.
  destruct (Transmitter.form_message fuel e code (upd mem 5 chan))
    as [[c m] |] eqn:E; [| discriminate H].
  injection H as <- <- <-.
  assert (L5 : length (upd mem 5 chan) = 7%nat) by now rewrite length_upd.
  destruct (form_message_cells e fuel code (upd mem 5 chan) c m L5 E)
    as (_ & B & _ & _ & _ & k & _ & Hc).
  assert (F4 : idx frame 4 = idx mem 4).
  { unfold frame. rewrite idx_frame by lia. exact H4. }
  assert (F5 : idx frame 5 = chan).
  { unfold frame. rewrite idx_frame by lia. exact H5. }
  split; [| split; [| split]].
  - unfold Transmitter.send_frame, frame. reflexivity.
  - unfold Receiver.frame_ok. rewrite F5. reflexivity.
  - exact F4.
  - rewrite <- F4. apply process_code_normal.
    + exact He.
    + rewrite Hc. apply is_u32_u32.
    + intros j Hj. unfold frame. rewrite idx_frame by lia. apply B, Hj.
Qed.

Lemma X29_sent_frame_at_receiver_witness :
  Transmitter.transmit_code 4 sample_engine 0 0 1 stale_locals
    = Some (1, [21; 82; 27; 177; 85; 0; 48],
            [Transmitter.EvPower true] ++
            map Transmitter.EvSend [150; 21; 82; 27; 177; 85; 0] ++
            [Transmitter.EvPower false]) /\
  idx (map (idx [21; 82; 27; 177; 85; 0; 48]) (upto 0 6)) 4
    = idx stale_locals 4.
Proof.
  assert (H : Transmitter.transmit_code 4 sample_engine 0 0 1 stale_locals
              = Some (1, [21; 82; 27; 177; 85; 0; 48],
                      [Transmitter.EvPower true] ++
                      map Transmitter.EvSend [150; 21; 82; 27; 177; 85; 0] ++
                      [Transmitter.EvPower false]))
    by (vm_compute; reflexivity).
  split; [exact H |].
  exact (proj1 (proj2 (proj2
           (X29_sent_frame_at_receiver 4 sample_engine 0 0 1 stale_locals
              _ _ _ (fun _ => (false, false)) true enrolled_store
              valid_sample_engine eq_refl H)))).
Defined.
